(** * Nativity.ai localization pipeline: a shallow embedding of the backend

    The development follows the layout of [backend/]: Python primitives
    first, then one module per service ([tts_service], [ffmpeg_service],
    [gemini_service], [db_service]) and finally the orchestration code of
    [routes/video.py].

    Conventions.
    - A Python [str] is a [string], one character per code point (code
      points below 256); a Python [dict] used as a map is a
      [gmap string _]; a missing key is [None].
    - A finite Python [float] is the rational ([Q]) it denotes; the float
      arithmetic of the bitrate computation rounds to the nearest binary64
      number ([Py.binary64]).
    - A call that can raise returns a [result]; [Raise e] carries the
      exception.  Functions that talk to the outside world take the outcome
      of every external call from an explicit environment record. *)

From Stdlib Require Import ZArith QArith Qround Qabs Qpower String Ascii List.
From Stdlib Require Import Bool Lia.
From Stdlib Require Import DecimalString DecimalNat Sorted Lqa.
From stdpp Require Import base option gmap strings list fin_maps.

Local Open Scope string_scope.
Local Open Scope Z_scope.

(** ** Python primitives *)

Module Py.

(** Exceptions, by class, as the code raises and catches them.  All of
    them derive from [Exception], so [except Exception] catches each. *)
Inductive exn : Type :=
| Exception (msg : string)
| TypeError (msg : string)
| KeyError (key : string)
| ZeroDivisionError
| ClientError (msg : string)
| FFmpegError (stderr : string)
| OSError (msg : string)
| ValueError (msg : string)
| JSONDecodeError (msg : string)
| OverflowError (msg : string)
| HTTPException (status_code : Z) (detail : string).

(** [str(e)] *)
Definition str_of_exn (e : exn) : string :=
  match e with
  | Exception m | TypeError m | ClientError m | FFmpegError m | OSError m
  | ValueError m | JSONDecodeError m | OverflowError m => m
  | KeyError k => "'" ++ k ++ "'"
  | ZeroDivisionError => "float division by zero"
  | HTTPException _ d => d
  end.

Inductive result (A : Type) : Type :=
| Ok (a : A)
| Raise (e : exn).
Arguments Ok {A} a.
Arguments Raise {A} e.

#[global] Instance result_ret : MRet result := fun A a => Ok a.
#[global] Instance result_bind : MBind result := fun A B k r =>
  match r with
  | Ok a => k a
  | Raise e => Raise e
  end.

(** [d[k]]: a subscript on a dict raises [KeyError] on a missing key. *)
Definition subscript {V} (d : gmap string V) (k : string) : result V :=
  match d !! k with
  | Some v => Ok v
  | None => Raise (KeyError k)
  end.

(** [d.get(k, dflt)] *)
Definition get {V} (d : gmap string V) (k : string) (dflt : V) : V :=
  default dflt (d !! k).

(** Truth value of a [str]: the empty string is false. *)
Definition truthy (s : string) : bool :=
  match s with
  | EmptyString => false
  | String _ _ => true
  end.

(** Truth value of an [Optional[str]]: [None] and [""] are false. *)
Definition truthy_opt (o : option string) : bool :=
  match o with
  | Some s => truthy s
  | None => false
  end.

(** [str.lower] on the ASCII letters. *)
Definition lower_char (c : ascii) : ascii :=
  let n := N_of_ascii c in
  if ((65 <=? n) && (n <=? 90))%N then ascii_of_N (n + 32) else c.

Fixpoint lower (s : string) : string :=
  match s with
  | EmptyString => EmptyString
  | String c s' => String (lower_char c) (lower s')
  end.

(** [pat in s] on strings. *)
Fixpoint contains (pat s : string) : bool :=
  String.prefix pat s ||
  match s with
  | EmptyString => false
  | String _ s' => contains pat s'
  end.

(** [str.isspace] for one character: TAB..CR, FS..US, SPACE, NEL, NBSP. *)
Definition isspace (c : ascii) : bool :=
  let n := N_of_ascii c in
  (((9 <=? n) && (n <=? 13)) || ((28 <=? n) && (n <=? 32))
   || (n =? 133) || (n =? 160))%N.

Fixpoint lstrip (l : list ascii) : list ascii :=
  match l with
  | c :: l' => if isspace c then lstrip l' else l
  | [] => []
  end.

(** [str.strip()] *)
Definition strip (s : string) : string :=
  string_of_list_ascii
    (rev (lstrip (rev (lstrip (list_ascii_of_string s))))).

(** [str.split()]: the maximal runs of non-whitespace characters.
    [cur] is the run being read, reversed. *)
Fixpoint split_aux (l : list ascii) (cur : list ascii) : list string :=
  match l with
  | [] =>
      match cur with
      | [] => []
      | _ => [string_of_list_ascii (rev cur)]
      end
  | c :: l' =>
      if isspace c then
        match cur with
        | [] => split_aux l' []
        | _ => string_of_list_ascii (rev cur) :: split_aux l' []
        end
      else split_aux l' (c :: cur)
  end.

Definition split (s : string) : list string :=
  split_aux (list_ascii_of_string s) [].

(** [str(n)] for a non-negative [int]. *)
Definition str_of_nat (n : nat) : string :=
  NilEmpty.string_of_uint (Nat.to_uint n).

(** [str(z)] for an [int]. *)
Definition str_of_Z (z : Z) : string :=
  if z <? 0 then "-" ++ str_of_nat (Z.to_nat (- z)) else str_of_nat (Z.to_nat z).

Fixpoint zeros (n : nat) : string :=
  match n with
  | O => ""
  | S n' => "0" ++ zeros n'
  end.

(** Zero padding of a sign-free digit string to [width] characters. *)
Definition zfill (width : nat) (s : string) : string :=
  zeros (width - String.length s) ++ s.

(** [f"{z:0{width}d}"]: the sign counts towards the width. *)
Definition format_d (width : nat) (z : Z) : string :=
  if z <? 0 then "-" ++ zfill (width - 1) (str_of_nat (Z.to_nat (- z)))
  else zfill width (str_of_nat (Z.to_nat z)).

(** [int(x)] for a [float]: truncation towards zero. *)
Definition int_of_float (x : Q) : Z :=
  Z.quot (Qnum x) (Zpos (Qden x)).

(** [x // y] and [x % y] on floats, for [y <> 0]. *)
Definition floordiv (x y : Q) : Q := inject_Z (Qfloor (x / y)%Q).
Definition fmod (x y : Q) : Q := (x - y * floordiv x y)%Q.

(** Rounding to the nearest integer, ties to even. *)
Definition round_half_even (x : Q) : Z :=
  let f := Qfloor x in
  let r := (x - inject_Z f)%Q in
  match (r ?= (1 # 2))%Q with
  | Lt => f
  | Gt => f + 1
  | Eq => if Z.even f then f else f + 1
  end.

(** *** Float arithmetic

    A [float] is an IEEE 754 binary64 number; a finite one is modelled by
    the rational it denotes.  An arithmetic operation computes the exact
    result and rounds it to the nearest float, ties to even; a result
    beyond the largest float is an infinity. *)

(** [floor(log2 |x|)], for [x <> 0]. *)
Definition ilog2 (x : Q) : Z :=
  let k := Z.log2 (Z.abs (Qnum x)) - Z.log2 (Zpos (Qden x)) in
  if Qle_bool (2 ^ k)%Q (Qabs x) then k else k - 1.

(** The float nearest to [x]: 53 significant bits, the last of them
    worth [2 ^ e] with [e] no lower than -1074; [None] is an infinity. *)
Definition binary64 (x : Q) : option Q :=
  if Qeq_bool x 0 then Some 0%Q
  else
    let e := Z.max (ilog2 x - 52) (-1074) in
    let m := round_half_even (x / 2 ^ e)%Q in
    let y := (inject_Z m * 2 ^ e)%Q in
    if Qle_bool (2 ^ 1024)%Q (Qabs y) then None else Some y.

(** [f"{x:0{width}.{digits}f}"] for [0 <= x] and [0 < digits]. *)
Definition format_f (width digits : nat) (x : Q) : string :=
  let scale := 10 ^ Z.of_nat digits in
  let n := round_half_even (x * inject_Z scale)%Q in
  zfill width
    (str_of_nat (Z.to_nat (n / scale)) ++ "." ++
     zfill digits (str_of_nat (Z.to_nat (n mod scale)))).

(** ["\n".join(lines)] *)
Definition newline : string := String (ascii_of_nat 10) EmptyString.

Fixpoint join_lines (lines : list string) : string :=
  match lines with
  | [] => ""
  | [l] => l
  | l :: rest => l ++ newline ++ join_lines rest
  end.

(** [s.split(sep)] for a non-empty [sep]: the pieces between the
    occurrences of [sep], found from left to right.  [skip] counts the
    characters of the occurrence being passed that are still to come and
    [cur] is the piece being read, reversed. *)
Fixpoint split_on_aux (sep s : string) (skip : nat) (cur : list ascii)
    : list string :=
  match s with
  | EmptyString => [string_of_list_ascii (rev cur)]
  | String c s' =>
      match skip with
      | S k => split_on_aux sep s' k cur
      | O =>
          if String.prefix sep s then
            string_of_list_ascii (rev cur)
              :: split_on_aux sep s' (String.length sep - 1) []
          else split_on_aux sep s' 0 (c :: cur)
      end
  end.

Definition split_on (sep s : string) : list string := split_on_aux sep s 0 [].

(** [s.replace(old, new)] for a non-empty [old]: the occurrences are
    found from left to right and do not overlap. *)
Fixpoint replace_aux (old new s : string) (skip : nat) : string :=
  match s with
  | EmptyString => EmptyString
  | String c s' =>
      match skip with
      | S k => replace_aux old new s' k
      | O =>
          if String.prefix old s then
            new ++ replace_aux old new s' (String.length old - 1)
          else String c (replace_aux old new s' 0)
      end
  end.

(** With an empty [old], [new] goes before every character and at the
    end. *)
Fixpoint replace_empty (new s : string) : string :=
  match s with
  | EmptyString => new
  | String c s' => new ++ String c (replace_empty new s')
  end.

(** [s.replace(old, new)] *)
Definition replace (old new s : string) : string :=
  match old with
  | EmptyString => replace_empty new s
  | String _ _ => replace_aux old new s 0
  end.

Fixpoint lstrip_char (c : ascii) (l : list ascii) : list ascii :=
  match l with
  | x :: l' => if Ascii.eqb x c then lstrip_char c l' else l
  | [] => []
  end.

(** [s.strip(c)] for a one-character [c]. *)
Definition strip_char (c : ascii) (s : string) : string :=
  string_of_list_ascii
    (rev (lstrip_char c (rev (lstrip_char c (list_ascii_of_string s))))).

End Py.

(** ** models.py and the dictionaries exchanged between the layers *)

Module Models.

(** [JobStatus] *)
Inductive JobStatus : Type :=
| PENDING | UPLOADING | ANALYZING | GENERATING_AUDIO | STITCHING
| COMPLETE | FAILED.

#[global] Instance JobStatus_eq_dec : EqDecision JobStatus.
Proof. solve_decision. Defined.

(** [LocalizationJob] *)
Record LocalizationJob : Type := {
  job_id : string;
  status : JobStatus;
  progress : Z;
  message : string;
  input_file : string;
  target_language : string;
  output_file : option string;
  error : option string
}.

(** One entry of [approved_segments], as the client posts it: a JSON
    object whose keys may be absent ([None]); times are JSON numbers. *)
Record Segment : Type := {
  start : option Q;
  end_ : option Q;
  translated_text : option string;
  original_text : option string
}.

(** A segment time as the analysis and synthesis layers store it: a
    number of seconds, or a clock string such as ["00:05"] or the default
    ["00:00"], which [float()] rejects. *)
Inductive timestamp : Type :=
| Seconds (q : Q)
| Clock (s : string).

(** A segment dict as [generate_segments_from_analysis] reads it. *)
Record TtsSegment : Type := {
  tts_start_time : option timestamp;
  tts_end_time : option timestamp;
  tts_translated_text : option string;
  tts_original_text : option string
}.

(** [os.path.join(dir, name)] for a relative [name]. *)
Definition path_join (dir name : string) : string := dir ++ "/" ++ name.

(** [TargetLanguage] and its [.value] *)
Inductive TargetLanguage : Type := HINDI | TAMIL | BENGALI | TELUGU | MARATHI.

Definition value (l : TargetLanguage) : string :=
  match l with
  | HINDI => "hindi"
  | TAMIL => "tamil"
  | BENGALI => "bengali"
  | TELUGU => "telugu"
  | MARATHI => "marathi"
  end.

(** [LocalizationRequest] *)
Record LocalizationRequest : Type := {
  lr_file_key : string;
  lr_target_language : TargetLanguage
}.

End Models.

(** ** services/tts_service.py *)

Module TTS.
Import Py Models.

(** [AudioSegment] *)
Record AudioSegment : Type := {
  text : string;
  file_path : string;
  start_time : timestamp;
  end_time : timestamp;
  duration_ms : Z;
  language : string
}.

(** [TTSService.VOICE_MAP] *)
Definition VOICE_MAP : gmap string (gmap string string) :=
  <["hindi" := <["male" := "hi-IN-MadhurNeural"]> (<["female" := "hi-IN-SwaraNeural"]> ∅)]> (
  <["tamil" := <["male" := "ta-IN-ValluvarNeural"]> (<["female" := "ta-IN-PallaviNeural"]> ∅)]> (
  <["bengali" := <["male" := "bn-IN-BashkarNeural"]> (<["female" := "bn-IN-TanishaaNeural"]> ∅)]> (
  <["telugu" := <["male" := "te-IN-MohanNeural"]> (<["female" := "te-IN-ShrutiNeural"]> ∅)]> (
  <["marathi" := <["male" := "mr-IN-ManoharNeural"]> (<["female" := "mr-IN-AarohiNeural"]> ∅)]> (
  <["english" := <["male" := "en-IN-PrabhatNeural"]> (<["female" := "en-IN-NeerjaNeural"]> ∅)]>
  ∅))))).

(** [TTSService.get_voice].  Python evaluates the default arguments
    [self.VOICE_MAP["hindi"]] and [lang_voices["female"]] before the
    [.get] they are passed to, so both subscripts can raise. *)
Definition get_voice (language gender : string) : result string :=
  hindi ← subscript VOICE_MAP "hindi";
  let lang_voices := get VOICE_MAP (lower language) hindi in
  female ← subscript lang_voices "female";
  mret (get lang_voices gender female).

(** The speech engine and the file system, as seen from the service. *)
Record Engine : Type := {
  (** [os.makedirs(os.path.dirname(file_path), exist_ok=True)] *)
  makedirs : string -> result unit;
  (** [edge_tts.Communicate(text, voice, rate, pitch).save(file_path)] *)
  communicate_save : string -> string -> string -> result unit;
  (** [_get_audio_duration(file_path)]; it swallows every exception *)
  get_audio_duration : string -> Z
}.

(** The dict returned by [generate_audio_segment]. *)
Inductive SegmentResult : Type :=
| Success (file_path voice language : string) (duration_ms : Z)
          (text_length : nat)
| Failure (error file_path : string).

(** [TTSService.generate_audio_segment]: every exception of the body is
    turned into a failure dict. *)
Definition generate_audio_segment (eng : Engine)
    (text language file_path gender : string) : SegmentResult :=
  let body : result SegmentResult :=
    voice ← get_voice language gender;
    _ ← makedirs eng file_path;
    _ ← communicate_save eng text voice file_path;
    let duration_ms := get_audio_duration eng file_path in
    mret (Success file_path voice language duration_ms (String.length text)) in
  match body with
  | Ok r => r
  | Raise e => Failure (str_of_exn e) file_path
  end.

(** The [for i, segment in enumerate(segments)] loop of
    [generate_segments_from_analysis]; [i] is the index of the head of
    [segments] and [audio_segments] the list built so far. *)
Fixpoint segments_loop (eng : Engine) (output_dir language gender : string)
    (i : nat) (segments : list TtsSegment)
    (audio_segments : list AudioSegment) : list AudioSegment :=
  match segments with
  | [] => audio_segments
  | segment :: rest =>
      let filename := "segment_" ++ format_d 4 (Z.of_nat i) ++ ".mp3" in
      let file_path := path_join output_dir filename in
      let text := default "" (tts_translated_text segment) in
      if negb (truthy text) then
        segments_loop eng output_dir language gender (S i) rest audio_segments
      else
        match generate_audio_segment eng text language file_path gender with
        | Success _ _ _ duration_ms _ =>
            segments_loop eng output_dir language gender (S i) rest
              (audio_segments ++
               [{| text := text;
                   file_path := file_path;
                   start_time := default (Clock "00:00") (tts_start_time segment);
                   end_time := default (Clock "00:00") (tts_end_time segment);
                   duration_ms := duration_ms;
                   language := language |}])
        | Failure _ _ =>
            segments_loop eng output_dir language gender (S i) rest audio_segments
        end
  end.

(** What one iteration of the loop contributes: the audio segment of the
    segment at index [i], if it has text and its synthesis succeeds. *)
Definition segment_file_path (output_dir : string) (i : nat) : string :=
  path_join output_dir ("segment_" ++ format_d 4 (Z.of_nat i) ++ ".mp3").

Definition segment_text (segment : TtsSegment) : string :=
  default "" (tts_translated_text segment).

Definition audio_of (eng : Engine) (output_dir language gender : string)
    (i : nat) (segment : TtsSegment) : option AudioSegment :=
  let text := segment_text segment in
  if negb (truthy text) then None
  else
    match generate_audio_segment eng text language
            (segment_file_path output_dir i) gender with
    | Success _ _ _ duration_ms _ =>
        Some {| text := text;
                file_path := segment_file_path output_dir i;
                start_time := default (Clock "00:00") (tts_start_time segment);
                end_time := default (Clock "00:00") (tts_end_time segment);
                duration_ms := duration_ms;
                language := language |}
    | Failure _ _ => None
    end.

(** The synthesis of the segment at index [i] is attempted and fails. *)
Definition synthesis_fails (eng : Engine) (output_dir language gender : string)
    (i : nat) (segment : TtsSegment) : Prop :=
  truthy (segment_text segment) = true /\
  exists err fp,
    generate_audio_segment eng (segment_text segment) language
      (segment_file_path output_dir i) gender = Failure err fp.

(** [TTSService.generate_segments_from_analysis]; [output_dir] is
    [self.output_dir].  The body has no [raise] and calls nothing that
    raises, hence the [Ok]. *)
Definition generate_segments_from_analysis (eng : Engine) (output_dir : string)
    (segments : list TtsSegment) (language gender : string)
    : result (list AudioSegment) :=
  Ok (segments_loop eng output_dir language gender 0 segments []).

End TTS.

(** ** services/ffmpeg_service.py *)

Module FFmpeg.
Import Py Models.

(** [ProcessingResult] *)
Record ProcessingResult : Type := {
  success : bool;
  output_path : option string;
  file_size_mb : Q;
  duration_seconds : Q;
  error : option string
}.

Definition failed (msg : string) : ProcessingResult :=
  {| success := false; output_path := None; file_size_mb := 0;
     duration_seconds := 0; error := Some msg |}.

(** The dict of [get_video_info], reduced to the keys that are read. *)
Inductive VideoInfo : Type :=
| InfoError (msg : string)
| Info (duration size_mb : Q).

(** An ffmpeg invocation: input files, output file and output options in
    the order they are given. *)
Record Command : Type := {
  inputs : list string;
  output : string;
  options : list (string * string)
}.

(** The codec engine and the file system, as seen from the service. *)
Record Codec : Type := {
  (** [self.ffmpeg_available], fixed when the service is created *)
  ffmpeg_available : bool;
  (** [ffmpeg.probe(path)] and the reading of its fields *)
  probe : string -> result (Q * Q);
  (** [tempfile.mkdtemp(prefix=...)] *)
  mkdtemp : string -> result string;
  (** the try block of [concatenate_audio_segments]: the size in MB of
      the joined file, or the exception *)
  run_concat : list string -> string -> result Q;
  (** [ffmpeg ... .overwrite_output().run(...)] *)
  run : Command -> result unit;
  (** [shutil.rmtree(path)] *)
  rmtree : string -> result unit
}.

(** [FFmpegService.get_video_info] *)
Definition get_video_info (cd : Codec) (video_path : string) : VideoInfo :=
  if negb (ffmpeg_available cd) then InfoError "FFmpeg not installed"
  else
    match probe cd video_path with
    | Ok (d, sz) => Info d sz
    | Raise e => InfoError (str_of_exn e)
    end.

Definition info_get_duration (i : VideoInfo) (dflt : Q) : Q :=
  match i with Info d _ => d | InfoError _ => dflt end.

Definition info_get_size_mb (i : VideoInfo) (dflt : Q) : Q :=
  match i with Info _ sz => sz | InfoError _ => dflt end.

(** [FFmpegService.concatenate_audio_segments] (called without [gaps]) *)
Definition concatenate_audio_segments (cd : Codec)
    (audio_files : list string) (output_path : string) : ProcessingResult :=
  if negb (ffmpeg_available cd) then failed "FFmpeg not installed"
  else
    match audio_files with
    | [] => failed "No audio files provided"
    | _ =>
        match run_concat cd audio_files output_path with
        | Ok file_size =>
            {| success := true; output_path := Some output_path;
               file_size_mb := file_size; duration_seconds := 0;
               error := None |}
        | Raise e => failed (str_of_exn e)
        end
    end.

(** One entry of the [audio_segments] argument of [stitch_video]. *)
Record AudioDict : Type := {
  d_file_path : option string;
  d_start_time : timestamp;
  d_end_time : timestamp
}.

(** The output options [stitch_video] builds. *)
Definition output_options (optimize_for_mobile : bool) : list (string * string) :=
  [("vcodec", "libx264"); ("acodec", "aac"); ("audio_bitrate", "128k");
   ("shortest", "")] ++
  (if optimize_for_mobile then
     [("preset", "fast"); ("crf", "28"); ("vf", "scale=-2:480");
      ("movflags", "+faststart")]
   else
     [("preset", "medium"); ("crf", "23")]).

(** [FFmpegService.stitch_video], with the four parameters of its
    signature. *)
Definition stitch_video (cd : Codec) (original_video_path : string)
    (audio_segments : list AudioDict) (output_path : string)
    (optimize_for_mobile : bool) : ProcessingResult :=
  if negb (ffmpeg_available cd) then
    failed "FFmpeg not installed. Please install FFmpeg: https://ffmpeg.org/download.html"
  else
    let body : result ProcessingResult :=
      temp_dir ← mkdtemp cd "nativity_stitch_";
      _ ← match get_video_info cd original_video_path with
          | InfoError m => Raise (Exception ("Cannot read video: " ++ m))
          | Info _ _ => Ok ()
          end;
      let audio_files :=
        omap (fun seg => match d_file_path seg with
                         | Some f => if truthy f then Some f else None
                         | None => None
                         end) audio_segments in
      _ ← match audio_files with
          | [] => Raise (Exception "No audio segments provided")
          | _ => Ok ()
          end;
      let combined_audio := path_join temp_dir "combined_audio.mp3" in
      let concat_result := concatenate_audio_segments cd audio_files combined_audio in
      _ ← (if success concat_result then Ok ()
           else Raise (Exception ("Audio concatenation failed: " ++
                                  default "None" (error concat_result))));
      _ ← run cd {| inputs := [original_video_path; combined_audio];
                    output := output_path;
                    options := output_options optimize_for_mobile |};
      let final_info := get_video_info cd output_path in
      _ ← rmtree cd temp_dir;
      mret {| success := true; output_path := Some output_path;
              file_size_mb := info_get_size_mb final_info 0;
              duration_seconds := info_get_duration final_info 0;
              error := None |} in
    match body with
    | Ok r => r
    | Raise (FFmpegError stderr) => failed ("FFmpeg error: " ++ stderr)
    | Raise e => failed (str_of_exn e)
    end.

(** The bitrate computation of [create_whatsapp_version]:
    [int((target_size_mb * 8192) / duration) - 128], then
    [max(target_bitrate, 200)].  The product and the quotient are floats,
    each rounded; dividing by a zero duration raises, and so does [int]
    on an infinity. *)
Definition target_bitrate (target_size_mb duration : Q) : result Z :=
  if Qeq_bool duration 0 then Raise ZeroDivisionError
  else
    match binary64 (target_size_mb * 8192) with
    | None => Raise (OverflowError "cannot convert float infinity to integer")
    | Some product =>
        match binary64 (product / duration) with
        | None => Raise (OverflowError "cannot convert float infinity to integer")
        | Some quotient =>
            let target_bitrate := int_of_float quotient - 128 in
            Ok (Z.max target_bitrate 200)
        end
    end.

(** [FFmpegService.create_whatsapp_version] *)
Definition create_whatsapp_version (cd : Codec) (input_path output_path : string)
    (target_size_mb : Q) : ProcessingResult :=
  if negb (ffmpeg_available cd) then failed "FFmpeg not installed"
  else
    let body : result ProcessingResult :=
      let info := get_video_info cd input_path in
      let duration := info_get_duration info 60 in
      target_bitrate ← target_bitrate target_size_mb duration;
      _ ← run cd {| inputs := [input_path];
                    output := output_path;
                    options :=
                      [("vcodec", "libx264");
                       ("video_bitrate", str_of_Z target_bitrate ++ "k");
                       ("acodec", "aac"); ("audio_bitrate", "96k");
                       ("preset", "fast"); ("vf", "scale=-2:360");
                       ("movflags", "+faststart")] |};
      let final_info := get_video_info cd output_path in
      mret {| success := true; output_path := Some output_path;
              file_size_mb := info_get_size_mb final_info 0;
              duration_seconds := info_get_duration final_info 0;
              error := None |} in
    match body with
    | Ok r => r
    | Raise e => failed (str_of_exn e)
    end.

(** *** Keyword calls

    The routes call the service with keyword arguments.  A keyword that
    names no parameter of the callee makes the call itself raise
    [TypeError], before the body runs. *)

Definition stitch_video_params : list string :=
  ["self"; "original_video_path"; "audio_segments"; "output_path";
   "optimize_for_mobile"].

Definition create_whatsapp_version_params : list string :=
  ["self"; "input_path"; "output_path"; "target_size_mb"].

Definition check_keywords (fname : string) (params keywords : list string)
    : result unit :=
  match List.filter (fun k => negb (existsb (String.eqb k) params)) keywords with
  | [] => Ok ()
  | k :: _ =>
      Raise (TypeError (fname ++ "() got an unexpected keyword argument '"
                        ++ k ++ "'"))
  end.

(** The keyword arguments of the [stitch_video] call in the routes. *)
Record StitchCall : Type := {
  kw_original_video_path : string;
  kw_audio_segments : list AudioDict;
  kw_output_path : string;
  kw_optimize_for_mobile : bool;
  kw_tts_delay_seconds : Q
}.

Definition StitchCall_keywords : list string :=
  ["original_video_path"; "audio_segments"; "output_path";
   "optimize_for_mobile"; "tts_delay_seconds"].

(** The keyword arguments of the [create_whatsapp_version] call. *)
Record WhatsappCall : Type := {
  kw_input_path : string;
  kw_whatsapp_output_path : string;
  kw_target_size_mb : Q
}.

Definition WhatsappCall_keywords : list string :=
  ["input_path"; "output_path"; "target_size_mb"].

(** What the routes use of the [ffmpeg_service] object. *)
Record Service : Type := {
  is_available : bool;
  call_stitch_video : StitchCall -> result ProcessingResult;
  call_create_whatsapp_version : WhatsappCall -> result ProcessingResult
}.

(** The singleton [ffmpeg_service = FFmpegService()]. *)
Definition ffmpeg_service (cd : Codec) : Service :=
  {| is_available := ffmpeg_available cd;
     call_stitch_video := fun c =>
       _ ← check_keywords "stitch_video" stitch_video_params StitchCall_keywords;
       mret (stitch_video cd (kw_original_video_path c) (kw_audio_segments c)
               (kw_output_path c) (kw_optimize_for_mobile c));
     call_create_whatsapp_version := fun c =>
       _ ← check_keywords "create_whatsapp_version"
             create_whatsapp_version_params WhatsappCall_keywords;
       mret (create_whatsapp_version cd (kw_input_path c)
               (kw_whatsapp_output_path c) (kw_target_size_mb c)) |}.

End FFmpeg.

(** ** services/gemini_service.py *)

Module Gemini.
Import Py.

Definition MAX_RETRIES : nat := 10.
Definition INITIAL_RETRY_DELAY_SECONDS : Z := 5.

(** The test of the [except] branch:
    [any(err in error_str for err in [...])] with
    [error_str = str(e).lower()]. *)
Definition transient_markers : list string :=
  ["resourceexhausted"; "429"; "quota"; "503"; "serviceunavailable";
   "overloaded"].

Definition is_transient (e : exn) : bool :=
  let error_str := lower (str_of_exn e) in
  existsb (fun err => contains err error_str) transient_markers.

(** What a method does that is visible from outside. *)
Inductive Event : Type :=
| Uploaded                    (* [client.files.upload(file=video_path)] *)
| Polled (n : nat)            (* the [n]-th [client.files.get(...)] *)
| Called (attempt : nat)      (* [client.models.generate_content(...)] *)
| Slept (delay : Z).          (* [time.sleep(delay)] *)

(** The response of the model: [response.text] is [None] when the
    response carries no text. *)
Record Response : Type := { text : option string }.

(** How the [for attempt in range(MAX_RETRIES)] loop is left. *)
Inductive LoopExit : Type :=
| Broke (response : Response) (* [break] after a response *)
| Returned (error : string)   (* [return {"error": ...}] *)
| Raised (e : exn)            (* [raise e] *)
| Exhausted.                  (* the range ran out: [response is None] *)

Definition quota_message : string :=
  "API quota exceeded after multiple retries. Please wait and try again.".

(** The retry loop, over the attempts still to come.  The outcome of the
    [attempt]-th call of the model is [generate_content attempt]. *)
Fixpoint retry_loop (generate_content : nat -> result Response)
    (attempts : list nat) : LoopExit * list Event :=
  match attempts with
  | [] => (Exhausted, [])
  | attempt :: rest =>
      match generate_content attempt with
      | Ok response => (Broke response, [Called attempt])
      | Raise e =>
          if is_transient e then
            let delay := INITIAL_RETRY_DELAY_SECONDS * 2 ^ Z.of_nat attempt in
            if (attempt <? MAX_RETRIES - 1)%nat then
              let '(x, evs) := retry_loop generate_content rest in
              (x, Called attempt :: Slept delay :: evs)
            else (Returned quota_message, [Called attempt])
          else (Raised e, [Called attempt])
      end
  end.

(** The loop as the three methods run it: over [range(MAX_RETRIES)]. *)
Definition generate_with_retry (generate_content : nat -> result Response)
    : LoopExit * list Event :=
  retry_loop generate_content (seq 0 MAX_RETRIES).

(** Vocabulary for the retry policy.  The first [k] calls all fail with
    a transient error. *)
Definition transient_until (generate_content : nat -> result Response)
    (k : nat) : Prop :=
  forall i, (i < k)%nat ->
    exists e, generate_content i = Raise e /\ is_transient e = true.

(** Calls [a], [a+1], ..., each followed by its sleep:
    [INITIAL_RETRY_DELAY_SECONDS * 2 ^ i] seconds after call [i]. *)
Definition backoff (a k : nat) : list Event :=
  flat_map (fun i => [Called i;
                      Slept (INITIAL_RETRY_DELAY_SECONDS * 2 ^ Z.of_nat i)])
           (seq a k).

(** What [json.loads] returns for a text it accepts. *)
Inductive Loaded : Type :=
| LoadedDict                          (* a JSON object: a [dict] *)
| LoadedList                          (* a JSON array: a [list] *)
| LoadedOther (type_name : string).   (* [str], [int], [float], [bool], [NoneType] *)

(** The Gemini client and the [json] module, as seen from the service. *)
Record Client : Type := {
  (** [self.client is not None] *)
  configured : bool;
  (** [client.files.upload(file=video_path)] and the reading of the
      [state.name] of the file it returns *)
  files_upload : string -> result string;
  (** the [n]-th [client.files.get(name=...)] and the reading of the
      [state.name] of the file it returns *)
  files_get : nat -> result string;
  generate_content : nat -> result Response;
  (** [json.loads(text)]: the kind of value parsed; a text that is not
      JSON raises [JSONDecodeError] *)
  json_loads : string -> result Loaded
}.

(** The dict a method returns: an ["error"] entry or the parsed result. *)
Inductive Reply : Type :=
| ErrorReply (error : string)
| ResultReply (payload : string).

(** [json.loads(response.text)]: a [None] in place of the text raises
    [TypeError]. *)
Definition loads (cl : Client) (response : Response) : result Loaded :=
  match text response with
  | None =>
      Raise (TypeError
        "the JSON object must be str, bytes or bytearray, not NoneType")
  | Some t => json_loads cl t
  end.

(** [result[key] = value] with a string key, on what [json.loads]
    returned: only a dict takes it. *)
Definition setitem (result : Loaded) : Py.result unit :=
  match result with
  | LoadedDict => Ok ()
  | LoadedList =>
      Raise (TypeError "list indices must be integers or slices, not str")
  | LoadedOther type_name =>
      Raise (TypeError ("'" ++ type_name ++
                        "' object does not support item assignment"))
  end.

(** The [try] block that ends a method and its
    [except json.JSONDecodeError]; [assigns] tells whether the method
    assigns keys to the parsed value before it returns it. *)
Definition parse_response (cl : Client) (parse_error : string)
    (assigns : bool) (response : Response) : result Reply :=
  match loads cl response with
  | Ok result =>
      _ ← (if assigns then setitem result else Ok ());
      Ok (ResultReply (default "" (text response)))
  | Raise (JSONDecodeError _) => Ok (ErrorReply parse_error)
  | Raise e => Raise e
  end.

(** What follows the loop in each method. *)
Definition after_loop (cl : Client) (parse_error : string) (assigns : bool)
    (x : LoopExit) : result Reply :=
  match x with
  | Raised e => Raise e
  | Returned err => Ok (ErrorReply err)
  | Exhausted => Ok (ErrorReply "Failed to get response from Gemini API")
  | Broke response => parse_response cl parse_error assigns response
  end.

(** The [while video_file.state.name == "PROCESSING"] loop of
    [analyze_video]; [polls] counts the [files.get] calls made so far.
    The loop has no bound of its own: the model runs it on [fuel] and
    yields [None] when the fuel runs out first. *)
Fixpoint wait_for_processing (cl : Client) (fuel polls : nat) (state : string)
    {struct fuel} : option (result string * list Event) :=
  if String.eqb state "PROCESSING" then
    match fuel with
    | O => None
    | S fuel' =>
        match files_get cl polls with
        | Raise e => Some (Raise e, [Slept 2; Polled polls])
        | Ok state' =>
            match wait_for_processing cl fuel' (S polls) state' with
            | Some (x, evs) => Some (x, Slept 2 :: Polled polls :: evs)
            | None => None
            end
        end
    end
  else Some (Ok state, []).

(** [GeminiService.analyze_video] *)
Definition analyze_video (cl : Client) (fuel : nat) (video_path : string)
    : option (result Reply * list Event) :=
  if negb (configured cl) then
    Some (Ok (ErrorReply "Gemini API not configured. Set GOOGLE_API_KEY."), [])
  else
    match files_upload cl video_path with
    | Raise e =>
        Some (Ok (ErrorReply ("Failed to upload video: " ++ str_of_exn e)),
              [Uploaded])
    | Ok state =>
        match wait_for_processing cl fuel 0 state with
        | None => None
        | Some (Raise e, evs) =>
            Some (Ok (ErrorReply ("Failed to upload video: " ++ str_of_exn e)),
                  Uploaded :: evs)
        | Some (Ok state', evs) =>
            if String.eqb state' "FAILED" then
              Some (Ok (ErrorReply "Video processing failed"), Uploaded :: evs)
            else
              let '(x, evs') := generate_with_retry (generate_content cl) in
              Some (after_loop cl "Failed to parse Gemini response" true x,
                    (Uploaded :: evs ++ evs')%list)
        end
    end.

(** [GeminiService.quick_translate]: the same loop on a text prompt; the
    parsed value is returned as it is. *)
Definition quick_translate (cl : Client) : result Reply * list Event :=
  if negb (configured cl) then (Ok (ErrorReply "Gemini API not configured"), [])
  else
    let '(x, evs) := generate_with_retry (generate_content cl) in
    (after_loop cl "Parse error" false x, evs).

(** [GeminiService.generate_metadata]: the same loop; the parsed value
    gets a ["language"] key. *)
Definition generate_metadata (cl : Client) : result Reply * list Event :=
  if negb (configured cl) then (Ok (ErrorReply "Gemini API not configured"), [])
  else
    let '(x, evs) := generate_with_retry (generate_content cl) in
    (after_loop cl "Parse error" true x, evs).

(** [analyze_video] gets past the upload: the file was uploaded, the
    wait for its processing made the events [evs] and ended in a state
    other than ["FAILED"]. *)
Definition upload_ready (cl : Client) (fuel : nat) (video_path : string)
    (evs : list Event) : Prop :=
  exists state0 state,
    files_upload cl video_path = Ok state0 /\
    wait_for_processing cl fuel 0 state0 = Some (Ok state, evs) /\
    String.eqb state "FAILED" = false.

(** The calls of the model, the polls of the upload and the seconds
    slept in a run. *)
Definition calls_made (evs : list Event) : nat :=
  List.length (List.filter (fun ev => match ev with Called _ => true | _ => false end) evs).

Definition polls_made (evs : list Event) : nat :=
  List.length (List.filter (fun ev => match ev with Polled _ => true | _ => false end) evs).

Definition time_slept (evs : list Event) : Z :=
  foldr Z.add 0
    (omap (fun ev => match ev with Slept delay => Some delay | _ => None end) evs).

(** *** The draft for review: [generate_translation_draft] *)

(** A JSON value of the analysis. *)
Inductive json : Type :=
| JNull
| JBool (b : bool)
| JNum (q : Q)
| JStr (s : string)
| JList (items : list string).       (* the items, as JSON text *)

(** The dict [analyze_video] returns, as the draft reads it: an
    ["error"] entry makes it an error dict; otherwise the keys below may
    each be absent.  A segment is a JSON object. *)
Record AnalysisDict : Type := {
  ad_segments : option (list (gmap string json));
  ad_cultural_analysis : option json;
  ad_video_title : option json;
  ad_detected_language : option json
}.

Inductive AnalysisReply : Type :=
| AnalysisError (error : string)
| AnalysisResult (analysis : AnalysisDict).

(** One entry of the draft's ["segments"]. *)
Record DraftSegment : Type := {
  ds_index : nat;
  ds_start : json;
  ds_end : json;
  ds_original_text : json;
  ds_translated_text : json;
  ds_cultural_notes : json;
  ds_is_approved : bool
}.

(** The dict [generate_translation_draft] returns on success. *)
Record DraftDict : Type := {
  dd_segments : list DraftSegment;
  dd_cultural_analysis : json;
  dd_video_title : json;
  dd_detected_language : json;
  dd_target_language : string;
  dd_total_segments : nat;
  dd_ready_for_review : bool;
  dd_full_analysis : AnalysisDict
}.

Inductive DraftReply : Type :=
| DraftError (error : string)
| DraftResult (draft : DraftDict).

(** The [for i, seg in enumerate(segments)] loop; [i] is the index of the
    head of [segments]. *)
Fixpoint draft_loop (i : nat) (segments : list (gmap string json))
    (draft_segments : list DraftSegment) : list DraftSegment :=
  match segments with
  | [] => draft_segments
  | seg :: rest =>
      draft_loop (S i) rest
        (draft_segments ++
         [{| ds_index := i;
             ds_start := get seg "start_time" (get seg "start" (JNum 0));
             ds_end := get seg "end_time" (get seg "end" (JNum 0));
             ds_original_text := get seg "original_text" (get seg "text" (JStr ""));
             ds_translated_text :=
               get seg "translated_text" (get seg "translation" (JStr ""));
             ds_cultural_notes := get seg "cultural_notes" (JStr "");
             ds_is_approved := false |}])
  end.

(** [GeminiService.generate_translation_draft], after its call of
    [analyze_video], whose outcome is [analysis]. *)
Definition generate_translation_draft (analysis : AnalysisReply)
    (target_language : string) : DraftReply :=
  match analysis with
  | AnalysisError error => DraftError error
  | AnalysisResult a =>
      let segments := default [] (ad_segments a) in
      let draft_segments := draft_loop 0 segments [] in
      DraftResult
        {| dd_segments := draft_segments;
           dd_cultural_analysis := default (JList []) (ad_cultural_analysis a);
           dd_video_title := default (JStr "Untitled Video") (ad_video_title a);
           dd_detected_language := default (JStr "english") (ad_detected_language a);
           dd_target_language := target_language;
           dd_total_segments := List.length draft_segments;
           dd_ready_for_review := (0 <? List.length draft_segments)%nat;
           dd_full_analysis := a |}
  end.

End Gemini.

(** ** services/db_service.py *)

Module DB.
Import Py Models.

(** An attribute value of a table item. *)
Inductive attr : Type :=
| AStr (s : string)
| ANum (z : Z)
| AFloatStr (q : Q)                  (* [str(x)] of a float *)
| AMap (m : gmap string string)
| ASegments (l : list Segment).      (* [json.dumps] of a segment list *)

(** The table: its items, in the order a query returns them. *)
Record Table : Type := {
  rows : list (gmap string attr)
}.

(** The connection to DynamoDB, as seen from the service. *)
Record Conn : Type := {
  (** [settings.AWS_ACCESS_KEY_ID and settings.AWS_SECRET_ACCESS_KEY] *)
  is_configured : bool;
  (** [datetime.utcnow().isoformat() + "Z"] *)
  now : string;
  (** the [ClientError] a query raises, if it does *)
  query_error : option string;
  (** the [ClientError] a write raises, if it does *)
  write_error : option string
}.

(** The dict a method returns. *)
Inductive Reply : Type :=
| ErrorReply (error : string)
| SuccessReply
| ItemReply (it : gmap string attr).

Definition attr_is_str (a : option attr) (s : string) : bool :=
  match a with
  | Some (AStr t) => String.eqb t s
  | _ => false
  end.

Definition attr_begins_with (a : option attr) (p : string) : bool :=
  match a with
  | Some (AStr t) => String.prefix p t
  | _ => false
  end.

(** Truth value of [item.get(k)]. *)
Definition attr_truthy (a : option attr) : bool :=
  match a with
  | None => false
  | Some (AStr s) => truthy s
  | Some (ANum z) => negb (z =? 0)
  | Some (AFloatStr _) => true
  | Some (AMap m) => negb (bool_decide (m = ∅))
  | Some (ASegments _) => true
  end.

(** [item[k1][k2]] *)
Definition subscript2 (it : gmap string attr) (k1 k2 : string) : result string :=
  a ← subscript it k1;
  match a with
  | AMap m => subscript m k2
  | AStr _ | AFloatStr _ | ASegments _ =>
      Raise (TypeError "string indices must be integers")
  | ANum _ => Raise (TypeError "object is not subscriptable")
  end.

Definition same_key (pk sk : string) (it : gmap string attr) : bool :=
  attr_is_str (it !! "PK") pk && attr_is_str (it !! "SK") sk.

Definition set_attrs (sets : list (string * attr)) (it : gmap string attr)
    : gmap string attr :=
  foldl (fun acc kv => <[kv.1 := kv.2]> acc) it sets.

(** [table.put_item(Item=item)]: replaces the item with the same key. *)
Definition put_item (pk sk : string) (it : gmap string attr) (t : Table) : Table :=
  {| rows := List.filter (fun r => negb (same_key pk sk r)) (rows t) ++ [it] |}.

(** [table.update_item(Key=..., UpdateExpression="SET ...")]: sets the
    attributes on the item with that key, creating it when absent. *)
Definition update_item (pk sk : string) (sets : list (string * attr))
    (t : Table) : Table :=
  if existsb (same_key pk sk) (rows t) then
    {| rows := List.map (fun r => if same_key pk sk r then set_attrs sets r else r)
                        (rows t) |}
  else
    {| rows := rows t ++
               [set_attrs sets (<["PK" := AStr pk]> (<["SK" := AStr sk]> ∅))] |}.

(** [DBService.get_video_by_job_id]: the first item of the user's
    partition whose [job_id] matches, or [None]. *)
Definition get_video_by_job_id (cn : Conn) (t : Table) (user_id job_id : string)
    : option (gmap string attr) :=
  if negb (is_configured cn) then None
  else
    match query_error cn with
    | Some _ => None
    | None =>
        head (List.filter
                (fun r => attr_is_str (r !! "PK") ("USER#" ++ user_id)
                          && attr_begins_with (r !! "SK") "VIDEO#"
                          && attr_is_str (r !! "job_id") job_id)
                (rows t))
    end.

(** The optional attributes of [save_video], in the order the body tests
    them. *)
Record SaveOptions : Type := {
  so_output_url : option string;
  so_whatsapp_url : option string;
  so_file_size_mb : option Q;
  so_cultural_report : option string;
  so_segments_count : option Z;
  so_draft_segments : option (list Segment);
  so_output_s3_key : option string;
  so_subtitle_s3_key : option string;
  so_words_localized : option Z
}.

Definition no_options : SaveOptions :=
  {| so_output_url := None; so_whatsapp_url := None; so_file_size_mb := None;
     so_cultural_report := None; so_segments_count := None;
     so_draft_segments := None; so_output_s3_key := None;
     so_subtitle_s3_key := None; so_words_localized := None |}.

Definition opt_str (k : string) (o : option string) : list (string * attr) :=
  match o with
  | Some s => if truthy s then [(k, AStr s)] else []
  | None => []
  end.

(** [DBService.save_video] *)
Definition save_video (cn : Conn) (user_id job_id target_language input_file
    status : string) (o : SaveOptions) (t : Table) : Reply * Table :=
  if negb (is_configured cn) then (ErrorReply "DynamoDB not configured", t)
  else
    let timestamp := now cn in
    let pk := "USER#" ++ user_id in
    let sk := "VIDEO#" ++ timestamp in
    let item : gmap string attr :=
      set_attrs
        ([("PK", AStr pk); ("SK", AStr sk); ("job_id", AStr job_id);
          ("user_id", AStr user_id); ("target_language", AStr target_language);
          ("input_file", AStr input_file); ("status", AStr status);
          ("created_at", AStr timestamp)]
         ++ opt_str "output_url" (so_output_url o)
         ++ opt_str "output_s3_key" (so_output_s3_key o)
         ++ opt_str "subtitle_s3_key" (so_subtitle_s3_key o)
         ++ match so_words_localized o with
            | Some n => [("words_localized", ANum n)] | None => [] end
         ++ opt_str "whatsapp_url" (so_whatsapp_url o)
         ++ match so_file_size_mb o with
            | Some q => [("file_size_mb", AFloatStr q)] | None => [] end
         ++ opt_str "cultural_report" (so_cultural_report o)
         ++ match so_segments_count o with
            | Some n => [("segments_count", ANum n)] | None => [] end
         ++ match so_draft_segments o with
            | Some (s :: l) => [("draft_segments", ASegments (s :: l))]
            | _ => [] end)
        ∅ in
    match write_error cn with
    | Some m => (ErrorReply m, t)
    | None => (SuccessReply, put_item pk sk item t)
    end.

(** The common head of [update_job_segments] and [update_job_status]:
    find the item, then read its key as [video["video"]["PK"]] and
    [video["video"]["SK"]].  [inl] is an early [return]. *)
Definition locate (cn : Conn) (t : Table) (user_id job_id : string)
    : result (Reply + string * string) :=
  match get_video_by_job_id cn t user_id job_id with
  | None =>
      (* ["error" in video] with [video = None] *)
      Raise (TypeError "argument of type 'NoneType' is not iterable")
  | Some video =>
      if bool_decide (is_Some (video !! "error")) then Ok (inl (ItemReply video))
      else if negb (attr_truthy (video !! "video")) then
        Ok (inl (ErrorReply "Video not found"))
      else
        pk ← subscript2 video "video" "PK";
        sk ← subscript2 video "video" "SK";
        mret (inr (pk, sk))
  end.

(** [DBService.update_job_segments] *)
Definition update_job_segments (cn : Conn) (user_id job_id : string)
    (segments : list Segment) (status : option string) (t : Table)
    : result Reply * Table :=
  if negb (is_configured cn) then (Ok (ErrorReply "DynamoDB not configured"), t)
  else
    match locate cn t user_id job_id with
    | Raise e => (Raise e, t)
    | Ok (inl r) => (Ok r, t)
    | Ok (inr (pk, sk)) =>
        let sets :=
          ([("draft_segments", ASegments segments); ("updated_at", AStr (now cn))]
           ++ opt_str "status" status)%list in
        match write_error cn with
        | Some m => (Ok (ErrorReply m), t)
        | None => (Ok SuccessReply, update_item pk sk sets t)
        end
    end.

(** [DBService.update_job_status] *)
Definition update_job_status (cn : Conn) (user_id job_id status : string)
    (output_url output_s3_key subtitle_s3_key : option string) (t : Table)
    : result Reply * Table :=
  if negb (is_configured cn) then (Ok (ErrorReply "DynamoDB not configured"), t)
  else
    match locate cn t user_id job_id with
    | Raise e => (Raise e, t)
    | Ok (inl r) => (Ok r, t)
    | Ok (inr (pk, sk)) =>
        let sets :=
          ([("status", AStr status); ("updated_at", AStr (now cn))]
           ++ opt_str "output_url" output_url
           ++ opt_str "output_s3_key" output_s3_key
           ++ opt_str "subtitle_s3_key" subtitle_s3_key)%list in
        match write_error cn with
        | Some m => (Ok (ErrorReply m), t)
        | None => (Ok SuccessReply, update_item pk sk sets t)
        end
    end.

(** [DBService.delete_video] *)
Definition delete_video (cn : Conn) (user_id job_id : string) (t : Table)
    : Reply * Table :=
  if negb (is_configured cn) then (ErrorReply "DynamoDB not configured", t)
  else
    match get_video_by_job_id cn t user_id job_id with
    | None => (ErrorReply "Video not found or not owned by user", t)
    | Some video =>
        match write_error cn with
        | Some m => (ErrorReply m, t)
        | None =>
            let pk :=
              match video !! "PK" with
              | Some (AStr s) => if truthy s then s else "USER#" ++ user_id
              | _ => "USER#" ++ user_id
              end in
            match video !! "SK" with
            | Some (AStr sk) =>
                (SuccessReply,
                 {| rows := List.filter (fun r => negb (same_key pk sk r)) (rows t) |})
            | _ => (SuccessReply, t)
            end
        end
    end.

End DB.

(** ** services/s3_service.py *)

Module S3.
Import Py.

(** The bucket and the file system, as seen from the service. *)
Record Bucket : Type := {
  (** the three settings are present *)
  is_configured : bool;
  (** [os.makedirs(os.path.dirname(local_path), exist_ok=True)] *)
  makedirs : string -> result unit;
  (** [client.download_file(bucket, s3_key, local_path)] *)
  client_download_file : string -> string -> result unit;
  (** [client.upload_file(local_path, bucket, s3_key)] *)
  client_upload_file : string -> string -> result unit;
  (** [client.generate_presigned_url('get_object', ...)] *)
  client_generate_presigned_url : string -> result string
}.

(** The dict a method returns. *)
Inductive Reply : Type :=
| ErrorReply (error : string)
| SuccessReply
| UrlReply (download_url : string).

Definition has_error (r : Reply) : bool :=
  match r with ErrorReply _ => true | _ => false end.

Definition get_error (r : Reply) : string :=
  match r with ErrorReply m => m | _ => "" end.

(** [r.get("success")] *)
Definition get_success (r : Reply) : bool :=
  match r with SuccessReply => true | _ => false end.

(** [r.get("download_url")] *)
Definition get_download_url (r : Reply) : option string :=
  match r with UrlReply u => Some u | _ => None end.

(** Only [ClientError] is caught; any other exception leaves the
    method. *)
Definition catch_client_error (body : result Reply) : result Reply :=
  match body with
  | Raise (ClientError m) => Ok (ErrorReply m)
  | r => r
  end.

(** [S3Service.download_file] *)
Definition download_file (b : Bucket) (s3_key local_path : string) : result Reply :=
  if negb (is_configured b) then Ok (ErrorReply "S3 not configured")
  else catch_client_error (
    _ ← makedirs b local_path;
    _ ← client_download_file b s3_key local_path;
    mret SuccessReply).

(** [S3Service.upload_file] *)
Definition upload_file (b : Bucket) (local_path s3_key : string) : result Reply :=
  if negb (is_configured b) then Ok (ErrorReply "S3 not configured")
  else catch_client_error (
    _ ← client_upload_file b local_path s3_key;
    mret SuccessReply).

(** [S3Service.generate_presigned_download_url] *)
Definition generate_presigned_download_url (b : Bucket) (file_key : string)
    : result Reply :=
  if negb (is_configured b) then Ok (ErrorReply "S3 not configured")
  else catch_client_error (
    presigned_url ← client_generate_presigned_url b file_key;
    mret (UrlReply presigned_url)).

(** *** Fresh URLs for stored objects: [create_presigned_url] *)

(** The bucket together with what [create_presigned_url] reads besides. *)
Record Web : Type := {
  bucket : Bucket;
  (** [os.environ.get('CLOUDFRONT_DOMAIN')] *)
  CLOUDFRONT_DOMAIN : option string;
  (** [urlparse(url).netloc] *)
  netloc : string -> string
}.

(** The S3 key of [object_name]: a full URL stored by mistake is cut
    down to its path, [object_name.split(".com/")[-1].split("?")[0]]. *)
Definition bare_key (object_name : string) : string :=
  if contains "amazonaws.com" object_name then
    default "" (head (split_on "?" (default "" (last (split_on ".com/" object_name)))))
  else object_name.

(** [S3Service.create_presigned_url]; every exception gives [None]. *)
Definition create_presigned_url (w : Web) (object_name : string) : option string :=
  if negb (truthy object_name) || negb (is_configured (bucket w)) then None
  else
    let body : result string :=
      let object_name := bare_key object_name in
      url ← client_generate_presigned_url (bucket w) object_name;
      match CLOUDFRONT_DOMAIN w with
      | Some cloudfront_domain =>
          if truthy cloudfront_domain && truthy url then
            let clean_cf_domain :=
              strip_char "/"
                (replace "http://" "" (replace "https://" "" cloudfront_domain)) in
            mret (replace (netloc w url) clean_cf_domain url)
          else mret url
      | None => mret url
      end in
    match body with
    | Ok url => Some url
    | Raise _ => None
    end.

End S3.

(** ** config.py *)

Module Config.
Import Py.

(** [Settings]: the environment variables the services read. *)
Record Settings : Type := {
  GOOGLE_API_KEY : string;
  AWS_ACCESS_KEY_ID : string;
  AWS_SECRET_ACCESS_KEY : string;
  S3_BUCKET_NAME : string;
  CLERK_ISSUER_URL : string
}.

Definition SUPPORTED_LANGUAGES : list string :=
  ["hindi"; "tamil"; "bengali"; "telugu"; "marathi"].

(** The dict [Settings.validate] returns. *)
Record Validation : Type := {
  valid : bool;
  issues : list string
}.

(** [Settings.validate] *)
Definition validate (st : Settings) : Validation :=
  let issues :=
    ((if negb (truthy (GOOGLE_API_KEY st)) then ["GOOGLE_API_KEY is not set"] else [])
     ++ (if negb (truthy (AWS_ACCESS_KEY_ID st)) then ["AWS_ACCESS_KEY_ID is not set"] else [])
     ++ (if negb (truthy (S3_BUCKET_NAME st)) then ["S3_BUCKET_NAME is not set"] else []))%list in
  {| valid := (List.length issues =? 0)%nat; issues := issues |}.

(** [S3Service.is_configured] *)
Definition s3_is_configured (st : Settings) : bool :=
  truthy (AWS_ACCESS_KEY_ID st) && truthy (AWS_SECRET_ACCESS_KEY st)
  && truthy (S3_BUCKET_NAME st).

(** [DBService.is_configured] *)
Definition db_is_configured (st : Settings) : bool :=
  truthy (AWS_ACCESS_KEY_ID st) && truthy (AWS_SECRET_ACCESS_KEY st).

(** [GeminiService.is_configured]: [_configure] creates the client when
    the key is set. *)
Definition gemini_is_configured (st : Settings) : bool :=
  truthy (GOOGLE_API_KEY st).

End Config.

(** ** dependencies.py *)

Module Auth.
Import Py.

(** What [get_signing_key_from_jwt] followed by [jwt.decode] does with a
    token: the payload, or the exception, by the [except] clause that
    catches it. *)
Inductive Decoding : Type :=
| Decoded (payload : gmap string string)
| ExpiredSignatureError
| InvalidTokenError (msg : string)
| OtherError (e : exn).

(** Clerk, as seen from the dependencies. *)
Record Clerk : Type := {
  settings : Config.Settings;
  decode : string -> Decoding
}.

(** [verify_token]; [get_jwks_client()] is [None] exactly when
    [CLERK_ISSUER_URL] is not set. *)
Definition verify_token (ck : Clerk) (token : string)
    : result (gmap string string) :=
  if negb (truthy (Config.CLERK_ISSUER_URL (settings ck))) then
    Raise (HTTPException 503 "Authentication not configured. Set CLERK_ISSUER_URL.")
  else
    match decode ck token with
    | Decoded payload => Ok payload
    | ExpiredSignatureError => Raise (HTTPException 401 "Token has expired")
    | InvalidTokenError msg => Raise (HTTPException 401 ("Invalid token: " ++ msg))
    | OtherError e =>
        Raise (HTTPException 401 ("Token verification failed: " ++ str_of_exn e))
    end.

(** [get_current_user]; [credentials] is the bearer token, if any. *)
Definition get_current_user (ck : Clerk) (credentials : option string)
    : result (gmap string string) :=
  match credentials with
  | None => Raise (HTTPException 401 "Not authenticated")
  | Some token =>
      payload ← verify_token ck token;
      let user_id := payload !! "sub" in
      if negb (truthy_opt user_id) then
        Raise (HTTPException 401 "Invalid token: missing user ID")
      else mret payload
  end.

(** [get_optional_user]: only [HTTPException] is caught. *)
Definition get_optional_user (ck : Clerk) (credentials : option string)
    : result (option (gmap string string)) :=
  match credentials with
  | None => Ok None
  | Some token =>
      match verify_token ck token with
      | Ok payload => Ok (Some payload)
      | Raise (HTTPException _ _) => Ok None
      | Raise e => Raise e
      end
  end.

End Auth.

(** ** routes/video.py *)

Module Video.
Import Py Models.

(** *** State *)

(** An entry of [job_results]. *)
Record JobResults : Type := {
  jr_segments : list Segment;
  jr_output_url : option string;
  jr_whatsapp_url : option string;
  jr_file_size_mb : option Q
}.

(** The arguments of a queued [process_finalize_dubbing]. *)
Record Task : Type := {
  t_job_id : string;
  t_file_key : string;
  t_target_language : string;
  t_approved_segments : list Segment;
  t_user_id : option string
}.

(** The three files a task uploads, one per call site. *)
Inductive Artifact : Type := Primary | Compact | Subtitle.

(** What a task does that is visible from outside, in order. *)
Inductive Event : Type :=
| SetStatus (s : JobStatus)
| SetProgress (p : Z)
| SetMessage (m : string)
| SetError (e : string)
| SetOutputFile (k : string)
| Downloaded (s3_key local_path : string)
| Stitched (c : FFmpeg.StitchCall) (r : result FFmpeg.ProcessingResult)
| Whatsapp (c : FFmpeg.WhatsappCall) (r : result FFmpeg.ProcessingResult)
| Uploaded (a : Artifact) (local_path s3_key : string) (r : result S3.Reply)
| Presigned (s3_key : string) (r : result S3.Reply)
| DbStatus (status : string) (r : result DB.Reply)
| Removed (dir : string).

(** The process-wide state: the two module-level dicts, the history
    table and the queue of background tasks. *)
Record State : Type := {
  jobs : gmap string LocalizationJob;
  job_results : gmap string JobResults;
  table : DB.Table;
  tasks : list Task;
  log : list Event
}.

(** The analysis of [analyze_video], reduced to the keys that are read. *)
Record Analysis : Type := {
  an_segments : list TtsSegment;
  an_cultural_report : option string;
  an_idioms_adapted : Z;
  an_recommended_voice_gender : option string;
  an_first_speech_offset_seconds : option Q
}.

(** The draft of [generate_translation_draft]. *)
Record Draft : Type := {
  draft_segments : list Segment;
  draft_cultural_analysis : option string
}.

(** The collaborators of the routes. *)
Record Env : Type := {
  ffmpeg_service : FFmpeg.Service;
  s3_service : S3.Bucket;
  tts_engine : TTS.Engine;
  db_service : DB.Conn;
  (** [await gemini_service.analyze_video(...)]: an error dict, an
      analysis, or an exception *)
  analyze_video : string -> string -> result (string + Analysis);
  (** [await gemini_service.generate_translation_draft(...)]: an error
      dict, a draft, or an exception *)
  generate_translation_draft : string -> string -> result (string + Draft);
  (** [tempfile.mkdtemp(prefix=...)] *)
  mkdtemp : string -> result string;
  (** [open(path, "w").write(content)] *)
  write_file : string -> string -> result unit;
  (** [os.path.exists(path)] *)
  path_exists : string -> bool;
  (** [shutil.rmtree(path)] *)
  rmtree : string -> result unit
}.

(** *** The state of one running task

    The task holds a reference to the job object it fetched from [jobs]
    and mutates it in place; [temp_dir] is the local variable the
    [finally] block reads. *)
Record Run : Type := mkRun {
  job : LocalizationJob;
  results : gmap string JobResults;
  history : DB.Table;
  temp_dir : option string;
  trace : list Event
}.

Definition M (A : Type) : Type := Run -> result A * Run.

#[global] Instance M_ret : MRet M := fun A a r => (Ok a, r).
#[global] Instance M_bind : MBind M := fun A B k m r =>
  match m r with
  | (Ok a, r') => k a r'
  | (Raise e, r') => (Raise e, r')
  end.

(** An external call: its outcome comes from the environment. *)
Definition call {A} (x : result A) : M A := fun r => (x, r).

Definition raise {A} (e : exn) : M A := fun r => (Raise e, r).

Definition emit (ev : Event) : M unit := fun r =>
  match r with
  | mkRun j res h td tr => (Ok (), mkRun j res h td (tr ++ [ev]))
  end.

Definition update_job (f : LocalizationJob -> LocalizationJob) : M unit := fun r =>
  match r with
  | mkRun j res h td tr => (Ok (), mkRun (f j) res h td tr)
  end.

Definition with_status (s : JobStatus) (j : LocalizationJob) : LocalizationJob :=
  {| job_id := job_id j; status := s; progress := progress j;
     message := message j; input_file := input_file j;
     target_language := target_language j; output_file := output_file j;
     error := error j |}.

Definition with_progress (p : Z) (j : LocalizationJob) : LocalizationJob :=
  {| job_id := job_id j; status := status j; progress := p;
     message := message j; input_file := input_file j;
     target_language := target_language j; output_file := output_file j;
     error := error j |}.

Definition with_message (m : string) (j : LocalizationJob) : LocalizationJob :=
  {| job_id := job_id j; status := status j; progress := progress j;
     message := m; input_file := input_file j;
     target_language := target_language j; output_file := output_file j;
     error := error j |}.

Definition with_error (e : string) (j : LocalizationJob) : LocalizationJob :=
  {| job_id := job_id j; status := status j; progress := progress j;
     message := message j; input_file := input_file j;
     target_language := target_language j; output_file := output_file j;
     error := Some e |}.

Definition with_output_file (k : string) (j : LocalizationJob) : LocalizationJob :=
  {| job_id := job_id j; status := status j; progress := progress j;
     message := message j; input_file := input_file j;
     target_language := target_language j; output_file := Some k;
     error := error j |}.

(** [job.status = s], [job.progress = p], ... *)
Definition set_status (s : JobStatus) : M unit :=
  _ ← update_job (with_status s); emit (SetStatus s).
Definition set_progress (p : Z) : M unit :=
  _ ← update_job (with_progress p); emit (SetProgress p).
Definition set_message (m : string) : M unit :=
  _ ← update_job (with_message m); emit (SetMessage m).
Definition set_error (e : string) : M unit :=
  _ ← update_job (with_error e); emit (SetError e).
Definition set_output_file (k : string) : M unit :=
  _ ← update_job (with_output_file k); emit (SetOutputFile k).

Definition set_temp_dir (d : string) : M unit := fun r =>
  match r with
  | mkRun j res h td tr => (Ok (), mkRun j res h (Some d) tr)
  end.

(** [try: body except Exception as e: handler(e)] *)
Definition try_except {A} (body : M A) (handler : exn -> M A) : M A := fun r =>
  match body r with
  | (Ok a, r') => (Ok a, r')
  | (Raise e, r') => handler e r'
  end.

(** [try: body finally: cleanup] *)
Definition try_finally {A} (body : M A) (cleanup : M unit) : M A := fun r =>
  match body r with
  | (x, r') =>
      match cleanup r' with
      | (Ok _, r'') => (x, r'')
      | (Raise e, r'') => (Raise e, r'')
      end
  end.

(** The [finally] block of the three tasks: remove the temp directory,
    swallowing any failure. *)
Definition cleanup (env : Env) : M unit := fun r =>
  match temp_dir r with
  | Some d =>
      if truthy d && path_exists env d then
        match rmtree env d with
        | Ok _ => emit (Removed d) r
        | Raise _ => (Ok (), r)
        end
      else (Ok (), r)
  | None => (Ok (), r)
  end.

(** [db_service.update_job_status(...)] on the history table. *)
Definition db_update_job_status (env : Env) (user_id job_id status : string)
    (output_url output_s3_key subtitle_s3_key : option string) : M unit := fun r =>
  match r with
  | mkRun j res h td tr =>
      match DB.update_job_status (db_service env) user_id job_id status
              output_url output_s3_key subtitle_s3_key h with
      | (x, t') =>
          let r' := mkRun j res t' td (tr ++ [DbStatus status x]) in
          match x with
          | Ok _ => (Ok (), r')
          | Raise e => (Raise e, r')
          end
      end
  end.

(** *** Subtitles *)

(** [format_vtt_time] *)
Definition format_vtt_time (seconds : Q) : string :=
  let h := int_of_float (floordiv seconds 3600) in
  let m := int_of_float (floordiv (fmod seconds 3600) 60) in
  let s := fmod seconds 60 in
  format_d 2 h ++ ":" ++ format_d 2 m ++ ":" ++ format_f 6 3 s.

(** The loop that fills [vtt_lines]; [idx] is the index of the head of
    the segments still to visit. *)
Fixpoint vtt_loop (idx : nat) (segments : list Segment) (vtt_lines : list string)
    : list string :=
  match segments with
  | [] => vtt_lines
  | seg :: rest =>
      let start_sec := default 0%Q (start seg) in
      let end_sec := default 0%Q (end_ seg) in
      let text := strip (default "" (translated_text seg)) in
      if negb (truthy text) then vtt_loop (S idx) rest vtt_lines
      else
        let block :=
          [str_of_nat (idx + 1);
           format_vtt_time start_sec ++ " --> " ++ format_vtt_time end_sec;
           text;
           ""] in
        vtt_loop (S idx) rest (vtt_lines ++ block)%list
  end.

Definition vtt_lines (approved_segments : list Segment) : list string :=
  vtt_loop 0 approved_segments ["WEBVTT"; ""].

Definition vtt_content (approved_segments : list Segment) : string :=
  join_lines (vtt_lines approved_segments).

(** A caption block: the four lines one iteration appends. *)
Record Cue : Type := {
  cue_number : nat;
  cue_start : Q;
  cue_end : Q;
  cue_text : string
}.

Definition cue_lines (c : Cue) : list string :=
  [str_of_nat (cue_number c);
   format_vtt_time (cue_start c) ++ " --> " ++ format_vtt_time (cue_end c);
   cue_text c;
   ""].

(** The blocks of the document, read off the same loop. *)
Fixpoint vtt_cues (idx : nat) (segments : list Segment) : list Cue :=
  match segments with
  | [] => []
  | seg :: rest =>
      let text := strip (default "" (translated_text seg)) in
      if negb (truthy text) then vtt_cues (S idx) rest
      else
        {| cue_number := idx + 1;
           cue_start := default 0%Q (start seg);
           cue_end := default 0%Q (end_ seg);
           cue_text := text |} :: vtt_cues (S idx) rest
  end.

(** The text of a segment strips to nothing: no block is emitted. *)
Definition blank (seg : Segment) : bool :=
  negb (truthy (strip (default "" (translated_text seg)))).

(** [words_localized], as the one-pass pipeline computes it. *)
Definition words_localized (segments : list Segment) : Z :=
  foldr Z.add 0
    (List.map (fun seg =>
                 Z.of_nat (List.length (split (default "" (translated_text seg)))))
              segments).

(** [x > y] on floats *)
Definition Qgtb (x y : Q) : bool := negb (Qle_bool x y).

(** *** Reading a trace *)

Definition progress_values (evs : list Event) : list Z :=
  omap (fun ev => match ev with SetProgress p => Some p | _ => None end) evs.

Definition statuses (evs : list Event) : list JobStatus :=
  omap (fun ev => match ev with SetStatus s => Some s | _ => None end) evs.

Definition uploads (evs : list Event) : list (Artifact * result S3.Reply) :=
  omap (fun ev => match ev with Uploaded a _ _ r => Some (a, r) | _ => None end) evs.

Definition stitch_calls (evs : list Event)
    : list (FFmpeg.StitchCall * result FFmpeg.ProcessingResult) :=
  omap (fun ev => match ev with Stitched c r => Some (c, r) | _ => None end) evs.

Definition whatsapp_calls (evs : list Event)
    : list (FFmpeg.WhatsappCall * result FFmpeg.ProcessingResult) :=
  omap (fun ev => match ev with Whatsapp c r => Some (c, r) | _ => None end) evs.

(** The progress discipline of one phase: the values assigned to
    [progress] never decrease; nothing is assigned to it once the status
    is [FAILED]; and [COMPLETE] is set together with progress 100, after
    which nothing is assigned to it either. *)
Definition progress_discipline (evs : list Event) : Prop :=
  StronglySorted Z.le (progress_values evs) /\
  (forall pre post, evs = (pre ++ SetStatus FAILED :: post)%list ->
     progress_values post = []) /\
  (forall pre post, evs = (pre ++ SetStatus COMPLETE :: post)%list ->
     exists post', post = SetProgress 100 :: post' /\ progress_values post' = []).

(** The same discipline as a check that runs on a trace. *)
Fixpoint increasing_from (lo : Z) (ps : list Z) : bool :=
  match ps with
  | [] => true
  | p :: ps' => (lo <=? p) && increasing_from p ps'
  end.

Definition no_progress (evs : list Event) : bool :=
  match progress_values evs with
  | [] => true
  | _ :: _ => false
  end.

Fixpoint terminal_quiet (evs : list Event) : bool :=
  match evs with
  | [] => true
  | SetStatus FAILED :: post => no_progress post && terminal_quiet post
  | SetStatus COMPLETE :: post =>
      match post with
      | SetProgress p :: post' => (p =? 100) && no_progress post'
      | _ => false
      end && terminal_quiet post
  | _ :: post => terminal_quiet post
  end.

(** Readings of a trace used to state the compact-variant policy. *)
Definition compact_attempted (evs : list Event) : bool :=
  match whatsapp_calls evs with
  | [] => false
  | _ :: _ => true
  end.

(** A stitch call returned a success whose size exceeds 15 MB. *)
Definition primary_over_15 (evs : list Event) : bool :=
  existsb (fun cr => match cr.2 with
                     | Ok sr => FFmpeg.success sr && Qgtb (FFmpeg.file_size_mb sr) 15
                     | Raise _ => false
                     end) (stitch_calls evs).

(** A compact encode returned a failure. *)
Definition compact_failed (evs : list Event) : bool :=
  existsb (fun cr => match cr.2 with
                     | Ok wr => negb (FFmpeg.success wr)
                     | Raise _ => false
                     end) (whatsapp_calls evs).

(** A compact encode returned a success. *)
Definition compact_succeeded (evs : list Event) : bool :=
  existsb (fun cr => match cr.2 with
                     | Ok wr => FFmpeg.success wr
                     | Raise _ => false
                     end) (whatsapp_calls evs).

Definition is_artifact (a b : Artifact) : bool :=
  match a, b with
  | Primary, Primary | Compact, Compact | Subtitle, Subtitle => true
  | _, _ => false
  end.

(** An upload of artifact [a] was attempted. *)
Definition uploaded (a : Artifact) (evs : list Event) : bool :=
  existsb (fun ar => is_artifact a ar.1) (uploads evs).

(** The upload of the primary output returned without error. *)
Definition primary_stored (evs : list Event) : bool :=
  existsb (fun ar => match ar with
                     | (Primary, Ok reply) => negb (S3.has_error reply)
                     | _ => false
                     end) (uploads evs).

(** A call for a download URL, or a history update, raised. *)
Definition presign_raised (evs : list Event) : bool :=
  existsb (fun ev => match ev with Presigned _ (Raise _) => true | _ => false end) evs.

Definition history_raised (evs : list Event) : bool :=
  existsb (fun ev => match ev with DbStatus _ (Raise _) => true | _ => false end) evs.

Definition is_status (s t : JobStatus) : bool := bool_decide (s = t).

(** [COMPLETE] was assigned to the status. *)
Definition completed (evs : list Event) : bool :=
  existsb (is_status COMPLETE) (statuses evs).

(** The compact-variant policy as a check that runs on a trace and the
    final job. *)
Definition compact_policy_ok (evs : list Event) (final : LocalizationJob) : bool :=
  eqb (compact_attempted evs) (primary_over_15 evs)
  && implb (uploaded Compact evs) (compact_succeeded evs)
  && implb (compact_failed evs)
       (uploaded Primary evs
        && negb (uploaded Compact evs)
        && implb (primary_stored evs && negb (presign_raised evs))
             (completed evs
              && implb (negb (history_raised evs))
                   (is_status COMPLETE (status final)))).

(** A stitch call returned a success. *)
Definition stitch_succeeded (evs : list Event) : bool :=
  existsb (fun cr => match cr.2 with
                     | Ok sr => FFmpeg.success sr
                     | Raise _ => false
                     end) (stitch_calls evs).

(** A task ends [COMPLETE] or [FAILED], and it is [COMPLETE] at some
    point only after a stitch call returned a success. *)
Definition outcome_ok (evs : list Event) (final : LocalizationJob) : bool :=
  (is_status COMPLETE (status final) || is_status FAILED (status final))
  && implb (completed evs) (stitch_succeeded evs).

(** Discipline of a task that starts above progress [lo]. *)
Definition discipline_ok (lo : Z) (evs : list Event) : bool :=
  increasing_from lo (progress_values evs)
  && forallb (fun p => p <=? 100) (progress_values evs)
  && terminal_quiet evs.

(** *** Phase 2: [process_finalize_dubbing] *)

Definition when_user (user_id : option string) (k : string -> M unit) : M unit :=
  match user_id with
  | Some uid => if truthy uid then k uid else mret ()
  | None => mret ()
  end.

Definition update_results (job_id : string) (f : JobResults -> JobResults)
    : M unit := fun r =>
  match r with
  | mkRun j res h td tr => (Ok (), mkRun j (alter f job_id res) h td tr)
  end.

Definition store_results (job_id : string) (jr : JobResults) : M unit := fun r =>
  match r with
  | mkRun j res h td tr => (Ok (), mkRun j (<[job_id := jr]> res) h td tr)
  end.

(** The conversion of the approved segments to the dicts the synthesis
    service reads. *)
Definition tts_segment_of (seg : Segment) : TtsSegment :=
  {| tts_start_time := Some (Seconds (default 0%Q (start seg)));
     tts_end_time := Some (Seconds (default 0%Q (end_ seg)));
     tts_translated_text := Some (default "" (translated_text seg));
     tts_original_text := Some (default "" (original_text seg)) |}.

Definition audio_dict_of (seg : TTS.AudioSegment) : FFmpeg.AudioDict :=
  {| FFmpeg.d_file_path := Some (TTS.file_path seg);
     FFmpeg.d_start_time := TTS.start_time seg;
     FFmpeg.d_end_time := TTS.end_time seg |}.

(** [tts_delay]: the start time of the first approved segment. *)
Definition tts_delay_of (approved_segments : list Segment) : Q :=
  match approved_segments with
  | [] => 0%Q
  | first_seg :: _ => default 0%Q (start first_seg)
  end.

Definition output_key_of (job_id target_language : string) : string :=
  "outputs/" ++ job_id ++ "/localized_" ++ target_language ++ ".mp4".

Definition whatsapp_key_of (job_id target_language : string) : string :=
  "outputs/" ++ job_id ++ "/whatsapp_" ++ target_language ++ ".mp4".

Definition subtitle_key_of (job_id : string) : string :=
  "subtitles/" ++ job_id ++ ".vtt".

(** [s3_service.upload_file(...)], recorded in the trace. *)
Definition upload (env : Env) (a : Artifact) (local_path s3_key : string)
    : M S3.Reply :=
  let x := S3.upload_file (s3_service env) local_path s3_key in
  _ ← emit (Uploaded a local_path s3_key x);
  call x.

(** [s3_service.generate_presigned_download_url(...)], recorded in the
    trace. *)
Definition presign (env : Env) (s3_key : string) : M S3.Reply :=
  let x := S3.generate_presigned_download_url (s3_service env) s3_key in
  _ ← emit (Presigned s3_key x);
  call x.

(** Step 4.5: the subtitle block, with its own [try ... except]; the
    value is the final [subtitle_s3_key]. *)
Definition subtitles (env : Env) (dir job_id : string)
    (approved_segments : list Segment) : M (option string) :=
  try_except
    (let vtt_tmp_path := path_join dir (job_id ++ ".vtt") in
     _ ← call (write_file env vtt_tmp_path (vtt_content approved_segments));
     let subtitle_s3_key := subtitle_key_of job_id in
     try_except
       (_ ← upload env Subtitle vtt_tmp_path subtitle_s3_key;
        mret (Some subtitle_s3_key))
       (fun _ => mret (Some subtitle_s3_key)))
    (fun _ => mret None).

(** The body of the [try] block. *)
Definition finalize_body (env : Env) (job_id file_key target_language : string)
    (approved_segments : list Segment) (user_id : option string) : M unit :=
  dir ← call (mkdtemp env ("nativity_final_" ++ substring 0 8 job_id ++ "_"));
  _ ← set_temp_dir dir;
  let local_video_path := path_join dir "input_video.mp4" in
  let output_video_path := path_join dir "output_localized.mp4" in
  let whatsapp_video_path := path_join dir "output_whatsapp.mp4" in
  (* STEP 1: download from S3 *)
  _ ← set_status UPLOADING;
  _ ← set_progress 5;
  _ ← set_message "Downloading video from S3...";
  _ ← emit (Downloaded file_key local_video_path);
  download_result ← call (S3.download_file (s3_service env) file_key local_video_path);
  _ ← (if S3.has_error download_result
       then raise (Exception ("Download failed: " ++ S3.get_error download_result))
       else mret ());
  _ ← set_progress 15;
  _ ← set_message "Video downloaded, generating audio...";
  (* STEP 2: speech for the approved segments *)
  _ ← set_status GENERATING_AUDIO;
  _ ← set_progress 20;
  _ ← set_message "Generating localized voice audio from your edits...";
  let output_dir := path_join dir "audio_segments" in
  _ ← call (TTS.makedirs (tts_engine env) output_dir);
  let tts_segments := List.map tts_segment_of approved_segments in
  audio_segments ← call (TTS.generate_segments_from_analysis (tts_engine env)
                           output_dir tts_segments target_language "female");
  _ ← set_progress 50;
  _ ← set_message ("Generated " ++ str_of_nat (List.length audio_segments)
                   ++ " audio segments");
  (* STEP 3: stitch *)
  _ ← set_status STITCHING;
  _ ← set_progress 55;
  _ ← set_message "Stitching new audio with video...";
  let audio_segment_dicts := List.map audio_dict_of audio_segments in
  let tts_delay := tts_delay_of approved_segments in
  let c := {| FFmpeg.kw_original_video_path := local_video_path;
              FFmpeg.kw_audio_segments := audio_segment_dicts;
              FFmpeg.kw_output_path := output_video_path;
              FFmpeg.kw_optimize_for_mobile := true;
              FFmpeg.kw_tts_delay_seconds := tts_delay |} in
  let x := FFmpeg.call_stitch_video (ffmpeg_service env) c in
  _ ← emit (Stitched c x);
  stitch_result ← call x;
  _ ← (if negb (FFmpeg.success stitch_result)
       then raise (Exception ("Video stitching failed: "
                              ++ default "None" (FFmpeg.error stitch_result)))
       else mret ());
  _ ← set_progress 80;
  _ ← set_message ("Video stitched! Size: "
                   ++ format_f 0 1 (FFmpeg.file_size_mb stitch_result) ++ "MB");
  whatsapp_result ←
    (if Qgtb (FFmpeg.file_size_mb stitch_result) 15 then
       _ ← set_message "Creating WhatsApp-optimized version...";
       let wc := {| FFmpeg.kw_input_path := output_video_path;
                    FFmpeg.kw_whatsapp_output_path := whatsapp_video_path;
                    FFmpeg.kw_target_size_mb := 14.5%Q |} in
       let wx := FFmpeg.call_create_whatsapp_version (ffmpeg_service env) wc in
       _ ← emit (Whatsapp wc wx);
       wr ← call wx;
       mret (Some wr)
     else mret None);
  (* STEP 4: upload *)
  _ ← set_progress 90;
  _ ← set_message "Uploading localized video to S3...";
  let output_key := output_key_of job_id target_language in
  upload_result ← upload env Primary output_video_path output_key;
  _ ← (if S3.has_error upload_result
       then raise (Exception ("Upload failed: " ++ S3.get_error upload_result))
       else mret ());
  whatsapp_url ←
    match whatsapp_result with
    | Some wr =>
        if FFmpeg.success wr then
          let whatsapp_key := whatsapp_key_of job_id target_language in
          whatsapp_upload ← upload env Compact whatsapp_video_path whatsapp_key;
          if S3.get_success whatsapp_upload then
            whatsapp_download ← presign env whatsapp_key;
            mret (S3.get_download_url whatsapp_download)
          else mret None
        else mret None
    | None => mret None
    end;
  download_result ← presign env output_key;
  (* COMPLETE *)
  _ ← set_status COMPLETE;
  _ ← set_progress 100;
  _ ← set_output_file output_key;
  _ ← set_message "Localization complete! Your video is ready.";
  _ ← update_results job_id (fun jr =>
         {| jr_segments := jr_segments jr;
            jr_output_url := S3.get_download_url download_result;
            jr_whatsapp_url := whatsapp_url;
            jr_file_size_mb := Some (FFmpeg.file_size_mb stitch_result) |});
  (* STEP 4.5: subtitles *)
  subtitle_s3_key ← subtitles env dir job_id approved_segments;
  (* history *)
  when_user user_id (fun uid =>
    db_update_job_status env uid job_id "complete"
      (S3.get_download_url download_result) (Some output_key) subtitle_s3_key).

(** The [except Exception as e] block. *)
Definition finalize_handler (env : Env) (job_id : string) (user_id : option string)
    (e : exn) : M unit :=
  _ ← set_status FAILED;
  _ ← set_error (str_of_exn e);
  _ ← set_message ("Processing failed: " ++ str_of_exn e);
  when_user user_id (fun uid =>
    db_update_job_status env uid job_id "failed" None None None).

(** The task once it holds the job object. *)
Definition finalize_task (env : Env) (job_id file_key target_language : string)
    (approved_segments : list Segment) (user_id : option string) : M unit :=
  try_finally
    (try_except
       (finalize_body env job_id file_key target_language approved_segments user_id)
       (finalize_handler env job_id user_id))
    (cleanup env).

Definition start_run (w : State) (j : LocalizationJob) : Run :=
  {| job := j; results := job_results w; history := table w;
     temp_dir := None; trace := [] |}.

Definition finish_run (w : State) (id : string) (r : Run) : State :=
  {| jobs := <[id := job r]> (jobs w); job_results := results r;
     table := history r; tasks := tasks w;
     log := (log w ++ trace r)%list |}.

(** The events of the task run on job object [j] in state [w], and the
    job object it leaves. *)
Definition finalize_trace (env : Env) (job_id file_key target_language : string)
    (approved_segments : list Segment) (user_id : option string)
    (w : State) (j : LocalizationJob) : list Event :=
  trace (finalize_task env job_id file_key target_language approved_segments
           user_id (start_run w j)).2.

Definition finalize_job (env : Env) (job_id file_key target_language : string)
    (approved_segments : list Segment) (user_id : option string)
    (w : State) (j : LocalizationJob) : LocalizationJob :=
  job (finalize_task env job_id file_key target_language approved_segments
         user_id (start_run w j)).2.

(** No item of the table has a ["video"] attribute. *)
Definition no_video_attr (t : DB.Table) : Prop :=
  Forall (fun r => r !! "video" = None) (DB.rows t).

(** What holds of every run of the Phase 2 task from state [w]. *)
Definition run_summary (env : Env) (approved_segments : list Segment)
    (w : State) (r : Run) : Prop :=
  discipline_ok 1 (trace r) = true /\
  compact_policy_ok (trace r) (job r) = true /\
  outcome_ok (trace r) (job r) = true /\
  Forall (fun cr =>
            FFmpeg.kw_tts_delay_seconds cr.1 = tts_delay_of approved_segments /\
            cr.2 = FFmpeg.call_stitch_video (ffmpeg_service env) cr.1)
         (stitch_calls (trace r)) /\
  last (statuses (trace r)) = Some (status (job r)) /\
  (no_video_attr (table w) -> history r = table w).

(** [process_finalize_dubbing] *)
Definition process_finalize_dubbing (env : Env)
    (job_id file_key target_language : string)
    (approved_segments : list Segment) (user_id : option string)
    (w : State) : result unit * State :=
  match jobs w !! job_id with
  | None => (Ok (), w)
  | Some j =>
      match finalize_task env job_id file_key target_language
              approved_segments user_id (start_run w j) with
      | (x, r) => (x, finish_run w job_id r)
      end
  end.

(** *** Phase 1: [process_draft_creation] *)

Definition draft_body (env : Env) (job_id file_key target_language : string)
    (user_id : option string) : M unit :=
  dir ← call (mkdtemp env ("nativity_draft_" ++ substring 0 8 job_id ++ "_"));
  _ ← set_temp_dir dir;
  let local_video_path := path_join dir "input_video.mp4" in
  _ ← set_status UPLOADING;
  _ ← set_progress 10;
  _ ← set_message "Downloading video from S3...";
  _ ← emit (Downloaded file_key local_video_path);
  download_result ← call (S3.download_file (s3_service env) file_key local_video_path);
  _ ← (if S3.has_error download_result
       then raise (Exception ("Download failed: " ++ S3.get_error download_result))
       else mret ());
  _ ← set_progress 25;
  _ ← set_message "Video downloaded, starting AI analysis...";
  _ ← set_status ANALYZING;
  _ ← set_progress 30;
  _ ← set_message "Gemini is analyzing and translating your video...";
  draft_result ← call (generate_translation_draft env local_video_path target_language);
  draft ← match draft_result with
          | inl err => raise (Exception ("Analysis failed: " ++ err))
          | inr d => mret d
          end;
  let segments := draft_segments draft in
  _ ← set_progress 90;
  _ ← set_message ("Found " ++ str_of_nat (List.length segments)
                   ++ " segments. Ready for review!");
  _ ← store_results job_id
        {| jr_segments := segments; jr_output_url := None;
           jr_whatsapp_url := None; jr_file_size_mb := None |};
  _ ← set_status COMPLETE;
  _ ← set_progress 100;
  _ ← set_message "Draft ready! Review and edit translations before finalizing.";
  when_user user_id (fun uid => fun r =>
    match r with
    | mkRun j res h td tr =>
    match DB.save_video (db_service env) uid job_id target_language file_key
            "needs_review"
            {| DB.so_output_url := None; DB.so_whatsapp_url := None;
               DB.so_file_size_mb := None;
               DB.so_cultural_report := draft_cultural_analysis draft;
               DB.so_segments_count := Some (Z.of_nat (List.length segments));
               DB.so_draft_segments := Some segments;
               DB.so_output_s3_key := None; DB.so_subtitle_s3_key := None;
               DB.so_words_localized := None |}
            h with
    | (_, t') => (Ok (), mkRun j res t' td tr)
    end
    end).

Definition draft_handler (e : exn) : M unit :=
  _ ← set_status FAILED;
  _ ← set_error (str_of_exn e);
  set_message ("Analysis failed: " ++ str_of_exn e).

Definition draft_task (env : Env) (job_id file_key target_language : string)
    (user_id : option string) : M unit :=
  try_finally
    (try_except (draft_body env job_id file_key target_language user_id)
                draft_handler)
    (cleanup env).

Definition draft_trace (env : Env) (job_id file_key target_language : string)
    (user_id : option string) (w : State) (j : LocalizationJob) : list Event :=
  trace (draft_task env job_id file_key target_language user_id (start_run w j)).2.

(** [process_draft_creation] *)
Definition process_draft_creation (env : Env)
    (job_id file_key target_language : string) (user_id : option string)
    (w : State) : result unit * State :=
  match jobs w !! job_id with
  | None => (Ok (), w)
  | Some j =>
      match draft_task env job_id file_key target_language user_id
              (start_run w j) with
      | (x, r) => (x, finish_run w job_id r)
      end
  end.

(** *** The one-pass pipeline: [process_localization_job] *)

(** [float(x)] of a segment time. *)
Definition float_of (t : timestamp) : result Q :=
  match t with
  | Seconds q => Ok q
  | Clock s => Raise (ValueError ("could not convert string to float: '" ++ s ++ "'"))
  end.

(** The subtitle loop of the one-pass pipeline, over the segments of the
    analysis. *)
Fixpoint analysis_vtt_loop (idx : nat) (segments : list TtsSegment)
    (vtt_lines : list string) : result (list string) :=
  match segments with
  | [] => Ok vtt_lines
  | seg :: rest =>
      let start_sec := default (Seconds 0) (tts_start_time seg) in
      let end_sec := default (Seconds 0) (tts_end_time seg) in
      let text := strip (default "" (tts_translated_text seg)) in
      if negb (truthy text) then analysis_vtt_loop (S idx) rest vtt_lines
      else
        s ← float_of start_sec;
        e ← float_of end_sec;
        let block :=
          [str_of_nat (idx + 1);
           format_vtt_time s ++ " --> " ++ format_vtt_time e;
           text;
           ""] in
        analysis_vtt_loop (S idx) rest (vtt_lines ++ block)%list
  end.

Definition analysis_subtitles (env : Env) (dir job_id : string)
    (segments : list TtsSegment) : M (option string) :=
  try_except
    (vtt_lines ← call (analysis_vtt_loop 0 segments ["WEBVTT"; ""]);
     let vtt_tmp_path := path_join dir (job_id ++ ".vtt") in
     _ ← call (write_file env vtt_tmp_path (join_lines vtt_lines));
     let subtitle_s3_key := subtitle_key_of job_id in
     try_except
       (_ ← upload env Subtitle vtt_tmp_path subtitle_s3_key;
        mret (Some subtitle_s3_key))
       (fun _ => mret (Some subtitle_s3_key)))
    (fun _ => mret None).

(** [words_localized] over the segments of the analysis. *)
Definition analysis_words_localized (segments : list TtsSegment) : Z :=
  foldr Z.add 0
    (List.map (fun seg =>
                 Z.of_nat (List.length (split (default "" (tts_translated_text seg)))))
              segments).

Definition localization_body (env : Env) (job_id file_key target_language : string)
    (user_id : option string) : M unit :=
  dir ← call (mkdtemp env ("nativity_" ++ substring 0 8 job_id ++ "_"));
  _ ← set_temp_dir dir;
  let local_video_path := path_join dir "input_video.mp4" in
  let output_video_path := path_join dir "output_localized.mp4" in
  let whatsapp_video_path := path_join dir "output_whatsapp.mp4" in
  (* STEP 1: download from S3 *)
  _ ← set_status UPLOADING;
  _ ← set_progress 5;
  _ ← set_message "Downloading video from S3...";
  _ ← emit (Downloaded file_key local_video_path);
  download_result ← call (S3.download_file (s3_service env) file_key local_video_path);
  _ ← (if S3.has_error download_result
       then raise (Exception ("Download failed: " ++ S3.get_error download_result))
       else mret ());
  _ ← set_progress 15;
  _ ← set_message "Video downloaded successfully";
  (* STEP 2: analysis *)
  _ ← set_status ANALYZING;
  _ ← set_progress 20;
  _ ← set_message "Gemini is watching and understanding your video...";
  analysis_result ← call (analyze_video env local_video_path target_language);
  analysis ← match analysis_result with
             | inl err => raise (Exception ("Analysis failed: " ++ err))
             | inr a => mret a
             end;
  let segments := an_segments analysis in
  _ ← set_progress 40;
  _ ← set_message ("Analysis complete! Found " ++ str_of_nat (List.length segments)
                   ++ " segments. Idioms adapted: "
                   ++ str_of_Z (an_idioms_adapted analysis));
  _ ← store_results job_id
        {| jr_segments := []; jr_output_url := None;
           jr_whatsapp_url := None; jr_file_size_mb := None |};
  (* STEP 3: speech *)
  _ ← set_status GENERATING_AUDIO;
  _ ← set_progress 45;
  _ ← set_message "Generating localized voice audio...";
  let output_dir := path_join dir "audio_segments" in
  _ ← call (TTS.makedirs (tts_engine env) output_dir);
  let voice_gender :=
    let g := default "female" (an_recommended_voice_gender analysis) in
    if String.eqb g "mixed" then "female" else g in
  audio_segments ← call (TTS.generate_segments_from_analysis (tts_engine env)
                           output_dir segments target_language voice_gender);
  _ ← set_progress 65;
  _ ← set_message ("Generated " ++ str_of_nat (List.length audio_segments)
                   ++ " audio segments");
  (* STEP 4: stitch *)
  _ ← set_status STITCHING;
  _ ← set_progress 70;
  _ ← set_message "Stitching new audio with video...";
  let audio_segment_dicts := List.map audio_dict_of audio_segments in
  let tts_delay := default 0%Q (an_first_speech_offset_seconds analysis) in
  let c := {| FFmpeg.kw_original_video_path := local_video_path;
              FFmpeg.kw_audio_segments := audio_segment_dicts;
              FFmpeg.kw_output_path := output_video_path;
              FFmpeg.kw_optimize_for_mobile := true;
              FFmpeg.kw_tts_delay_seconds := tts_delay |} in
  let x := FFmpeg.call_stitch_video (ffmpeg_service env) c in
  _ ← emit (Stitched c x);
  stitch_result ← call x;
  _ ← (if negb (FFmpeg.success stitch_result)
       then raise (Exception ("Video stitching failed: "
                              ++ default "None" (FFmpeg.error stitch_result)))
       else mret ());
  _ ← set_progress 85;
  _ ← set_message ("Video stitched! Size: "
                   ++ format_f 0 1 (FFmpeg.file_size_mb stitch_result) ++ "MB");
  (* STEP 4.5: compact variant *)
  whatsapp_result ←
    (if Qgtb (FFmpeg.file_size_mb stitch_result) 15 then
       _ ← set_message "Creating WhatsApp-optimized version (<15MB)...";
       let wc := {| FFmpeg.kw_input_path := output_video_path;
                    FFmpeg.kw_whatsapp_output_path := whatsapp_video_path;
                    FFmpeg.kw_target_size_mb := 14.5%Q |} in
       let wx := FFmpeg.call_create_whatsapp_version (ffmpeg_service env) wc in
       _ ← emit (Whatsapp wc wx);
       wr ← call wx;
       mret (Some wr)
     else mret None);
  (* STEP 5: upload *)
  _ ← set_progress 90;
  _ ← set_message "Uploading localized video to S3...";
  let output_key := output_key_of job_id target_language in
  upload_result ← upload env Primary output_video_path output_key;
  _ ← (if S3.has_error upload_result
       then raise (Exception ("Upload failed: " ++ S3.get_error upload_result))
       else mret ());
  whatsapp_url ←
    match whatsapp_result with
    | Some wr =>
        if FFmpeg.success wr then
          let whatsapp_key := whatsapp_key_of job_id target_language in
          whatsapp_upload ← upload env Compact whatsapp_video_path whatsapp_key;
          if S3.get_success whatsapp_upload then
            whatsapp_download ← presign env whatsapp_key;
            mret (S3.get_download_url whatsapp_download)
          else mret None
        else mret None
    | None => mret None
    end;
  download_result ← presign env output_key;
  (* COMPLETE *)
  _ ← set_status COMPLETE;
  _ ← set_progress 100;
  _ ← set_output_file output_key;
  _ ← set_message "Localization complete! Your video is ready.";
  _ ← update_results job_id (fun jr =>
         {| jr_segments := jr_segments jr;
            jr_output_url := S3.get_download_url download_result;
            jr_whatsapp_url := whatsapp_url;
            jr_file_size_mb := Some (FFmpeg.file_size_mb stitch_result) |});
  (* STEP 5.5: subtitles *)
  subtitle_s3_key ← analysis_subtitles env dir job_id segments;
  let words_localized := analysis_words_localized segments in
  (* history: the whole record is written here *)
  when_user user_id (fun uid => fun r =>
    match r with
    | mkRun j res h td tr =>
    match DB.save_video (db_service env) uid job_id target_language file_key
            "complete"
            {| DB.so_output_url := S3.get_download_url download_result;
               DB.so_whatsapp_url := whatsapp_url;
               DB.so_file_size_mb := Some (FFmpeg.file_size_mb stitch_result);
               DB.so_cultural_report := an_cultural_report analysis;
               DB.so_segments_count := Some (Z.of_nat (List.length segments));
               DB.so_draft_segments := None;
               DB.so_output_s3_key := Some output_key;
               DB.so_subtitle_s3_key := subtitle_s3_key;
               DB.so_words_localized := Some words_localized |}
            h with
    | (_, t') => (Ok (), mkRun j res t' td tr)
    end
    end).

Definition localization_handler (e : exn) : M unit :=
  _ ← set_status FAILED;
  _ ← set_error (str_of_exn e);
  set_message ("Processing failed: " ++ str_of_exn e).

Definition localization_task (env : Env) (job_id file_key target_language : string)
    (user_id : option string) : M unit :=
  try_finally
    (try_except (localization_body env job_id file_key target_language user_id)
                localization_handler)
    (cleanup env).

Definition localization_trace (env : Env) (job_id file_key target_language : string)
    (user_id : option string) (w : State) (j : LocalizationJob) : list Event :=
  trace (localization_task env job_id file_key target_language user_id
           (start_run w j)).2.

(** [process_localization_job] *)
Definition process_localization_job (env : Env)
    (job_id file_key target_language : string) (user_id : option string)
    (w : State) : result unit * State :=
  match jobs w !! job_id with
  | None => (Ok (), w)
  | Some j =>
      match localization_task env job_id file_key target_language user_id
              (start_run w j) with
      | (x, r) => (x, finish_run w job_id r)
      end
  end.

(** *** The [/finalize] endpoint: [finalize_dubbing] *)

(** The request body, a JSON object whose keys may be absent. *)
Record FinalizeRequest : Type := {
  req_job_id : option string;
  req_approved_segments : option (list Segment)
}.

(** The JSON answer of the endpoint. *)
Record Ack : Type := {
  ack_job_id : string;
  ack_status : string
}.

Definition finalize_dubbing (env : Env) (request : FinalizeRequest)
    (user_sub : option string) (w : State) : result Ack * State :=
  let approved_segments := default [] (req_approved_segments request) in
  match req_job_id request with
  | None => (Raise (HTTPException 400 "job_id is required"), w)
  | Some job_id =>
      if negb (truthy job_id) then
        (Raise (HTTPException 400 "job_id is required"), w)
      else
        match approved_segments with
        | [] => (Raise (HTTPException 400 "approved_segments is required"), w)
        | _ :: _ =>
            let user_id := user_sub in
            match jobs w !! job_id with
            | None => (Raise (HTTPException 404 "Job not found"), w)
            | Some original_job =>
                if negb (FFmpeg.is_available (ffmpeg_service env)) then
                  (Raise (HTTPException 503
                     "FFmpeg not installed. Please install FFmpeg to process videos."),
                   w)
                else
                  let j :=
                    with_message "Starting final dubbing with your edits..."
                      (with_progress 0 (with_status PENDING original_job)) in
                  let evs := [SetStatus PENDING; SetProgress 0;
                              SetMessage "Starting final dubbing with your edits..."] in
                  let w1 := {| jobs := <[job_id := j]> (jobs w);
                               job_results := job_results w;
                               table := table w; tasks := tasks w;
                               log := (log w ++ evs)%list |} in
                  let '(x, t') :=
                    if truthy_opt user_id then
                      DB.update_job_segments (db_service env) (default "" user_id)
                        job_id approved_segments (Some "processing") (table w1)
                    else (Ok DB.SuccessReply, table w1) in
                  let w2 := {| jobs := jobs w1; job_results := job_results w1;
                               table := t'; tasks := tasks w1; log := log w1 |} in
                  match x with
                  | Raise e => (Raise e, w2)
                  | Ok _ =>
                      (Ok {| ack_job_id := job_id; ack_status := "finalizing" |},
                       {| jobs := jobs w2; job_results := job_results w2;
                          table := table w2;
                          tasks := (tasks w2 ++
                                    [{| t_job_id := job_id;
                                        t_file_key := input_file j;
                                        t_target_language := target_language j;
                                        t_approved_segments := approved_segments;
                                        t_user_id := user_id |}])%list;
                          log := log w2 |})
                  end
            end
        end
  end.

(** One whole Phase 2: the endpoint, then the task it queued. *)
Definition phase2 (env : Env) (request : FinalizeRequest)
    (user_sub : option string) (w : State) : result unit * State :=
  match finalize_dubbing env request user_sub w with
  | (Raise e, w') => (Raise e, w')
  | (Ok _, w') =>
      match last (tasks w') with
      | Some t =>
          process_finalize_dubbing env (t_job_id t) (t_file_key t)
            (t_target_language t) (t_approved_segments t) (t_user_id t) w'
      | None => (Ok (), w')
      end
  end.

(** *** The other endpoints *)

(** The JSON answer of [/job/{job_id}]: [job.dict()], with ["results"]
    when the job is complete and has results. *)
Record JobResponse : Type := {
  resp_job : LocalizationJob;
  resp_results : option JobResults
}.

(** [get_job_status] *)
Definition get_job_status (job_id : string) (w : State) : result JobResponse :=
  match jobs w !! job_id with
  | None => Raise (HTTPException 404 "Job not found")
  | Some job =>
      Ok {| resp_job := job;
            resp_results :=
              if is_status (status job) COMPLETE then job_results w !! job_id
              else None |}
  end.

(** The arguments of a queued [process_localization_job]. *)
Record LocalizationTask : Type := {
  lt_job_id : string;
  lt_file_key : string;
  lt_target_language : string;
  lt_user_id : option string
}.

(** [start_localization]; [uuid4] is [str(uuid.uuid4())] and [user] the
    payload of [get_current_user].  The second component is what was
    added to the request's [background_tasks]. *)
Definition start_localization (uuid4 : string) (request : LocalizationRequest)
    (user : gmap string string) (w : State)
    : Ack * list LocalizationTask * State :=
  let job_id := uuid4 in
  let user_id := user !! "sub" in
  let job :=
    {| job_id := job_id; status := PENDING; progress := 0;
       message := "Job created, starting full localization...";
       input_file := lr_file_key request;
       target_language := value (lr_target_language request);
       output_file := None; error := None |} in
  ({| ack_job_id := job_id; ack_status := "processing" |},
   [{| lt_job_id := job_id; lt_file_key := lr_file_key request;
       lt_target_language := value (lr_target_language request);
       lt_user_id := user_id |}],
   {| jobs := <[job_id := job]> (jobs w); job_results := job_results w;
      table := table w; tasks := tasks w; log := log w |}).

(** The background task [start_localization] queued, run. *)
Definition run_localization_task (env : Env) (t : LocalizationTask) (w : State)
    : result unit * State :=
  process_localization_job env (lt_job_id t) (lt_file_key t)
    (lt_target_language t) (lt_user_id t) w.

(** [get_supported_languages]: code and English name of each entry. *)
Definition get_supported_languages : list (string * string) :=
  [("hindi", "Hindi"); ("tamil", "Tamil"); ("bengali", "Bengali");
   ("telugu", "Telugu"); ("marathi", "Marathi")].

(** [delete_video]: the endpoint; [user] is the payload of
    [get_current_user].  The value is the ["message"] of the answer. *)
Definition delete_video (env : Env) (job_id : string) (user : gmap string string)
    (w : State) : result string * State :=
  let user_id := user !! "sub" in
  if negb (truthy_opt user_id) then
    (Raise (HTTPException 401 "Invalid user token"), w)
  else
    match DB.delete_video (db_service env) (default "" user_id) job_id (table w) with
    | (result, t') =>
        let w' := {| jobs := jobs w; job_results := job_results w; table := t';
                     tasks := tasks w; log := log w |} in
        match result with
        | DB.ErrorReply error =>
            if contains "not found" (lower error) then
              (Raise (HTTPException 404 "Video not found or not owned by user"), w')
            else
              (Raise (HTTPException 500 ("Failed to delete video: " ++ error)), w')
        | _ => (Ok ("Video " ++ job_id ++ " deleted successfully"), w')
        end
    end.

(** *** [/history] *)

(** One entry of the ["videos"] list of [db_service.get_user_history],
    with the keys the endpoint reads or sets.  These dicts have no
    ["output_file"] and no ["input_s3_key"] entry. *)
Record HistoryVideo : Type := {
  hv_job_id : option string;
  hv_target_language : option string;
  hv_input_file : option string;
  hv_status : option string;
  hv_output_url : option string;
  hv_output_s3_key : option string;
  hv_subtitle_s3_key : option string;
  hv_words_localized : option Z;
  hv_subtitle_url : option string;
  hv_input_url : option string
}.

(** The dict [db_service.get_user_history] returns. *)
Inductive HistoryReply : Type :=
| HistoryError (error : string)
| HistoryVideos (videos : list HistoryVideo).

(** The collaborators of [/history]. *)
Record HistoryEnv : Type := {
  web : S3.Web;
  (** [db_service.get_user_history(user_id, limit=limit)] *)
  db_get_user_history : string -> Z -> HistoryReply
}.

(** [a or b] on optional strings *)
Definition or_else (a b : option string) : option string :=
  if truthy_opt a then a else b.

(** The fresh URL for [key], when there is a key, the bucket is
    configured and a URL comes back. *)
Definition fresh_url (wb : S3.Web) (key : option string) : option string :=
  match key with
  | Some k =>
      if truthy k && S3.is_configured (S3.bucket wb) then
        match S3.create_presigned_url wb k with
        | Some u => if truthy u then Some u else None
        | None => None
        end
      else None
  | None => None
  end.

(** One iteration of the loop that regenerates the URLs of a video. *)
Definition refresh_urls (wb : S3.Web) (video : HistoryVideo) : HistoryVideo :=
  let output_key := or_else (hv_output_s3_key video) None in
  let subtitle_key := hv_subtitle_s3_key video in
  let input_key := or_else (hv_input_file video) None in
  {| hv_job_id := hv_job_id video;
     hv_target_language := hv_target_language video;
     hv_input_file := hv_input_file video;
     hv_status := hv_status video;
     hv_output_url :=
       match fresh_url wb output_key with
       | Some u => Some u
       | None => hv_output_url video
       end;
     hv_output_s3_key := hv_output_s3_key video;
     hv_subtitle_s3_key := hv_subtitle_s3_key video;
     hv_words_localized := hv_words_localized video;
     hv_subtitle_url :=
       match fresh_url wb subtitle_key with
       | Some u => Some u
       | None => hv_subtitle_url video
       end;
     hv_input_url :=
       match fresh_url wb input_key with
       | Some u => Some u
       | None => hv_input_url video
       end |}.

(** The ["stats"] of the answer. *)
Record Stats : Type := {
  total_projects : nat;
  languages_used : nat;
  stats_words_localized : Z
}.

(** The languages added to [unique_languages]. *)
Definition unique_languages (videos : list HistoryVideo) : gset string :=
  list_to_set
    (omap (fun video => match hv_target_language video with
                        | Some lang => if truthy lang then Some lang else None
                        | None => None
                        end) videos).

Definition history_stats (videos : list HistoryVideo) : Stats :=
  {| total_projects := List.length videos;
     languages_used := size (unique_languages videos);
     stats_words_localized :=
       foldr Z.add 0
         (List.map (fun video => default 0 (hv_words_localized video))
            (List.filter (fun video => match hv_status video with
                                       | Some s => String.eqb s "complete"
                                       | None => false
                                       end) videos)) |}.

(** [get_user_history]: the endpoint; [user] is the payload of
    [get_current_user]. *)
Definition get_user_history (henv : HistoryEnv) (user : gmap string string)
    (limit : Z) : result (list HistoryVideo * Stats) :=
  let user_id := user !! "sub" in
  if negb (truthy_opt user_id) then Raise (HTTPException 401 "Invalid user token")
  else
    match db_get_user_history henv (default "" user_id) limit with
    | HistoryError error => Raise (HTTPException 503 ("Database error: " ++ error))
    | HistoryVideos videos =>
        let videos := List.map (refresh_urls (web henv)) videos in
        Ok (videos, history_stats videos)
    end.

(** An endpoint behind [Depends(get_current_user)]: the dependency runs
    first and its exception is the answer. *)
Definition authenticated {A} (ck : Auth.Clerk) (credentials : option string)
    (endpoint : gmap string string -> result A) : result A :=
  user ← Auth.get_current_user ck credentials;
  endpoint user.

End Video.

(** ** main.py *)

Module Main.
Import Py.

(** The answer of [/api/health], without its ["ffmpeg_details"]. *)
Record Health : Type := {
  h_status : string;
  h_gemini : string;
  h_aws_s3 : string;
  h_ffmpeg : string;
  h_configuration : Config.Validation;
  h_supported_languages : list string
}.

(** [health_check]; [ffmpeg_available] is [ffmpeg_service.is_available()]. *)
Definition health_check (st : Config.Settings) (ffmpeg_available : bool) : Health :=
  let config_status := Config.validate st in
  let all_services_ready :=
    Config.gemini_is_configured st && Config.s3_is_configured st
    && ffmpeg_available in
  {| h_status := if all_services_ready then "ok" else "degraded";
     h_gemini := if Config.gemini_is_configured st then "ready" else "not configured";
     h_aws_s3 := if Config.s3_is_configured st then "ready" else "not configured";
     h_ffmpeg := if ffmpeg_available then "ready" else "not installed";
     h_configuration := config_status;
     h_supported_languages := Config.SUPPORTED_LANGUAGES |}.

End Main.

(** ** Concrete collaborators and inputs

    Used to run the definitions above on explicit inputs. *)

Module Scenario.
Import Py Models.

(** A speech engine that always succeeds, and one that never does. *)
Definition good_engine : TTS.Engine :=
  {| TTS.makedirs := fun _ => Ok ();
     TTS.communicate_save := fun _ _ _ => Ok ();
     TTS.get_audio_duration := fun _ => 1500 |}.

Definition mute_engine : TTS.Engine :=
  {| TTS.makedirs := fun _ => Ok ();
     TTS.communicate_save := fun _ _ _ => Raise (Exception "No audio was received");
     TTS.get_audio_duration := fun _ => 0 |}.

Definition tts_segment (text : string) : TtsSegment :=
  {| tts_start_time := Some (Seconds 0); tts_end_time := Some (Seconds 1);
     tts_translated_text := Some text; tts_original_text := Some "" |}.

Definition segment (s e : Q) (text : string) : Segment :=
  {| start := Some s; end_ := Some e; translated_text := Some text;
     original_text := Some "" |}.

(** Three approved segments, the middle one whitespace only. *)
Definition three_segments : list Segment :=
  [segment 2 5 "A"; segment 5 9 "   "; segment 9 12 "B"].

(** Collaborators on which every external call succeeds. *)
Definition good_codec : FFmpeg.Codec :=
  {| FFmpeg.ffmpeg_available := true;
     FFmpeg.probe := fun _ => Ok (116%Q, 20%Q);
     FFmpeg.mkdtemp := fun prefix => Ok ("/tmp/" ++ prefix ++ "0");
     FFmpeg.run_concat := fun _ _ => Ok 1%Q;
     FFmpeg.run := fun _ => Ok ();
     FFmpeg.rmtree := fun _ => Ok () |}.

Definition good_bucket : S3.Bucket :=
  {| S3.is_configured := true;
     S3.makedirs := fun _ => Ok ();
     S3.client_download_file := fun _ _ => Ok ();
     S3.client_upload_file := fun _ _ => Ok ();
     S3.client_generate_presigned_url := fun k => Ok ("https://bucket/" ++ k) |}.

Definition good_conn : DB.Conn :=
  {| DB.is_configured := true;
     DB.now := "2026-01-01T00:00:00Z";
     DB.query_error := None;
     DB.write_error := None |}.

Definition approved : list Segment :=
  [segment 3.2 5 "namaste"; segment 5 9 "duniya"].

(** A codec on which every call succeeds but the compact encode. *)
Definition compact_failing_codec : FFmpeg.Codec :=
  {| FFmpeg.ffmpeg_available := true;
     FFmpeg.probe := fun _ => Ok (116%Q, 20%Q);
     FFmpeg.mkdtemp := fun prefix => Ok ("/tmp/" ++ prefix ++ "0");
     FFmpeg.run_concat := fun _ _ => Ok 1%Q;
     FFmpeg.run := fun c =>
       if existsb (fun o => String.eqb o.1 "video_bitrate") (FFmpeg.options c)
       then Raise (OSError "No space left on device")
       else Ok ();
     FFmpeg.rmtree := fun _ => Ok () |}.

(** A Gemini client with the given outcomes of the upload, of the polls
    and of the calls of the model. *)
Definition client_with (upload : result string) (polls : nat -> result string)
    (answers : nat -> result Gemini.Response) : Gemini.Client :=
  {| Gemini.configured := true;
     Gemini.files_upload := fun _ => upload;
     Gemini.files_get := polls;
     Gemini.generate_content := answers;
     Gemini.json_loads := fun t =>
       if String.eqb t "{}" then Ok Gemini.LoadedDict
       else if String.eqb t "[]" then Ok Gemini.LoadedList
       else if String.eqb t "42" then Ok (Gemini.LoadedOther "int")
       else Raise (JSONDecodeError "Expecting value: line 1 column 1 (char 0)") |}.

Definition answer (t : string) : Gemini.Response := {| Gemini.text := Some t |}.

Definition env_with (svc : FFmpeg.Service) : Video.Env :=
  {| Video.ffmpeg_service := svc;
     Video.s3_service := good_bucket;
     Video.tts_engine := good_engine;
     Video.db_service := good_conn;
     Video.analyze_video := fun _ _ => Ok (inl "not used");
     Video.generate_translation_draft := fun _ _ =>
       Ok (inr {| Video.draft_segments := approved;
                  Video.draft_cultural_analysis := None |});
     Video.mkdtemp := fun prefix => Ok ("/tmp/" ++ prefix ++ "0");
     Video.write_file := fun _ _ => Ok ();
     Video.path_exists := fun _ => true;
     Video.rmtree := fun _ => Ok () |}.

(** The environment of the repository: the routes use the
    [ffmpeg_service] singleton of [ffmpeg_service.py]. *)
Definition env_src : Video.Env := env_with (FFmpeg.ffmpeg_service good_codec).

(** A stitcher that accepts the keywords of the routes and reports the
    given results. *)
Definition stub_service (stitch compact : FFmpeg.ProcessingResult) : FFmpeg.Service :=
  {| FFmpeg.is_available := true;
     FFmpeg.call_stitch_video := fun _ => Ok stitch;
     FFmpeg.call_create_whatsapp_version := fun _ => Ok compact |}.

Definition done (path : string) (size : Q) : FFmpeg.ProcessingResult :=
  {| FFmpeg.success := true; FFmpeg.output_path := Some path;
     FFmpeg.file_size_mb := size; FFmpeg.duration_seconds := 116;
     FFmpeg.error := None |}.

(** A job as Phase 1 leaves it, with its history record. *)
Definition job0 : LocalizationJob :=
  {| job_id := "job-0001"; status := COMPLETE; progress := 100;
     message := "Draft ready! Review and edit translations before finalizing.";
     input_file := "uploads/talk.mp4"; target_language := "hindi";
     output_file := None; error := None |}.

Definition history0 : DB.Table :=
  (DB.save_video good_conn "user_1" "job-0001" "hindi" "uploads/talk.mp4"
     "needs_review"
     {| DB.so_output_url := None; DB.so_whatsapp_url := None;
        DB.so_file_size_mb := None; DB.so_cultural_report := None;
        DB.so_segments_count := Some 2;
        DB.so_draft_segments := Some approved;
        DB.so_output_s3_key := None; DB.so_subtitle_s3_key := None;
        DB.so_words_localized := None |}
     {| DB.rows := [] |}).2.

Definition state0 : Video.State :=
  {| Video.jobs := {["job-0001" := job0]};
     Video.job_results :=
       {["job-0001" := {| Video.jr_segments := approved;
                          Video.jr_output_url := None;
                          Video.jr_whatsapp_url := None;
                          Video.jr_file_size_mb := None |}]};
     Video.table := history0;
     Video.tasks := [];
     Video.log := [] |}.

Definition finalize_request : Video.FinalizeRequest :=
  {| Video.req_job_id := Some "job-0001";
     Video.req_approved_segments := Some approved |}.

(** What [/history] works on: two stored records of one user. *)
Definition web : S3.Web :=
  {| S3.bucket := good_bucket; S3.CLOUDFRONT_DOMAIN := None;
     S3.netloc := fun _ => "" |}.

Definition stored_videos : list Video.HistoryVideo :=
  [{| Video.hv_job_id := Some "job-0001";
      Video.hv_target_language := Some "hindi";
      Video.hv_input_file := Some "uploads/talk.mp4";
      Video.hv_status := Some "complete";
      Video.hv_output_url := Some "https://bucket/expired";
      Video.hv_output_s3_key := Some "outputs/job-0001/localized_hindi.mp4";
      Video.hv_subtitle_s3_key := None;
      Video.hv_words_localized := Some 120;
      Video.hv_subtitle_url := None;
      Video.hv_input_url := None |};
   {| Video.hv_job_id := Some "job-0002";
      Video.hv_target_language := Some "hindi";
      Video.hv_input_file := Some "uploads/demo.mp4";
      Video.hv_status := Some "failed";
      Video.hv_output_url := None;
      Video.hv_output_s3_key := None;
      Video.hv_subtitle_s3_key := None;
      Video.hv_words_localized := Some 75;
      Video.hv_subtitle_url := None;
      Video.hv_input_url := None |}].

Definition history_env : Video.HistoryEnv :=
  {| Video.web := web;
     Video.db_get_user_history := fun _ _ => Video.HistoryVideos stored_videos |}.

End Scenario.

(** * Properties *)

Import Py Models.

(** ** Voice selection *)

(** Every entry of [VOICE_MAP] is a male/female pair and nothing else. *)
Lemma VOICE_MAP_pairs (k : string) (lang_voices : gmap string string) :
  TTS.VOICE_MAP !! k = Some lang_voices ->
  (exists m f, lang_voices !! "male" = Some m /\ lang_voices !! "female" = Some f) /\
  (forall g, g <> "male" -> g <> "female" -> lang_voices !! g = None).
Proof.
  unfold TTS.VOICE_MAP. intros H.
  repeat (rewrite lookup_insert in H; case_decide;
          [ inversion H; subst; clear H; split;
            [ eexists _, _; split; reflexivity
            | intros g Hm Hf; rewrite !lookup_insert_ne by congruence;
              apply lookup_empty ]
          | ]).
  rewrite lookup_empty in H. discriminate.
Qed.

Lemma VOICE_MAP_hindi :
  exists hindi, TTS.VOICE_MAP !! "hindi" = Some hindi.
Proof. eexists. reflexivity. Qed.

(** C10.  Voice selection is total: for every language string and every
    gender string [get_voice] returns a voice name found in [VOICE_MAP];
    a language that is not a key of the map (after lowering) selects the
    Hindi pair, and a gender other than ["male"] and ["female"] selects
    the female voice of the selected language. *)
Theorem get_voice_total (language gender : string) :
  (exists k lang_voices g voice,
      TTS.VOICE_MAP !! k = Some lang_voices /\
      lang_voices !! g = Some voice /\
      TTS.get_voice language gender = Ok voice) /\
  (TTS.VOICE_MAP !! lower language = None ->
   TTS.get_voice language gender = TTS.get_voice "hindi" gender) /\
  (gender <> "male" -> gender <> "female" ->
   TTS.get_voice language gender = TTS.get_voice language "female").
Proof.
  destruct VOICE_MAP_hindi as [hindi Hh].
  assert (Hsel : exists k lv, TTS.VOICE_MAP !! k = Some lv /\
                 get TTS.VOICE_MAP (lower language) hindi = lv).
  { unfold get. destruct (TTS.VOICE_MAP !! lower language) as [lv|] eqn:E.
    - exists (lower language), lv. auto.
    - exists "hindi", hindi. auto. }
  destruct Hsel as (k & lv & Hk & Hsel).
  destruct (VOICE_MAP_pairs _ _ Hk) as [(m & f & Hm & Hf) Hother].
  assert (Hgv : forall g, TTS.get_voice language g = Ok (default f (lv !! g))).
  { intros g. unfold TTS.get_voice, subscript. rewrite Hh. cbn.
    rewrite Hsel, Hf. reflexivity. }
  split; [| split].
  - rewrite Hgv. destruct (lv !! gender) as [v|] eqn:Eg.
    + exists k, lv, gender, v. auto.
    + exists k, lv, "female", f. auto.
  - intros Hnone. rewrite Hgv.
    unfold get in Hsel. rewrite Hnone in Hsel. cbn in Hsel. subst lv.
    unfold TTS.get_voice, subscript, get.
    replace (lower "hindi") with "hindi" by reflexivity.
    rewrite Hh. cbn. rewrite Hf. reflexivity.
  - intros Hnm Hnf. rewrite !Hgv, (Hother gender Hnm Hnf), Hf. reflexivity.
Qed.

Lemma get_voice_total_witness :
  TTS.get_voice "Klingon" "robot" = TTS.get_voice "hindi" "robot" /\
  TTS.get_voice "Klingon" "robot" = TTS.get_voice "Klingon" "female".
Proof.
  destruct (get_voice_total "Klingon" "robot") as (_ & Hl & Hg). split.
  - apply Hl. vm_compute. reflexivity.
  - apply Hg; discriminate.
Defined.

Example get_voice_tamil_male :
  TTS.get_voice "TAMIL" "male" = Ok "ta-IN-ValluvarNeural".
Proof. vm_compute. reflexivity. Qed.

Example get_voice_fallback :
  TTS.get_voice "klingon" "robot" = Ok "hi-IN-SwaraNeural".
Proof. vm_compute. reflexivity. Qed.

(** ** Float rounding *)

Lemma round_half_even_comp (x y : Q) :
  (x == y)%Q -> round_half_even x = round_half_even y.
Proof.
  intros H. unfold round_half_even.
  rewrite (Qfloor_comp _ _ H).
  assert (Hc : ((x - inject_Z (Qfloor y)) ?= (1 # 2))%Q =
               ((y - inject_Z (Qfloor y)) ?= (1 # 2))%Q)
    by (apply Qcompare_comp; [rewrite H; reflexivity | reflexivity]).
  rewrite Hc. reflexivity.
Qed.

Lemma round_half_even_floor (x : Q) : Qfloor x <= round_half_even x.
Proof.
  unfold round_half_even. destruct (_ ?= _)%Q; [destruct (Z.even _) | |]; lia.
Qed.

Lemma round_half_even_le (x : Q) (j : Z) :
  (x <= inject_Z j)%Q -> round_half_even x <= j.
Proof.
  intros H. unfold round_half_even.
  pose proof (Qfloor_le x) as Hf.
  assert (Hfj : Qfloor x <= j).
  { rewrite Zle_Qle. lra. }
  assert (Hup : (inject_Z (Qfloor x) < x)%Q -> Qfloor x + 1 <= j).
  { intros Hlt. assert (Hq : (inject_Z (Qfloor x) < inject_Z j)%Q) by lra.
    rewrite <- Zlt_Qlt in Hq. lia. }
  destruct (_ ?= _)%Q eqn:E.
  - destruct (Z.even _); [exact Hfj |].
    apply Qeq_alt in E. apply Hup. lra.
  - exact Hfj.
  - apply Qgt_alt in E. apply Hup. lra.
Qed.

Lemma Qpower_2_nonpos (e : Z) :
  e <= 0 -> (2 ^ e == / inject_Z (2 ^ (- e)))%Q.
Proof.
  intros He. replace e with (- - e) at 1 by lia.
  rewrite Qpower_opp. rewrite (Zpower_Qpower 2 (- e)) by lia. reflexivity.
Qed.

Lemma scaled_round_between (x : Q) (s lo hi : Z) :
  0 < s -> (inject_Z lo <= x <= inject_Z hi)%Q ->
  (inject_Z lo <= inject_Z (round_half_even (x * inject_Z s)) / inject_Z s
   <= inject_Z hi)%Q.
Proof.
  intros Hs [Hlo Hhi].
  assert (Hs' : (inject_Z 0 < inject_Z s)%Q) by (rewrite <- Zlt_Qlt; exact Hs).
  split.
  - apply Qle_shift_div_l; [exact Hs' |].
    rewrite <- inject_Z_mult, <- Zle_Qle.
    etransitivity; [| apply round_half_even_floor].
    rewrite <- (Qfloor_Z (lo * s)). apply Qfloor_resp_le.
    rewrite inject_Z_mult. apply Qmult_le_compat_r; [exact Hlo |].
    apply Qlt_le_weak, Hs'.
  - apply Qle_shift_div_r; [exact Hs' |].
    rewrite <- inject_Z_mult, <- Zle_Qle.
    apply round_half_even_le. rewrite inject_Z_mult.
    apply Qmult_le_compat_r; [exact Hhi |]. apply Qlt_le_weak, Hs'.
Qed.

Lemma ilog2_le_52 (x : Q) :
  ~ (x == 0)%Q -> (Qabs x < inject_Z (2 ^ 53))%Q -> ilog2 x <= 52.
Proof.
  intros Hne Hlt. unfold ilog2.
  set (n := Z.abs (Qnum x)). set (d := Z.pos (Qden x)).
  assert (Hn : 0 < n).
  { unfold n. destruct x as [[| p | p] q]; cbn; try lia.
    exfalso. apply Hne. reflexivity. }
  assert (Hnd : n < 2 ^ 53 * d).
  { destruct x as [xn xd]. unfold Qlt in Hlt. cbn in Hlt. unfold n, d. cbn. lia. }
  assert (Hk : Z.log2 n - Z.log2 d <= 53).
  { pose proof (Z.log2_spec d ltac:(unfold d; lia)) as [_ Hd].
    assert (Hlog : Z.log2 n < 54 + Z.log2 d).
    { apply Z.log2_lt_pow2; [exact Hn |].
      pose proof (Z.log2_nonneg d).
      replace (54 + Z.log2 d) with (53 + Z.succ (Z.log2 d)) by lia.
      rewrite Z.pow_add_r by lia. nia. }
    lia. }
  destruct (Qle_bool _ _) eqn:E; [| lia].
  apply Qle_bool_iff in E.
  destruct (Z_le_gt_dec (Z.log2 n - Z.log2 d) 52) as [Hle | Hgt]; [exact Hle |].
  exfalso.
  assert (H53 : (2 ^ 53 <= 2 ^ (Z.log2 n - Z.log2 d))%Q)
    by (apply Qpower_le_compat_l; [lia | discriminate]).
  assert (Hz : (inject_Z (2 ^ 53) == 2 ^ 53)%Q) by reflexivity.
  apply (Qlt_irrefl (Qabs x)).
  eapply Qlt_le_trans; [exact Hlt |]. rewrite Hz.
  eapply Qle_trans; [exact H53 | exact E].
Qed.

(** Rounding to the nearest float never crosses an integer below
    [2 ^ 53] in magnitude: every such integer is a float. *)
Lemma binary64_between (x : Q) (lo hi : Z) :
  - 2 ^ 53 < lo -> hi < 2 ^ 53 -> (inject_Z lo <= x <= inject_Z hi)%Q ->
  exists y, binary64 x = Some y /\ (inject_Z lo <= y <= inject_Z hi)%Q.
Proof.
  intros Hlo Hhi [Hx1 Hx2]. unfold binary64.
  destruct (Qeq_bool x 0) eqn:E0.
  - apply Qeq_bool_iff in E0. exists 0%Q. split; [reflexivity |].
    rewrite <- E0. split; assumption.
  - assert (Hne : ~ (x == 0)%Q).
    { intros H. apply Qeq_bool_iff in H. congruence. }
    assert (Hlo' : (inject_Z (- 2 ^ 53) < inject_Z lo)%Q)
      by (rewrite <- Zlt_Qlt; exact Hlo).
    assert (Hhi' : (inject_Z hi < inject_Z (2 ^ 53))%Q)
      by (rewrite <- Zlt_Qlt; exact Hhi).
    assert (Hopp : (inject_Z (- 2 ^ 53) == - inject_Z (2 ^ 53))%Q) by reflexivity.
    assert (Habs : (Qabs x < inject_Z (2 ^ 53))%Q).
    { apply Qabs_Qlt_condition. split; lra. }
    pose proof (ilog2_le_52 x Hne Habs) as Hlog.
    set (e := Z.max (ilog2 x - 52) (-1074)).
    assert (He : e <= 0) by (unfold e; lia).
    set (s := 2 ^ (- e)).
    assert (Hs : 0 < s) by (unfold s; apply Z.pow_pos_nonneg; lia).
    assert (Hs' : (inject_Z 0 < inject_Z s)%Q) by (rewrite <- Zlt_Qlt; exact Hs).
    assert (Hpow : (2 ^ e == / inject_Z s)%Q) by (apply Qpower_2_nonpos; exact He).
    assert (Hm : round_half_even (x / 2 ^ e) = round_half_even (x * inject_Z s)).
    { apply round_half_even_comp. unfold Qdiv. rewrite Hpow, Qinv_involutive.
      reflexivity. }
    rewrite Hm.
    set (m := round_half_even (x * inject_Z s)).
    assert (Hy : (inject_Z m * 2 ^ e == inject_Z m / inject_Z s)%Q)
      by (unfold Qdiv; rewrite Hpow; reflexivity).
    pose proof (scaled_round_between x s lo hi Hs (conj Hx1 Hx2)) as [Hb1 Hb2].
    fold m in Hb1, Hb2. rewrite <- Hy in Hb1, Hb2.
    destruct (Qle_bool (2 ^ 1024) (Qabs (inject_Z m * 2 ^ e))) eqn:Eo.
    + exfalso. apply Qle_bool_iff in Eo.
      assert (Hy53 : (Qabs (inject_Z m * 2 ^ e) < inject_Z (2 ^ 53))%Q).
      { apply Qabs_Qlt_condition. split; lra. }
      assert (Hbig : (inject_Z (2 ^ 53) <= 2 ^ 1024)%Q).
      { change (inject_Z (2 ^ 53)) with (2 ^ 53)%Q.
        apply Qpower_le_compat_l; [lia | discriminate]. }
      apply (Qlt_irrefl (2 ^ 1024)%Q).
      eapply Qle_lt_trans; [exact Eo |].
      eapply Qlt_le_trans; [exact Hy53 | exact Hbig].
    + eexists. split; [reflexivity |]. split; assumption.
Qed.

(** ** The compact-variant bitrate *)

(** Truncation and floor agree on the non-negative rationals, and
    truncation of a negative rational is not positive. *)
Lemma int_of_float_cases (x : Q) :
  (0 <= Qnum x /\ int_of_float x = Qfloor x) \/
  (Qnum x < 0 /\ int_of_float x <= 0 /\ Qfloor x < 0).
Proof.
  unfold int_of_float, Qfloor. destruct x as [n d]. cbn.
  destruct (Z_lt_le_dec n 0) as [Hneg | Hpos].
  - right. split; [assumption | split].
    + pose proof (Z.quot_opp_l (- n) (Z.pos d) ltac:(lia)) as Hopp.
      pose proof (Z.quot_pos (- n) (Z.pos d) ltac:(lia) ltac:(lia)) as Hq.
      rewrite Z.opp_involutive in Hopp. lia.
    + apply Z.div_lt_upper_bound; lia.
  - left. split; [assumption |]. apply Z.quot_div_nonneg; lia.
Qed.

(** [int] of a float that lies between the integers [f] and [f + 1]. *)
Lemma int_of_float_between (y : Q) (f : Z) :
  (inject_Z f <= y <= inject_Z (f + 1))%Q ->
  (0 <= f -> f <= int_of_float y <= f + 1 /\
             ((y < inject_Z (f + 1))%Q -> int_of_float y = f)) /\
  (f < 0 -> int_of_float y <= 0).
Proof.
  intros [Hlo Hhi].
  assert (Hf1 : f <= Qfloor y)
    by (rewrite <- (Qfloor_Z f); apply Qfloor_resp_le; exact Hlo).
  assert (Hf2 : Qfloor y <= f + 1)
    by (rewrite <- (Qfloor_Z (f + 1)); apply Qfloor_resp_le; exact Hhi).
  destruct (int_of_float_cases y) as [[Hn Heq] | (Hn & Hle & Hlt)].
  - rewrite Heq. split.
    + intros _. split; [lia |]. intros Hlt.
      pose proof (Qfloor_le y) as Hfl.
      assert (H : (inject_Z (Qfloor y) < inject_Z (f + 1))%Q)
        by (eapply Qle_lt_trans; [exact Hfl | exact Hlt]).
      rewrite <- Zlt_Qlt in H. lia.
    + intros Hneg. lia.
  - split; [| intros _; exact Hle]. intros Hpos. lia.
Qed.

(** C4, as stated with an audio allowance of 96 kbps, fails on the code:
    for 14.5 MB over 116 s the code yields 896, not 928. *)
Lemma target_bitrate_not_minus_96 :
  FFmpeg.target_bitrate 14.5 116 <>
  Ok (Z.max (Qfloor (14.5 * 8192 / 116) - 96) 200).
Proof. vm_compute. discriminate. Qed.

(** C4 (amended).  For a positive probed duration the compact-variant
    video bitrate is [int(Q) - 128] kbps, clamped below at 200 kbps, where
    [Q] is the float quotient of the float product [target_size_mb * 8192]
    by the duration.  With the exact quotient [q] of that product by the
    duration below [2 ^ 52] in magnitude, [Q] lies between [floor(q)] and
    [floor(q) + 1], so the bitrate is [floor(q) - 128] clamped, or one more
    when [Q] is rounded up to the integer [floor(q) + 1]; it is exactly 200
    whenever [floor(q) - 128] is below 200, in particular when it is
    negative.  The product is exact when it is an integer below [2 ^ 53],
    and for 14.5 MB over 116 s the bitrate is 896. *)
Theorem target_bitrate_formula (target_size_mb duration product : Q) :
  (0 < duration)%Q ->
  binary64 (target_size_mb * 8192) = Some product ->
  (Qabs (product / duration) < inject_Z (2 ^ 52))%Q ->
  let q := (product / duration)%Q in
  (exists quotient b,
     binary64 q = Some quotient /\
     FFmpeg.target_bitrate target_size_mb duration = Ok b /\
     b = Z.max (int_of_float quotient - 128) 200 /\
     (inject_Z (Qfloor q) <= quotient <= inject_Z (Qfloor q + 1))%Q /\
     (b = Z.max (Qfloor q - 128) 200 \/ b = Z.max (Qfloor q - 127) 200) /\
     ((quotient < inject_Z (Qfloor q + 1))%Q ->
      b = Z.max (Qfloor q - 128) 200) /\
     (Qfloor q - 128 < 200 -> b = 200) /\
     200 <= b) /\
  (forall z, - 2 ^ 53 < z < 2 ^ 53 ->
     (target_size_mb * 8192 == inject_Z z)%Q ->
     (product == target_size_mb * 8192)%Q) /\
  FFmpeg.target_bitrate 14.5 116 = Ok 896.
Proof.
  intros Hpos Hprod Habs. cbn zeta.
  set (q := (product / duration)%Q) in *.
  split; [| split; [| vm_compute; reflexivity]].
  - set (f := Qfloor q).
    pose proof (Qfloor_le q) as Hf1. pose proof (Qlt_floor q) as Hf2.
    fold f in Hf1, Hf2.
    apply Qabs_Qlt_condition in Habs as [Hq1 Hq2].
    assert (Hopp : (inject_Z (- 2 ^ 52) == - inject_Z (2 ^ 52))%Q) by reflexivity.
    assert (Hplus : (inject_Z (f + 1) == inject_Z f + 1)%Q)
      by (rewrite inject_Z_plus; reflexivity).
    assert (Hlo : - 2 ^ 53 < f).
    { assert (H : (inject_Z (- 2 ^ 52) < inject_Z (f + 1))%Q) by lra.
      rewrite <- Zlt_Qlt in H. lia. }
    assert (Hhi : f + 1 < 2 ^ 53).
    { assert (H : (inject_Z f < inject_Z (2 ^ 52))%Q) by lra.
      rewrite <- Zlt_Qlt in H. lia. }
    destruct (binary64_between q f (f + 1) Hlo Hhi) as (y & Hy & Hy1 & Hy2).
    { split; [exact Hf1 | apply Qlt_le_weak; exact Hf2]. }
    destruct (int_of_float_between y f (conj Hy1 Hy2)) as [Hnonneg Hneg].
    exists y, (Z.max (int_of_float y - 128) 200).
    split; [exact Hy |]. split.
    { unfold FFmpeg.target_bitrate.
      assert (Hne : Qeq_bool duration 0 = false).
      { destruct (Qeq_bool duration 0) eqn:E; [| reflexivity].
        apply Qeq_bool_iff in E. rewrite E in Hpos. inversion Hpos. }
      rewrite Hne, Hprod. fold q. rewrite Hy. reflexivity. }
    split; [reflexivity |]. split; [split; assumption |].
    destruct (Z_lt_le_dec f 0) as [Hfneg | Hfpos].
    + specialize (Hneg Hfneg). repeat split; lia.
    + destruct (Hnonneg Hfpos) as [Hb Hstrict]. repeat split; try lia.
      intros Hlt. rewrite (Hstrict Hlt). reflexivity.
  - intros z Hz Heq.
    destruct (binary64_between (target_size_mb * 8192) z z) as (y & Hy & Hy1 & Hy2);
      [lia | lia | rewrite Heq; split; apply Qle_refl |].
    rewrite Hprod in Hy. injection Hy as <-. rewrite Heq.
    apply Qle_antisym; assumption.
Qed.

Lemma target_bitrate_formula_witness :
  FFmpeg.target_bitrate 14.5 116 = Ok 896 /\
  FFmpeg.target_bitrate 14.5 100000 = Ok 200.
Proof.
  split.
  - destruct (target_bitrate_formula 14.5 116 (default 0%Q (binary64 (14.5 * 8192))))
      as (_ & _ & H); [reflexivity | vm_compute; reflexivity | vm_compute; reflexivity |].
    exact H.
  - destruct (target_bitrate_formula 14.5 100000
                (default 0%Q (binary64 (14.5 * 8192))))
      as ((y & b & _ & Hb & _ & _ & _ & _ & H200 & _) & _);
      [reflexivity | vm_compute; reflexivity | vm_compute; reflexivity |].
    rewrite Hb. f_equal. apply H200. vm_compute. reflexivity.
Defined.

(** The float quotient can round up to the next integer: for 14.5 MB over
    the float nearest to 102.4 s the exact quotient lies just below 1160,
    the float quotient is 1160 and the bitrate 1032, not 1031. *)
Example target_bitrate_rounds_up :
  let duration := (3602879701896397 # 35184372088832)%Q in
  FFmpeg.target_bitrate 14.5 duration = Ok 1032 /\
  Qfloor (14.5 * 8192 / duration) - 128 = 1031.
Proof. vm_compute. split; reflexivity. Qed.

(** ** The retry policy of the AI calls *)

Section Retry.
Import Gemini.
Variable generate_content : nat -> result Response.

Lemma retry_loop_unroll (k : nat) : forall a n,
  (a + k < MAX_RETRIES)%nat -> (k <= n)%nat ->
  (forall i, (a <= i < a + k)%nat ->
     exists e, generate_content i = Raise e /\ is_transient e = true) ->
  retry_loop generate_content (seq a n) =
    ((retry_loop generate_content (seq (a + k) (n - k))).1,
     (backoff a k ++ (retry_loop generate_content (seq (a + k) (n - k))).2)%list).
Proof.
  induction k as [| k IH]; intros a n Hlt Hle Htr.
  - rewrite Nat.add_0_r, Nat.sub_0_r. cbn.
    destruct (retry_loop generate_content (seq a n)); reflexivity.
  - destruct n as [| n]; [lia |].
    destruct (Htr a ltac:(lia)) as (e & He & Ht).
    cbn [seq retry_loop]. rewrite He, Ht.
    assert (Hlast : (a <? MAX_RETRIES - 1)%nat = true)
      by (apply Nat.ltb_lt; lia).
    rewrite Hlast.
    rewrite (IH (S a) n) by (first [lia | intros i Hi; apply Htr; lia]).
    replace (S a + k)%nat with (a + S k)%nat by lia.
    replace (S n - S k)%nat with (n - k)%nat by lia.
    destruct (retry_loop generate_content (seq (a + S k) (n - k))).
    reflexivity.
Qed.

Lemma generate_with_retry_at (k : nat) :
  (k < MAX_RETRIES)%nat -> transient_until generate_content k ->
  generate_with_retry generate_content =
    ((retry_loop generate_content (seq k (MAX_RETRIES - k))).1,
     (backoff 0 k ++
      (retry_loop generate_content (seq k (MAX_RETRIES - k))).2)%list).
Proof.
  intros Hk Htr. unfold generate_with_retry.
  rewrite (retry_loop_unroll k 0 MAX_RETRIES); try lia.
  - reflexivity.
  - intros i Hi. apply Htr. lia.
Qed.

(** The loop on its own: a response or an error that is not transient
    ends it at once; ten transient failures end it with the quota
    message, after sleeps for attempts 0 to 8 only. *)
Lemma generate_with_retry_policy :
  (forall k, (k < MAX_RETRIES)%nat -> transient_until generate_content k ->
     (forall response, generate_content k = Ok response ->
        generate_with_retry generate_content =
          (Broke response, (backoff 0 k ++ [Called k])%list)) /\
     (forall e, generate_content k = Raise e -> is_transient e = false ->
        generate_with_retry generate_content =
          (Raised e, (backoff 0 k ++ [Called k])%list))) /\
  (transient_until generate_content MAX_RETRIES ->
     generate_with_retry generate_content =
       (Returned quota_message,
        (backoff 0 (MAX_RETRIES - 1) ++ [Called (MAX_RETRIES - 1)])%list)).
Proof.
  split.
  - intros k Hk Htr.
    pose proof (generate_with_retry_at k Hk Htr) as Hat.
    assert (Hseq : seq k (MAX_RETRIES - k) =
                   k :: seq (S k) (MAX_RETRIES - k - 1)).
    { destruct (MAX_RETRIES - k)%nat eqn:E; [lia |].
      cbn. rewrite Nat.sub_0_r. reflexivity. }
    rewrite Hseq in Hat. cbn [retry_loop] in Hat.
    split.
    + intros response Hr. rewrite Hr in Hat. exact Hat.
    + intros e He Hnt. rewrite He, Hnt in Hat. exact Hat.
  - intros Htr.
    assert (Hprev : transient_until generate_content (MAX_RETRIES - 1))
      by (intros i Hi; apply Htr; unfold MAX_RETRIES in *; lia).
    rewrite (generate_with_retry_at (MAX_RETRIES - 1));
      [| unfold MAX_RETRIES; lia | exact Hprev].
    destruct (Htr (MAX_RETRIES - 1)%nat) as (e & He & Ht);
      [unfold MAX_RETRIES; lia |].
    change (seq (MAX_RETRIES - 1) (MAX_RETRIES - (MAX_RETRIES - 1)))
      with [(MAX_RETRIES - 1)%nat].
    cbn [retry_loop]. rewrite He, Ht. reflexivity.
Qed.

End Retry.

(** What the three methods return once the loop is left with [x] after
    the events [evs]. *)
Lemma methods_after_loop (cl : Gemini.Client) (x : Gemini.LoopExit)
    (evs : list Gemini.Event) :
  Gemini.configured cl = true ->
  Gemini.generate_with_retry (Gemini.generate_content cl) = (x, evs) ->
  Gemini.quick_translate cl = (Gemini.after_loop cl "Parse error" false x, evs) /\
  Gemini.generate_metadata cl = (Gemini.after_loop cl "Parse error" true x, evs) /\
  forall fuel video_path evs0,
    Gemini.upload_ready cl fuel video_path evs0 ->
    Gemini.analyze_video cl fuel video_path =
      Some (Gemini.after_loop cl "Failed to parse Gemini response" true x,
            (Gemini.Uploaded :: evs0 ++ evs)%list).
Proof.
  intros Hc Hloop.
  unfold Gemini.quick_translate, Gemini.generate_metadata, Gemini.analyze_video.
  rewrite Hc, Hloop. cbn [negb].
  split; [reflexivity |]. split; [reflexivity |].
  intros fuel video_path evs0 (state0 & state & Hup & Hwait & Hst).
  rewrite Hup, Hwait, Hst. reflexivity.
Qed.

Lemma wait_for_processing_budget (cl : Gemini.Client) : forall fuel polls state x evs,
  Gemini.wait_for_processing cl fuel polls state = Some (x, evs) ->
  Gemini.calls_made evs = 0%nat /\
  (Gemini.polls_made evs <= fuel)%nat /\
  Gemini.time_slept evs = 2 * Z.of_nat (Gemini.polls_made evs).
Proof.
  induction fuel as [| fuel IH]; intros polls state x evs;
    cbn [Gemini.wait_for_processing];
    destruct (String.eqb state "PROCESSING").
  - discriminate.
  - intros H. injection H as <- <-. cbn. lia.
  - destruct (Gemini.files_get cl polls) as [state' | e].
    + destruct (Gemini.wait_for_processing cl fuel (S polls) state')
        as [[x' evs'] |] eqn:Ew; [| discriminate].
      intros H. injection H as <- <-.
      destruct (IH _ _ _ _ Ew) as (Hc & Hp & Hs).
      change (Gemini.calls_made (Gemini.Slept 2 :: Gemini.Polled polls :: evs'))
        with (Gemini.calls_made evs').
      change (Gemini.polls_made (Gemini.Slept 2 :: Gemini.Polled polls :: evs'))
        with (S (Gemini.polls_made evs')).
      change (Gemini.time_slept (Gemini.Slept 2 :: Gemini.Polled polls :: evs'))
        with (2 + Gemini.time_slept evs').
      split; [exact Hc |]. split; lia.
    + intros H. injection H as <- <-. cbn. lia.
  - intros H. injection H as <- <-. cbn. lia.
Qed.

(** C7, as stated for every call of the AI service, fails on the code:
    a rate-limit error of the upload, or of a poll of the upload, is not
    retried, and an error of the upload that is not transient does not
    propagate; each comes back as an error dict after that one call. *)
Lemma upload_error_is_not_retried :
  let busy := Exception "429 Too Many Requests" in
  let answers := fun _ : nat => Ok (Scenario.answer "{}") in
  Gemini.is_transient busy = true /\
  Gemini.analyze_video
    (Scenario.client_with (Raise busy) (fun _ => Ok "ACTIVE") answers)
    1 "talk.mp4"
  = Some (Ok (Gemini.ErrorReply "Failed to upload video: 429 Too Many Requests"),
          [Gemini.Uploaded]) /\
  Gemini.analyze_video
    (Scenario.client_with (Ok "PROCESSING") (fun _ => Raise busy) answers)
    1 "talk.mp4"
  = Some (Ok (Gemini.ErrorReply "Failed to upload video: 429 Too Many Requests"),
          [Gemini.Uploaded; Gemini.Slept 2; Gemini.Polled 0]) /\
  Gemini.is_transient (OSError "No such file: talk.mp4") = false /\
  Gemini.analyze_video
    (Scenario.client_with (Raise (OSError "No such file: talk.mp4"))
       (fun _ => Ok "ACTIVE") answers)
    1 "talk.mp4"
  = Some (Ok (Gemini.ErrorReply "Failed to upload video: No such file: talk.mp4"),
          [Gemini.Uploaded]).
Proof. vm_compute. repeat split; reflexivity. Qed.

(** C7 (amended).  The calls of the model ([generate_content]) made by
    [analyze_video], [quick_translate] and [generate_metadata]: while the
    errors are transient the call is repeated, sleeping [5 * 2 ^ i]
    seconds after failed attempt [i]; a response ends the loop and is
    parsed; an error that is not transient is raised at once, without a
    further call; and ten transient failures in a row end with the
    quota-exceeded error dict, returned, not raised, after sleeps for
    attempts 0 to 8 only.  The upload and the polls of [analyze_video]
    are outside this policy: an error of theirs, of whatever kind, is
    neither retried nor raised but returned as an error dict. *)
Theorem retry_policy (cl : Gemini.Client) :
  Gemini.configured cl = true ->
  let generate_content := Gemini.generate_content cl in
  let returns (r : string -> bool -> result Gemini.Reply)
              (evs : list Gemini.Event) :=
    Gemini.quick_translate cl = (r "Parse error" false, evs) /\
    Gemini.generate_metadata cl = (r "Parse error" true, evs) /\
    forall fuel video_path evs0,
      Gemini.upload_ready cl fuel video_path evs0 ->
      Gemini.analyze_video cl fuel video_path =
        Some (r "Failed to parse Gemini response" true,
              (Gemini.Uploaded :: evs0 ++ evs)%list) in
  (forall k, (k < Gemini.MAX_RETRIES)%nat ->
     Gemini.transient_until generate_content k ->
     (forall response, generate_content k = Ok response ->
        returns (fun parse_error assigns =>
                   Gemini.parse_response cl parse_error assigns response)
                (Gemini.backoff 0 k ++ [Gemini.Called k])%list) /\
     (forall e, generate_content k = Raise e -> Gemini.is_transient e = false ->
        returns (fun _ _ => Raise e)
                (Gemini.backoff 0 k ++ [Gemini.Called k])%list)) /\
  (Gemini.transient_until generate_content Gemini.MAX_RETRIES ->
     returns (fun _ _ => Ok (Gemini.ErrorReply Gemini.quota_message))
             (Gemini.backoff 0 (Gemini.MAX_RETRIES - 1)
              ++ [Gemini.Called (Gemini.MAX_RETRIES - 1)])%list) /\
  (forall fuel video_path e,
     Gemini.files_upload cl video_path = Raise e ->
     Gemini.analyze_video cl fuel video_path =
       Some (Ok (Gemini.ErrorReply ("Failed to upload video: " ++ str_of_exn e)),
             [Gemini.Uploaded])) /\
  (forall fuel video_path state e evs,
     Gemini.files_upload cl video_path = Ok state ->
     Gemini.wait_for_processing cl fuel 0 state = Some (Raise e, evs) ->
     Gemini.analyze_video cl fuel video_path =
       Some (Ok (Gemini.ErrorReply ("Failed to upload video: " ++ str_of_exn e)),
             Gemini.Uploaded :: evs) /\
     Gemini.calls_made evs = 0%nat).
Proof.
  intros Hc. cbn zeta.
  destruct (generate_with_retry_policy (Gemini.generate_content cl))
    as [Hstep Hquota].
  split; [| split; [| split]].
  - intros k Hk Htr. destruct (Hstep k Hk Htr) as [Hok Hraise]. split.
    + intros response Hr.
      exact (methods_after_loop cl _ _ Hc (Hok response Hr)).
    + intros e He Hnt.
      exact (methods_after_loop cl _ _ Hc (Hraise e He Hnt)).
  - intros Htr. exact (methods_after_loop cl _ _ Hc (Hquota Htr)).
  - intros fuel video_path e Hup. unfold Gemini.analyze_video.
    rewrite Hc, Hup. reflexivity.
  - intros fuel video_path state e evs Hup Hwait. split.
    + unfold Gemini.analyze_video. rewrite Hc, Hup, Hwait. reflexivity.
    + exact (proj1 (wait_for_processing_budget cl _ _ _ _ _ Hwait)).
Qed.

(** Two runs of [quick_translate]: two rate-limit errors and then a
    response; and a model that is busy on every attempt. *)
Lemma retry_policy_witness :
  Gemini.quick_translate
    (Scenario.client_with (Ok "ACTIVE") (fun _ => Ok "ACTIVE")
       (fun i => if (i <? 2)%nat then Raise (Exception "429 Too Many Requests")
                 else Ok (Scenario.answer "{}")))
  = (Ok (Gemini.ResultReply "{}"),
     [Gemini.Called 0; Gemini.Slept 5; Gemini.Called 1; Gemini.Slept 10;
      Gemini.Called 2]) /\
  (Gemini.quick_translate
     (Scenario.client_with (Ok "ACTIVE") (fun _ => Ok "ACTIVE")
        (fun _ => Raise (Exception "503 overloaded")))).1
  = Ok (Gemini.ErrorReply Gemini.quota_message).
Proof.
  split.
  - destruct (retry_policy
                (Scenario.client_with (Ok "ACTIVE") (fun _ => Ok "ACTIVE")
                   (fun i => if (i <? 2)%nat
                             then Raise (Exception "429 Too Many Requests")
                             else Ok (Scenario.answer "{}")))
                eq_refl) as [Hstep _].
    destruct (Hstep 2%nat) as [Hok _].
    + unfold Gemini.MAX_RETRIES. lia.
    + intros i Hi. exists (Exception "429 Too Many Requests").
      destruct i as [| [| i]]; [split; reflexivity | split; reflexivity | lia].
    + destruct (Hok (Scenario.answer "{}") eq_refl) as [Hq _].
      rewrite Hq. reflexivity.
  - destruct (retry_policy
                (Scenario.client_with (Ok "ACTIVE") (fun _ => Ok "ACTIVE")
                   (fun _ => Raise (Exception "503 overloaded")))
                eq_refl) as (_ & Hquota & _).
    destruct Hquota as [Hq _].
    + intros i _. exists (Exception "503 overloaded"). split; reflexivity.
    + rewrite Hq. reflexivity.
Defined.

(** ** The speech synthesis coordinator *)

Lemma segments_loop_spec (eng : TTS.Engine) (dir lang gender : string)
    (segs : list TtsSegment) : forall i acc,
  TTS.segments_loop eng dir lang gender i segs acc =
  (acc ++ omap id (imap (fun j => TTS.audio_of eng dir lang gender (i + j)) segs))%list.
Proof.
  induction segs as [| seg segs IH]; intros i acc.
  - cbn. rewrite app_nil_r. reflexivity.
  - rewrite imap_cons. cbn [TTS.segments_loop omap list_omap id].
    rewrite Nat.add_0_r.
    assert (Hext : imap ((fun j => TTS.audio_of eng dir lang gender (i + j)) ∘ S) segs
                   = imap (fun j => TTS.audio_of eng dir lang gender (S i + j)) segs).
    { apply imap_ext. intros j x _. cbn. f_equal. lia. }
    rewrite Hext. unfold TTS.audio_of at 1.
    unfold TTS.segment_text, TTS.segment_file_path.
    destruct (truthy (default "" (tts_translated_text seg))); cbn [negb].
    + destruct (TTS.generate_audio_segment _ _ _ _ _); rewrite IH.
      * rewrite <- app_assoc. reflexivity.
      * reflexivity.
    + apply IH.
Qed.

Lemma produced_texts_sublist (eng : TTS.Engine) (dir lang gender : string)
    (segs : list TtsSegment) : forall i,
  sublist (TTS.text <$> omap id (imap (fun j => TTS.audio_of eng dir lang gender (i + j)) segs))
          (TTS.segment_text <$> segs).
Proof.
  induction segs as [| seg segs IH]; intros i.
  - cbn. constructor.
  - rewrite imap_cons. cbn [omap list_omap id fmap list_fmap].
    assert (Hext : imap ((fun j => TTS.audio_of eng dir lang gender (i + j)) ∘ S) segs
                   = imap (fun j => TTS.audio_of eng dir lang gender (S i + j)) segs).
    { apply imap_ext. intros j x _. cbn. f_equal. lia. }
    rewrite Hext. specialize (IH (S i)).
    unfold TTS.audio_of at 1.
    destruct (negb (truthy (TTS.segment_text seg))).
    + apply sublist_cons. exact IH.
    + destruct (TTS.generate_audio_segment _ _ _ _ _).
      * cbn. apply sublist_skip. exact IH.
      * apply sublist_cons. exact IH.
Qed.

Lemma audio_of_None (eng : TTS.Engine) (dir lang gender : string) (i : nat)
    (seg : TtsSegment) :
  TTS.audio_of eng dir lang gender i seg = None <->
  truthy (TTS.segment_text seg) = false \/
  TTS.synthesis_fails eng dir lang gender i seg.
Proof.
  unfold TTS.audio_of, TTS.synthesis_fails.
  destruct (truthy (TTS.segment_text seg)) eqn:Et; cbn [negb].
  - destruct (TTS.generate_audio_segment _ _ _ _ _) eqn:Eg; split.
    + discriminate.
    + intros [Hf | (_ & err & fp & Hf)]; discriminate.
    + intros _. right. split; [reflexivity | eauto].
    + reflexivity.
  - split; [intros _; left; reflexivity | reflexivity].
Qed.

(** C2, as stated, fails on the code: a segment with text whose synthesis
    fails does not make the call raise. *)
Lemma failed_synthesis_does_not_abort :
  ~ (forall eng dir segs lang gender i seg,
       segs !! i = Some seg ->
       TTS.synthesis_fails eng dir lang gender i seg ->
       exists e,
         TTS.generate_segments_from_analysis eng dir segs lang gender = Raise e).
Proof.
  intros H.
  destruct (H Scenario.mute_engine "out" [Scenario.tts_segment "namaste"]
              "hindi" "female" 0%nat (Scenario.tts_segment "namaste"))
    as [e He].
  - reflexivity.
  - split; [reflexivity |]. eexists _, _. vm_compute. reflexivity.
  - discriminate He.
Qed.

Example failed_synthesis_yields_nothing :
  TTS.generate_segments_from_analysis Scenario.mute_engine "out"
    [Scenario.tts_segment "namaste"] "hindi" "female" = Ok [].
Proof. vm_compute. reflexivity. Qed.

(** C2 (amended).  For every input segment list the coordinator returns
    normally; the audio resources it returns are in the order of the input
    segments; the segment at index [i] contributes nothing exactly when its
    translated text is empty or its synthesis fails, and in both cases the
    call goes on with the next segment. *)
Theorem synthesis_keeps_order (eng : TTS.Engine) (dir lang gender : string)
    (segs : list TtsSegment) :
  let produced := omap id (imap (TTS.audio_of eng dir lang gender) segs) in
  TTS.generate_segments_from_analysis eng dir segs lang gender = Ok produced /\
  sublist (TTS.text <$> produced) (TTS.segment_text <$> segs) /\
  (forall i seg, segs !! i = Some seg ->
     (TTS.audio_of eng dir lang gender i seg = None <->
      truthy (TTS.segment_text seg) = false \/
      TTS.synthesis_fails eng dir lang gender i seg)).
Proof.
  cbn zeta. split; [| split].
  - unfold TTS.generate_segments_from_analysis.
    rewrite segments_loop_spec. reflexivity.
  - apply (produced_texts_sublist eng dir lang gender segs 0).
  - intros i seg _. apply audio_of_None.
Qed.

Lemma synthesis_keeps_order_witness :
  TTS.text <$> omap id (imap (TTS.audio_of Scenario.good_engine "out" "hindi" "female")
                          [Scenario.tts_segment "ek"; Scenario.tts_segment "";
                           Scenario.tts_segment "do"])
  = ["ek"; "do"] /\
  TTS.audio_of Scenario.good_engine "out" "hindi" "female" 1
    (Scenario.tts_segment "") = None.
Proof.
  destruct (synthesis_keeps_order Scenario.good_engine "out" "hindi" "female"
              [Scenario.tts_segment "ek"; Scenario.tts_segment "";
               Scenario.tts_segment "do"]) as (_ & _ & H).
  split.
  - vm_compute. reflexivity.
  - apply (H 1%nat); [reflexivity | left; reflexivity].
Defined.

(** ** The subtitle document *)

(** The lines the loop appends are the lines of the blocks. *)
Lemma vtt_loop_spec (segs : list Segment) : forall idx acc,
  Video.vtt_loop idx segs acc =
  (acc ++ flat_map Video.cue_lines (Video.vtt_cues idx segs))%list.
Proof.
  induction segs as [| seg segs IH]; intros idx acc.
  - cbn. rewrite app_nil_r. reflexivity.
  - cbn [Video.vtt_loop Video.vtt_cues].
    destruct (negb (truthy (strip (default "" (translated_text seg))))).
    + apply IH.
    + rewrite IH. cbn [flat_map]. rewrite <- app_assoc. reflexivity.
Qed.

(** A block numbered [n] stems from the non-blank segment at position
    [n - 1 - idx] of the list the loop still has to visit. *)
Lemma vtt_cues_elem (segs : list Segment) : forall idx c,
  c ∈ Video.vtt_cues idx segs <->
  exists j seg, segs !! j = Some seg /\ Video.blank seg = false /\
    c = {| Video.cue_number := idx + j + 1;
           Video.cue_start := default 0%Q (start seg);
           Video.cue_end := default 0%Q (end_ seg);
           Video.cue_text := strip (default "" (translated_text seg)) |}.
Proof.
  induction segs as [| seg segs IH]; intros idx c.
  - cbn. split.
    + intros H. inversion H.
    + intros (j & s & H & _). discriminate H.
  - cbn [Video.vtt_cues]. fold (Video.blank seg).
    destruct (Video.blank seg) eqn:Eb.
    + rewrite IH. split.
      * intros (j & s & Hj & Hb & ->). exists (S j), s.
        repeat split; try assumption. f_equal. lia.
      * intros (j & s & Hj & Hb & ->). destruct j as [| j].
        -- cbn in Hj. inversion Hj; subst. congruence.
        -- exists j, s. repeat split; try assumption. f_equal. lia.
    + rewrite elem_of_cons, IH. split.
      * intros [-> | (j & s & Hj & Hb & ->)].
        -- exists 0%nat, seg. repeat split; try assumption.
           f_equal. lia.
        -- exists (S j), s. repeat split; try assumption. f_equal. lia.
      * intros (j & s & Hj & Hb & ->). destruct j as [| j].
        -- left. cbn in Hj. inversion Hj; subst. f_equal. lia.
        -- right. exists j, s. repeat split; try assumption. f_equal. lia.
Qed.

Lemma vtt_cues_numbers_above (segs : list Segment) : forall idx,
  Forall (fun n => idx < n)%nat (Video.cue_number <$> Video.vtt_cues idx segs).
Proof.
  induction segs as [| seg segs IH]; intros idx; cbn [Video.vtt_cues].
  - constructor.
  - destruct (negb _).
    + eapply Forall_impl; [apply (IH (S idx)) |]. cbn. intros; lia.
    + cbn. constructor; [lia |].
      eapply Forall_impl; [apply (IH (S idx)) |]. cbn. intros; lia.
Qed.

Lemma vtt_cues_increasing (segs : list Segment) : forall idx,
  StronglySorted lt (Video.cue_number <$> Video.vtt_cues idx segs).
Proof.
  induction segs as [| seg segs IH]; intros idx; cbn [Video.vtt_cues].
  - constructor.
  - destruct (negb _).
    + apply IH.
    + cbn. constructor; [apply IH |].
      eapply Forall_impl; [apply (vtt_cues_numbers_above segs (S idx)) |].
      cbn. intros; lia.
Qed.

Lemma vtt_cues_length (segs : list Segment) : forall idx,
  length (Video.vtt_cues idx segs) =
  length (List.filter (fun seg => negb (Video.blank seg)) segs).
Proof.
  induction segs as [| seg segs IH]; intros idx; cbn [Video.vtt_cues List.filter].
  - reflexivity.
  - fold (Video.blank seg). destruct (Video.blank seg); cbn; rewrite IH; reflexivity.
Qed.

Lemma vtt_cues_all_text (segs : list Segment) : forall idx,
  Forall (fun seg => Video.blank seg = false) segs ->
  Video.cue_number <$> Video.vtt_cues idx segs = seq (S idx) (length segs).
Proof.
  induction segs as [| seg segs IH]; intros idx Hall; cbn [Video.vtt_cues].
  - reflexivity.
  - inversion Hall as [| ? ? Hb Hrest]; subst.
    fold (Video.blank seg). rewrite Hb. cbn. rewrite IH by assumption.
    f_equal. lia.
Qed.

(** The blocks are numbered 1, 2, 3, ... exactly when every segment that
    comes after a blank one is blank as well. *)
Lemma vtt_cues_nil (segs : list Segment) : forall idx,
  Video.vtt_cues idx segs = [] <->
  (forall j sj, segs !! j = Some sj -> Video.blank sj = true).
Proof.
  induction segs as [| seg segs IH]; intros idx; cbn [Video.vtt_cues].
  - split; [intros _ j sj H; discriminate H | reflexivity].
  - fold (Video.blank seg). destruct (Video.blank seg) eqn:Eb.
    + rewrite IH. split.
      * intros H [| j] sj Hj; [injection Hj as <-; exact Eb | exact (H j sj Hj)].
      * intros H j sj Hj. exact (H (S j) sj Hj).
    + split; [discriminate |]. intros H.
      specialize (H 0%nat seg eq_refl). congruence.
Qed.

Lemma vtt_cues_consecutive (segs : list Segment) : forall idx,
  Video.cue_number <$> Video.vtt_cues idx segs
    = seq (S idx) (length (Video.vtt_cues idx segs)) <->
  (forall i j si sj, (i < j)%nat ->
     segs !! i = Some si -> segs !! j = Some sj ->
     Video.blank si = true -> Video.blank sj = true).
Proof.
  induction segs as [| seg segs IH]; intros idx.
  - split; [intros _ i j si sj _ H; discriminate H | reflexivity].
  - cbn [Video.vtt_cues]. fold (Video.blank seg).
    destruct (Video.blank seg) eqn:Eb.
    + split.
      * intros Hnum.
        assert (Hnil : Video.vtt_cues (S idx) segs = []).
        { pose proof (vtt_cues_numbers_above segs (S idx)) as Habove.
          destruct (Video.vtt_cues (S idx) segs) as [| c cs]; [reflexivity |].
          exfalso. cbn in Hnum. injection Hnum as Hc _.
          inversion Habove as [| ? ? Hlt _]; subst. lia. }
        intros [| i] [| j] si sj Hij Hi Hj Hb; try lia.
        -- exact (proj1 (vtt_cues_nil segs (S idx)) Hnil j sj Hj).
        -- exact (proj1 (vtt_cues_nil segs (S idx)) Hnil j sj Hj).
      * intros Htr.
        assert (Hnil : Video.vtt_cues (S idx) segs = []).
        { apply vtt_cues_nil. intros j sj Hj.
          apply (Htr 0%nat (S j) seg sj); [lia | reflexivity | exact Hj | exact Eb]. }
        rewrite Hnil. reflexivity.
    + cbn [fmap list_fmap length seq Video.cue_number].
      replace (idx + 1)%nat with (S idx) by lia. split.
      * intros Hnum. injection Hnum as Hnum.
        pose proof (proj1 (IH (S idx)) Hnum) as Hrest.
        intros [| i] [| j] si sj Hij Hi Hj Hb; try lia.
        -- injection Hi as <-. congruence.
        -- exact (Hrest i j si sj ltac:(lia) Hi Hj Hb).
      * intros Htr. f_equal. apply (proj2 (IH (S idx))).
        intros i j si sj Hij Hi Hj Hb.
        exact (Htr (S i) (S j) si sj ltac:(lia) Hi Hj Hb).
Qed.

(** C5, as stated, fails on the code: with a whitespace-only segment
    between two others the blocks are numbered 1 and 3, not 1 and 2. *)
Lemma skipped_segment_consumes_number :
  Video.vtt_lines Scenario.three_segments =
    ["WEBVTT"; "";
     "1"; "00:00:02.000 --> 00:00:05.000"; "A"; "";
     "3"; "00:00:09.000 --> 00:00:12.000"; "B"; ""] /\
  Video.cue_number <$> Video.vtt_cues 0 Scenario.three_segments <> [1; 2]%nat.
Proof. split; [vm_compute; reflexivity | vm_compute; discriminate]. Qed.

(** C5 (amended).  In the subtitle document, segments whose translated
    text is empty or whitespace-only produce no caption block; every other
    segment produces one block, in order, whose number is the 1-based
    position of the segment in the approved list.  The numbers therefore
    increase strictly; they are 1, 2, 3, ... exactly when no excluded
    segment comes before an emitted one, so in particular when no segment
    is excluded. *)
Theorem subtitle_blocks (segs : list Segment) :
  let cues := Video.vtt_cues 0 segs in
  Video.vtt_lines segs = (["WEBVTT"; ""] ++ flat_map Video.cue_lines cues)%list /\
  (forall c, c ∈ cues <->
     exists j seg, segs !! j = Some seg /\ Video.blank seg = false /\
       c = {| Video.cue_number := j + 1;
              Video.cue_start := default 0%Q (start seg);
              Video.cue_end := default 0%Q (end_ seg);
              Video.cue_text := strip (default "" (translated_text seg)) |}) /\
  length cues = length (List.filter (fun seg => negb (Video.blank seg)) segs) /\
  StronglySorted lt (Video.cue_number <$> cues) /\
  (Video.cue_number <$> cues = seq 1 (length cues) <->
   forall i j si sj, (i < j)%nat ->
     segs !! i = Some si -> segs !! j = Some sj ->
     Video.blank si = true -> Video.blank sj = true) /\
  (Forall (fun seg => Video.blank seg = false) segs ->
   Video.cue_number <$> cues = seq 1 (length segs)).
Proof.
  cbn zeta. repeat split.
  - unfold Video.vtt_lines. apply vtt_loop_spec.
  - intros H. apply vtt_cues_elem in H. exact H.
  - intros H. apply vtt_cues_elem. exact H.
  - apply vtt_cues_length.
  - apply vtt_cues_increasing.
  - apply vtt_cues_consecutive.
  - apply vtt_cues_consecutive.
  - apply vtt_cues_all_text.
Qed.

(** Two segments with text are numbered 1 and 2, and so are two segments
    with text followed by a blank one. *)
Lemma subtitle_blocks_witness :
  Video.cue_number <$>
    Video.vtt_cues 0 [Scenario.segment 2 5 "A"; Scenario.segment 5 9 "B"]
  = [1; 2]%nat /\
  Video.cue_number <$>
    Video.vtt_cues 0 [Scenario.segment 2 5 "A"; Scenario.segment 5 9 "B";
                      Scenario.segment 9 12 "   "]
  = [1; 2]%nat.
Proof.
  split.
  - destruct (subtitle_blocks [Scenario.segment 2 5 "A"; Scenario.segment 5 9 "B"])
      as (_ & _ & _ & _ & _ & H).
    apply H. repeat constructor.
  - destruct (subtitle_blocks [Scenario.segment 2 5 "A"; Scenario.segment 5 9 "B";
                               Scenario.segment 9 12 "   "])
      as (_ & _ & _ & _ & H & _).
    apply (proj2 H).
    intros [| [| [| i]]] [| [| [| j]]] si sj Hij Hi Hj Hb;
      try lia; try discriminate Hi; try discriminate Hj;
      injection Hi as <-; vm_compute in Hb; discriminate Hb.
Defined.

Example subtitle_document :
  Video.vtt_content [Scenario.segment 2 5 "A"; Scenario.segment 5 9 "B"] =
  join_lines ["WEBVTT"; "";
              "1"; "00:00:02.000 --> 00:00:05.000"; "A"; "";
              "2"; "00:00:05.000 --> 00:00:09.000"; "B"; ""].
Proof. vm_compute. reflexivity. Qed.

(** ** The [/finalize] endpoint *)

(** C6.  A finalize request without a job id, or with an empty list of
    approved segments, is rejected with status 400 and leaves the whole
    state as it was: no job field changes, nothing is written to the
    history table and no task is queued.  A well-formed request for a job
    id that is not in the registry is rejected with status 404, the state
    again untouched. *)
Theorem finalize_rejects_invalid (env : Video.Env)
    (request : Video.FinalizeRequest) (user_sub : option string)
    (w : Video.State) :
  (truthy_opt (Video.req_job_id request) = false \/
   default [] (Video.req_approved_segments request) = [] ->
   exists detail,
     Video.finalize_dubbing env request user_sub w =
       (Raise (HTTPException 400 detail), w)) /\
  (forall job_id,
     Video.req_job_id request = Some job_id -> truthy job_id = true ->
     default [] (Video.req_approved_segments request) <> [] ->
     Video.jobs w !! job_id = None ->
     Video.finalize_dubbing env request user_sub w =
       (Raise (HTTPException 404 "Job not found"), w)).
Proof.
  split.
  - intros H. unfold Video.finalize_dubbing.
    destruct (Video.req_job_id request) as [job_id |]; [| eauto].
    destruct (truthy job_id) eqn:Et; cbn [negb]; [| eauto].
    destruct H as [H | H]; [cbn in H; congruence |].
    rewrite H. eauto.
  - intros job_id Hid Ht Hne Hjob. unfold Video.finalize_dubbing.
    rewrite Hid, Ht. cbn [negb].
    destruct (default [] (Video.req_approved_segments request)); [congruence |].
    rewrite Hjob. reflexivity.
Qed.

Lemma finalize_rejects_invalid_witness :
  (exists detail,
     Video.finalize_dubbing Scenario.env_src
       {| Video.req_job_id := Some "job-0001";
          Video.req_approved_segments := Some [] |}
       (Some "user_1") Scenario.state0 =
     (Raise (HTTPException 400 detail), Scenario.state0)) /\
  Video.finalize_dubbing Scenario.env_src
    {| Video.req_job_id := Some "job-9999";
       Video.req_approved_segments := Some Scenario.approved |}
    (Some "user_1") Scenario.state0 =
  (Raise (HTTPException 404 "Job not found"), Scenario.state0).
Proof.
  split.
  - apply finalize_rejects_invalid. right. reflexivity.
  - apply (proj2 (finalize_rejects_invalid _ _ _ _) "job-9999").
    + reflexivity.
    + reflexivity.
    + discriminate.
    + vm_compute. reflexivity.
Defined.

(** ** The history table *)

Lemma get_video_by_job_id_In (cn : DB.Conn) (t : DB.Table) (user_id job_id : string)
    (video : gmap string DB.attr) :
  DB.get_video_by_job_id cn t user_id job_id = Some video ->
  In video (DB.rows t).
Proof.
  unfold DB.get_video_by_job_id.
  destruct (negb (DB.is_configured cn)); [discriminate |].
  destruct (DB.query_error cn); [discriminate |].
  intros H. apply head_Some in H as [l' Hl].
  assert (Hin : In video (List.filter
            (fun r => DB.attr_is_str (r !! "PK") ("USER#" ++ user_id)
                      && DB.attr_begins_with (r !! "SK") "VIDEO#"
                      && DB.attr_is_str (r !! "job_id") job_id) (DB.rows t)))
    by (rewrite Hl; left; reflexivity).
  apply filter_In in Hin. tauto.
Qed.

(** On a table without ["video"] attributes the lookup never yields a
    key to update. *)
Lemma locate_without_video (cn : DB.Conn) (t : DB.Table) (user_id job_id : string) :
  Video.no_video_attr t ->
  forall pk sk, DB.locate cn t user_id job_id <> Ok (inr (pk, sk)).
Proof.
  intros Hinv pk sk. unfold DB.locate.
  destruct (DB.get_video_by_job_id cn t user_id job_id) as [video |] eqn:E;
    [| discriminate].
  apply get_video_by_job_id_In in E.
  unfold Video.no_video_attr in Hinv. rewrite List.Forall_forall in Hinv.
  rewrite (Hinv video E). cbn.
  destruct (bool_decide (is_Some (video !! "error"))); discriminate.
Qed.

Lemma update_job_status_table (cn : DB.Conn) (user_id job_id status : string)
    (output_url output_s3_key subtitle_s3_key : option string) (t : DB.Table) :
  Video.no_video_attr t ->
  (DB.update_job_status cn user_id job_id status output_url output_s3_key
     subtitle_s3_key t).2 = t.
Proof.
  intros Hinv. unfold DB.update_job_status.
  destruct (negb (DB.is_configured cn)); [reflexivity |].
  pose proof (locate_without_video cn t user_id job_id Hinv) as Hloc.
  destruct (DB.locate cn t user_id job_id) as [[reply | [pk sk]] | e];
    try reflexivity.
  exfalso. apply (Hloc pk sk). reflexivity.
Qed.

Lemma update_job_segments_table (cn : DB.Conn) (user_id job_id : string)
    (segments : list Segment) (status : option string) (t : DB.Table) :
  Video.no_video_attr t ->
  (DB.update_job_segments cn user_id job_id segments status t).2 = t.
Proof.
  intros Hinv. unfold DB.update_job_segments.
  destruct (negb (DB.is_configured cn)); [reflexivity |].
  pose proof (locate_without_video cn t user_id job_id Hinv) as Hloc.
  destruct (DB.locate cn t user_id job_id) as [[reply | [pk sk]] | e];
    try reflexivity.
  exfalso. apply (Hloc pk sk). reflexivity.
Qed.

Lemma set_attrs_other (k : string) (sets : list (string * DB.attr)) :
  forall it, Forall (fun kv => kv.1 <> k) sets ->
  DB.set_attrs sets it !! k = it !! k.
Proof.
  unfold DB.set_attrs.
  induction sets as [| kv sets IH]; intros it Hall; cbn.
  - reflexivity.
  - inversion Hall; subst. rewrite IH by assumption.
    apply lookup_insert_ne. assumption.
Qed.

Lemma opt_str_keys (k key : string) (o : option string) :
  key <> k -> Forall (fun kv : string * DB.attr => kv.1 <> k) (DB.opt_str key o).
Proof.
  intros Hne. unfold DB.opt_str.
  destruct o as [s |]; [destruct (truthy s) |]; repeat constructor; assumption.
Qed.

(** [save_video] writes no ["video"] attribute, so a table filled by it
    keeps none. *)
Lemma save_video_no_video_attr (cn : DB.Conn)
    (user_id job_id target_language input_file status : string)
    (o : DB.SaveOptions) (t : DB.Table) :
  Video.no_video_attr t ->
  Video.no_video_attr
    (DB.save_video cn user_id job_id target_language input_file status o t).2.
Proof.
  intros Hinv. unfold DB.save_video.
  destruct (negb (DB.is_configured cn)); [exact Hinv |].
  destruct (DB.write_error cn); [exact Hinv |].
  unfold Video.no_video_attr, DB.put_item in *. cbn [snd DB.rows].
  apply List.Forall_app. split.
  - rewrite List.Forall_forall in *. intros r Hr.
    apply filter_In in Hr. apply Hinv. tauto.
  - constructor; [| constructor].
    rewrite set_attrs_other; [apply lookup_empty |].
    repeat (apply List.Forall_app; split);
      try (apply opt_str_keys; discriminate);
      try (destruct (DB.so_words_localized o));
      try (destruct (DB.so_file_size_mb o));
      try (destruct (DB.so_segments_count o));
      try (destruct (DB.so_draft_segments o) as [[| ? ?] |]);
      repeat constructor; discriminate.
Qed.

(** ** Running a task symbolically

    A task is a straight-line program whose branches are decided by the
    outcomes of its external calls.  The tactics below run it: [run_step]
    splits on the innermost call whose outcome is not yet known, and
    [red_task] reduces the state up to the next one. *)

Ltac run_step :=
  match goal with
  | |- context [match ?x with _ => _ end] =>
      lazymatch x with
      | context [match _ with _ => _ end] => fail
      | negb ?y => destruct y eqn:?
      | andb ?y _ => destruct y eqn:?
      | _ => destruct x eqn:?
      end
  end.

Ltac unfold_task :=
  unfold Video.finalize_task, Video.finalize_body, Video.finalize_handler,
    Video.draft_task, Video.draft_body, Video.draft_handler,
    Video.localization_task, Video.localization_body,
    Video.localization_handler, Video.analysis_subtitles,
    Video.subtitles, Video.upload, Video.presign, Video.cleanup,
    Video.db_update_job_status, Video.when_user, Video.try_finally,
    Video.try_except, Video.set_status, Video.set_progress, Video.set_message,
    Video.set_error, Video.set_output_file, Video.set_temp_dir,
    Video.update_job, Video.emit, Video.update_results, Video.store_results,
    Video.call, Video.raise, Video.start_run,
    TTS.generate_segments_from_analysis,
    mbind, mret, Video.M_bind, Video.M_ret.

Ltac red_task :=
  cbn [Video.job Video.results Video.history Video.temp_dir Video.trace
       app fst snd negb andb].

Ltac run_task := unfold_task; repeat (red_task; run_step); red_task.

(** Facts recorded by [run_step] that the checks of a trace consult. *)
Ltac use_facts :=
  repeat match goal with
         | H : FFmpeg.success _ = _ |- _ => rewrite H
         | H : Video.Qgtb _ _ = _ |- _ => rewrite H
         | H : S3.has_error _ = _ |- _ => rewrite H
         | H : S3.get_success _ = _ |- _ => rewrite H
         end;
  repeat match goal with
         | |- context [FFmpeg.success ?a] => destruct (FFmpeg.success a) eqn:?
         end.

Ltac unfold_checks :=
  unfold Video.compact_policy_ok, Video.outcome_ok, Video.compact_attempted,
    Video.primary_over_15, Video.compact_failed, Video.compact_succeeded,
    Video.stitch_succeeded, Video.uploaded, Video.primary_stored,
    Video.presign_raised, Video.history_raised, Video.completed,
    Video.whatsapp_calls, Video.stitch_calls, Video.uploads, Video.statuses;
  cbn [omap list_omap existsb fst snd Video.is_artifact orb andb negb].

(** The history table after the updates a run has made. *)
Ltac settle_history :=
  repeat match goal with
         | H : DB.update_job_status ?cn ?u ?j ?s ?a ?b ?c (Video.table ?w) = (_, ?t')
           |- _ =>
             let E := fresh "E" in
             assert (E : t' = Video.table w)
               by (pose proof (update_job_status_table cn u j s a b c
                                 (Video.table w) ltac:(assumption)) as X;
                   rewrite H in X; exact X);
             clear H; subst t'
         end.

Ltac summary_leaf :=
  unfold Video.run_summary; red_task;
  cbn [Video.with_status Video.with_progress Video.with_message
       Video.with_error Video.with_output_file status];
  split; [reflexivity |];
  split; [unfold_checks; use_facts; reflexivity |];
  split; [unfold_checks; use_facts; reflexivity |];
  split; [cbn [Video.stitch_calls omap list_omap fst snd];
          repeat constructor; symmetry; assumption |];
  split; [reflexivity |];
  intros Hinv; settle_history; reflexivity.

(** Every run of the Phase 2 task satisfies the summary. *)
Lemma finalize_task_summary (env : Video.Env)
    (job_id file_key target_language : string)
    (approved_segments : list Segment) (user_id : option string)
    (w : Video.State) (j : LocalizationJob) :
  Video.run_summary env approved_segments w
    (Video.finalize_task env job_id file_key target_language approved_segments
       user_id (Video.start_run w j)).2.
Proof. run_task; summary_leaf. Qed.

(** Every run of the Phase 1 task keeps the progress discipline. *)
Lemma draft_task_discipline (env : Video.Env)
    (job_id file_key target_language : string) (user_id : option string)
    (w : Video.State) (j : LocalizationJob) :
  Video.discipline_ok 1
    (Video.draft_trace env job_id file_key target_language user_id w j) = true.
Proof. unfold Video.draft_trace. run_task; reflexivity. Qed.

(** Every run of the one-pass pipeline keeps the progress discipline. *)
Lemma localization_task_discipline (env : Video.Env)
    (job_id file_key target_language : string) (user_id : option string)
    (w : Video.State) (j : LocalizationJob) :
  Video.discipline_ok 1
    (Video.localization_trace env job_id file_key target_language user_id w j)
  = true.
Proof. unfold Video.localization_trace. run_task; reflexivity. Qed.

(** ** The progress discipline *)

Lemma increasing_from_sound (ps : list Z) : forall lo,
  Video.increasing_from lo ps = true ->
  StronglySorted Z.le ps /\ Forall (fun p => lo <= p) ps.
Proof.
  induction ps as [| p ps IH]; intros lo H; cbn in H.
  - split; constructor.
  - apply andb_prop in H as [Hlo Hrest]. apply Z.leb_le in Hlo.
    destruct (IH p Hrest) as [Hs Hall]. split.
    + constructor; assumption.
    + constructor; [assumption |].
      eapply Forall_impl; [exact Hall |]. cbn. intros; lia.
Qed.

Lemma no_progress_sound (evs : list Video.Event) :
  Video.no_progress evs = true -> Video.progress_values evs = [].
Proof.
  unfold Video.no_progress.
  destruct (Video.progress_values evs); [reflexivity | discriminate].
Qed.

Lemma terminal_quiet_tail (e : Video.Event) (evs : list Video.Event) :
  Video.terminal_quiet (e :: evs) = true -> Video.terminal_quiet evs = true.
Proof.
  destruct e as [s | | | | | | | | | | |]; cbn; try (intros H; exact H).
  destruct s; try (intros H; exact H);
    intros H; apply andb_prop in H; tauto.
Qed.

Lemma terminal_quiet_suffix (pre : list Video.Event) : forall evs post,
  evs = (pre ++ post)%list ->
  Video.terminal_quiet evs = true -> Video.terminal_quiet post = true.
Proof.
  induction pre as [| e pre IH]; intros evs post -> H.
  - exact H.
  - apply (IH (pre ++ post)%list post eq_refl).
    apply (terminal_quiet_tail e). exact H.
Qed.

Lemma discipline_sound (lo : Z) (evs : list Video.Event) :
  Video.discipline_ok lo evs = true ->
  Video.progress_discipline evs /\
  Forall (fun p => lo <= p <= 100) (Video.progress_values evs).
Proof.
  unfold Video.discipline_ok. intros H.
  apply andb_prop in H as [H Hq]. apply andb_prop in H as [Hinc Hmax].
  destruct (increasing_from_sound _ _ Hinc) as [Hs Hlo].
  rewrite forallb_forall in Hmax.
  split; [split; [exact Hs | split] |].
  - intros pre post E.
    pose proof (terminal_quiet_suffix pre evs _ E Hq) as Hpost.
    cbn in Hpost. apply andb_prop in Hpost as [Hnp _].
    apply no_progress_sound. exact Hnp.
  - intros pre post E.
    pose proof (terminal_quiet_suffix pre evs _ E Hq) as Hpost.
    cbn in Hpost. apply andb_prop in Hpost as [Hc _].
    destruct post as [| [| p | | | | | | | | | |] post']; try discriminate.
    apply andb_prop in Hc as [Hp Hnp]. apply Z.eqb_eq in Hp. subst p.
    exists post'. split; [reflexivity | apply no_progress_sound; exact Hnp].
  - rewrite List.Forall_forall in *. intros p Hp. split.
    + apply Hlo. exact Hp.
    + apply Z.leb_le. apply Hmax. exact Hp.
Qed.

Lemma increasing_from_weaken (ps : list Z) (lo lo' : Z) :
  lo' <= lo -> Video.increasing_from lo ps = true ->
  Video.increasing_from lo' ps = true.
Proof.
  destruct ps as [| p ps]; cbn; [reflexivity |].
  intros Hle H. apply andb_prop in H as [Hlo Hrest].
  apply Z.leb_le in Hlo. apply andb_true_intro. split; [| exact Hrest].
  apply Z.leb_le. lia.
Qed.

(** The events of the endpoint followed by those of the task. *)
Lemma phase2_discipline (m : string) (evs : list Video.Event) :
  Video.discipline_ok 1 evs = true ->
  Video.discipline_ok 0
    (Video.SetStatus PENDING :: Video.SetProgress 0 :: Video.SetMessage m :: evs) = true.
Proof.
  unfold Video.discipline_ok. intros H.
  apply andb_prop in H as [H Hq]. apply andb_prop in H as [Hinc Hmax].
  change (Video.progress_values
            (Video.SetStatus PENDING :: Video.SetProgress 0
             :: Video.SetMessage m :: evs))
    with (0 :: Video.progress_values evs).
  change (Video.terminal_quiet
            (Video.SetStatus PENDING :: Video.SetProgress 0
             :: Video.SetMessage m :: evs))
    with (Video.terminal_quiet evs).
  cbn [Video.increasing_from forallb].
  rewrite Hq, Hmax, (increasing_from_weaken _ 1 0 ltac:(lia) Hinc).
  reflexivity.
Qed.

(** What the endpoint leaves behind. *)
Lemma finalize_dubbing_cases (env : Video.Env) (request : Video.FinalizeRequest)
    (user_sub : option string) (w : Video.State) :
  let '(x, w') := Video.finalize_dubbing env request user_sub w in
  (w' = w /\ exists e, x = Raise e) \/
  (exists job_id j m,
      Video.jobs w' = <[job_id := j]> (Video.jobs w) /\
      Video.job_results w' = Video.job_results w /\
      Video.log w' =
        (Video.log w ++ [Video.SetStatus PENDING; Video.SetProgress 0;
                         Video.SetMessage m])%list /\
      ((exists e, x = Raise e /\ Video.tasks w' = Video.tasks w) \/
       (exists ack segs lang key,
           x = Ok ack /\
           Video.tasks w' =
             (Video.tasks w ++
              [{| Video.t_job_id := job_id; Video.t_file_key := key;
                  Video.t_target_language := lang;
                  Video.t_approved_segments := segs;
                  Video.t_user_id := user_sub |}])%list))).
Proof.
  unfold Video.finalize_dubbing.
  destruct (Video.req_job_id request) as [job_id |]; [| left; eauto].
  destruct (negb (truthy job_id)); [left; eauto |].
  destruct (default [] (Video.req_approved_segments request)) as [| seg segs];
    [left; eauto |].
  destruct (Video.jobs w !! job_id) as [j0 |]; [| left; eauto].
  destruct (negb (FFmpeg.is_available (Video.ffmpeg_service env)));
    [left; eauto |].
  cbn [Video.jobs Video.job_results Video.table Video.tasks Video.log].
  destruct (if truthy_opt user_sub then _ else _) as [[reply | e] t'];
    right; eexists _, _, _; cbn; repeat split; eauto 10.
Qed.

Lemma process_finalize_dubbing_log (env : Video.Env)
    (job_id file_key lang : string) (segs : list Segment)
    (user : option string) (w : Video.State) (j : LocalizationJob) :
  Video.jobs w !! job_id = Some j ->
  Video.log (Video.process_finalize_dubbing env job_id file_key lang segs user w).2
  = (Video.log w ++ Video.finalize_trace env job_id file_key lang segs user w j)%list.
Proof.
  intros Hj. unfold Video.process_finalize_dubbing, Video.finalize_trace.
  rewrite Hj.
  destruct (Video.finalize_task _ _ _ _ _ _ _) as [x r]. reflexivity.
Qed.

(** C8.  Within one phase execution the values assigned to the progress
    field never decrease; once the status is [FAILED] nothing is assigned
    to progress any more; [COMPLETE] is assigned together with progress 100
    and nothing is assigned to progress after that.  This holds of Phase 1
    of Phase 2 and of the one-pass pipeline, whatever the outcomes of the
    external calls.  In Phase 2 the endpoint resets progress to 0, and
    every later assignment of the phase is at least 1: the reset happens
    exactly at its start. *)
Theorem progress_monotone_in_phase (env : Video.Env) :
  (forall job_id file_key lang user w j,
     Video.progress_discipline
       (Video.draft_trace env job_id file_key lang user w j)) /\
  (forall job_id file_key lang user w j,
     Video.progress_discipline
       (Video.localization_trace env job_id file_key lang user w j)) /\
  (forall job_id file_key lang segs user w j,
     Video.progress_discipline
       (Video.finalize_trace env job_id file_key lang segs user w j) /\
     Forall (fun p => 1 <= p <= 100)
       (Video.progress_values
          (Video.finalize_trace env job_id file_key lang segs user w j))) /\
  (forall request user w,
     exists evs,
       Video.log (Video.phase2 env request user w).2 = (Video.log w ++ evs)%list /\
       Video.progress_discipline evs /\
       (evs = [] \/
        exists ps, Video.progress_values evs = 0 :: ps /\
                   Forall (fun p => 1 <= p <= 100) ps)).
Proof.
  split; [| split; [| split]].
  - intros id file_key lang user w j.
    apply (discipline_sound 1). apply draft_task_discipline.
  - intros id file_key lang user w j.
    apply (discipline_sound 1). apply localization_task_discipline.
  - intros id file_key lang segs user w j. apply (discipline_sound 1).
    apply (finalize_task_summary env id file_key lang segs user w j).
  - intros request user w. unfold Video.phase2.
    pose proof (finalize_dubbing_cases env request user w) as Hc.
    destruct (Video.finalize_dubbing env request user w) as [x w1].
    destruct Hc as [[-> [e ->]] | (id & j & m & Hjobs & _ & Hlog & Hx)].
    + exists []. cbn [snd]. rewrite app_nil_r.
      split; [reflexivity | split; [| left; reflexivity]].
      apply (discipline_sound 0). reflexivity.
    + destruct Hx as [(e & -> & _) | (ack & segs & lang & key & -> & Htasks)].
      * exists [Video.SetStatus PENDING; Video.SetProgress 0; Video.SetMessage m].
        cbn [snd]. split; [exact Hlog | split].
        -- apply (discipline_sound 0). reflexivity.
        -- right. exists []. split; [reflexivity | constructor].
      * rewrite Htasks, last_snoc.
        cbn [Video.t_job_id Video.t_file_key Video.t_target_language
             Video.t_approved_segments Video.t_user_id].
        assert (Hj : Video.jobs w1 !! id = Some j)
          by (rewrite Hjobs; apply lookup_insert_eq).
        rewrite (process_finalize_dubbing_log env id key lang segs user w1 j Hj).
        rewrite Hlog, <- app_assoc.
        pose proof (finalize_task_summary env id key lang segs user w1 j)
          as (Hd & _).
        fold (Video.finalize_trace env id key lang segs user w1 j) in Hd.
        eexists. split; [reflexivity | split].
        -- apply (discipline_sound 0). cbn [app].
           apply phase2_discipline. exact Hd.
        -- right. eexists. split; [reflexivity |].
           apply (discipline_sound 1). exact Hd.
Qed.

(** ** The compact variant *)

Lemma Qgtb_lt (x y : Q) : Video.Qgtb x y = true <-> (y < x)%Q.
Proof.
  unfold Video.Qgtb. rewrite negb_true_iff. split.
  - intros H. apply Qnot_le_lt. intros Hle.
    apply Qle_bool_iff in Hle. congruence.
  - intros H. destruct (Qle_bool x y) eqn:E; [| reflexivity].
    apply Qle_bool_iff in E. exfalso. apply (Qlt_not_le _ _ H E).
Qed.

Lemma compact_attempted_iff (evs : list Video.Event) :
  Video.compact_attempted evs = true <-> Video.whatsapp_calls evs <> [].
Proof.
  unfold Video.compact_attempted.
  destruct (Video.whatsapp_calls evs); split; congruence.
Qed.

Lemma primary_over_15_iff (evs : list Video.Event) :
  Video.primary_over_15 evs = true <->
  exists c sr, (c, Ok sr) ∈ Video.stitch_calls evs /\
    FFmpeg.success sr = true /\ (15 < FFmpeg.file_size_mb sr)%Q.
Proof.
  unfold Video.primary_over_15. rewrite existsb_exists. split.
  - intros ([c [sr | e]] & Hin & Hf); cbn in Hf; [| discriminate].
    apply andb_prop in Hf as [Hs Hq]. exists c, sr.
    rewrite list_elem_of_In, <- Qgtb_lt. auto.
  - intros (c & sr & Hin & Hs & Hq). exists (c, Ok sr).
    rewrite <- list_elem_of_In. split; [exact Hin |].
    cbn. rewrite Hs. apply Qgtb_lt in Hq. rewrite Hq. reflexivity.
Qed.

Lemma compact_failed_intro (evs : list Video.Event) c wr :
  (c, Ok wr) ∈ Video.whatsapp_calls evs -> FFmpeg.success wr = false ->
  Video.compact_failed evs = true.
Proof.
  intros Hin Hs. unfold Video.compact_failed. apply existsb_exists.
  exists (c, Ok wr). rewrite <- list_elem_of_In. split; [exact Hin |].
  cbn. rewrite Hs. reflexivity.
Qed.

Lemma uploaded_iff (a : Video.Artifact) (evs : list Video.Event) :
  Video.uploaded a evs = true <-> exists x, (a, x) ∈ Video.uploads evs.
Proof.
  unfold Video.uploaded. rewrite existsb_exists. split.
  - intros ([b x] & Hin & Hf). exists x. rewrite list_elem_of_In.
    destruct a, b; cbn in Hf; try discriminate; exact Hin.
  - intros (x & Hin). exists (a, x). rewrite <- list_elem_of_In.
    split; [exact Hin | destruct a; reflexivity].
Qed.

Lemma primary_stored_intro (evs : list Video.Event) reply :
  (Video.Primary, Ok reply) ∈ Video.uploads evs -> S3.has_error reply = false ->
  Video.primary_stored evs = true.
Proof.
  intros Hin He. unfold Video.primary_stored. apply existsb_exists.
  exists (Video.Primary, Ok reply). rewrite <- list_elem_of_In.
  split; [exact Hin |]. cbn. rewrite He. reflexivity.
Qed.

Lemma presign_raised_elim (evs : list Video.Event) :
  Video.presign_raised evs = true -> exists k e, Video.Presigned k (Raise e) ∈ evs.
Proof.
  unfold Video.presign_raised. rewrite existsb_exists.
  intros (ev & Hin & Hf). rewrite <- list_elem_of_In in Hin.
  destruct ev as [| | | | | | | | | k [| e] | |]; try discriminate. eauto.
Qed.

Lemma history_raised_elim (evs : list Video.Event) :
  Video.history_raised evs = true -> exists s e, Video.DbStatus s (Raise e) ∈ evs.
Proof.
  unfold Video.history_raised. rewrite existsb_exists.
  intros (ev & Hin & Hf). rewrite <- list_elem_of_In in Hin.
  destruct ev as [| | | | | | | | | | s [| e] |]; try discriminate. eauto.
Qed.

Lemma completed_elim (evs : list Video.Event) :
  Video.completed evs = true -> COMPLETE ∈ Video.statuses evs.
Proof.
  unfold Video.completed. rewrite existsb_exists.
  intros (s & Hin & Hf). unfold Video.is_status in Hf.
  apply bool_decide_eq_true in Hf. subst s. apply list_elem_of_In. exact Hin.
Qed.

(** The policy of the routes, for any service behind the stitch call:
    the compact variant is attempted exactly when a
    stitch call returned a success whose reported size exceeds 15 MB.  When
    the compact encode returns a failure, the compact file is not uploaded,
    the upload of the primary output is still attempted, and if that upload
    and the request for its download URL go through the job is set to
    [COMPLETE]; it then ends [COMPLETE] unless the history update raises. *)
Theorem compact_variant_policy (env : Video.Env)
    (id file_key lang : string) (segs : list Segment) (user : option string)
    (w : Video.State) (j : LocalizationJob) :
  let evs := Video.finalize_trace env id file_key lang segs user w j in
  let final := Video.finalize_job env id file_key lang segs user w j in
  (Video.whatsapp_calls evs <> [] <->
   exists c sr, (c, Ok sr) ∈ Video.stitch_calls evs /\
     FFmpeg.success sr = true /\ (15 < FFmpeg.file_size_mb sr)%Q) /\
  (forall c wr,
     (c, Ok wr) ∈ Video.whatsapp_calls evs -> FFmpeg.success wr = false ->
     (forall x, (Video.Compact, x) ∉ Video.uploads evs) /\
     (exists x, (Video.Primary, x) ∈ Video.uploads evs) /\
     (forall reply,
        (Video.Primary, Ok reply) ∈ Video.uploads evs ->
        S3.has_error reply = false ->
        (forall k e, Video.Presigned k (Raise e) ∉ evs) ->
        COMPLETE ∈ Video.statuses evs /\
        ((forall s e, Video.DbStatus s (Raise e) ∉ evs) ->
         status final = COMPLETE))).
Proof.
  cbn zeta.
  pose proof (finalize_task_summary env id file_key lang segs user w j)
    as (_ & Hpol & _).
  fold (Video.finalize_trace env id file_key lang segs user w j) in Hpol.
  fold (Video.finalize_job env id file_key lang segs user w j) in Hpol.
  set (evs := Video.finalize_trace env id file_key lang segs user w j) in *.
  set (final := Video.finalize_job env id file_key lang segs user w j) in *.
  unfold Video.compact_policy_ok in Hpol.
  apply andb_prop in Hpol as [Hpol Hfail].
  apply andb_prop in Hpol as [Hiff _].
  apply eqb_prop in Hiff. split.
  - rewrite <- compact_attempted_iff, <- primary_over_15_iff, Hiff. reflexivity.
  - intros c wr Hin Hs.
    rewrite (compact_failed_intro evs c wr Hin Hs) in Hfail. cbn [implb] in Hfail.
    apply andb_prop in Hfail as [Hup Hdone].
    apply andb_prop in Hup as [Hprim Hnc].
    apply negb_true_iff in Hnc. split; [| split].
    + intros x Hx.
      assert (Video.uploaded Video.Compact evs = true)
        by (apply uploaded_iff; eauto).
      congruence.
    + apply uploaded_iff. exact Hprim.
    + intros reply Hr He Hnp.
      rewrite (primary_stored_intro evs reply Hr He) in Hdone.
      destruct (Video.presign_raised evs) eqn:Ep.
      { apply presign_raised_elim in Ep as (k & e & Hk).
        exfalso. exact (Hnp k e Hk). }
      cbn [negb andb implb] in Hdone.
      apply andb_prop in Hdone as [Hc Hfin]. split.
      * apply completed_elim. exact Hc.
      * intros Hnh. destruct (Video.history_raised evs) eqn:Eh.
        { apply history_raised_elim in Eh as (s & e & Hse).
          exfalso. exact (Hnh s e Hse). }
        cbn [negb implb] in Hfin. unfold Video.is_status in Hfin.
        apply bool_decide_eq_true in Hfin. symmetry. exact Hfin.
Qed.

(** A run with a stitcher that accepts the call of the routes: a primary
    output of 20 MB and a compact encode that fails. *)
Lemma compact_variant_policy_witness :
  let env := Scenario.env_with
               (Scenario.stub_service (Scenario.done "out.mp4" 20)
                                      (FFmpeg.failed "encoder error")) in
  let evs := Video.finalize_trace env "job-0001" "uploads/talk.mp4" "hindi"
               Scenario.approved (Some "user_1") Scenario.state0 Scenario.job0 in
  Video.whatsapp_calls evs <> [] /\
  (forall x, (Video.Compact, x) ∉ Video.uploads evs) /\
  (exists x, (Video.Primary, x) ∈ Video.uploads evs) /\
  status (Video.finalize_job env "job-0001" "uploads/talk.mp4" "hindi"
            Scenario.approved (Some "user_1") Scenario.state0 Scenario.job0)
  = COMPLETE.
Proof.
  cbn zeta.
  destruct (compact_variant_policy
              (Scenario.env_with
                 (Scenario.stub_service (Scenario.done "out.mp4" 20)
                                        (FFmpeg.failed "encoder error")))
              "job-0001" "uploads/talk.mp4" "hindi" Scenario.approved
              (Some "user_1") Scenario.state0 Scenario.job0) as [Hiff Hfail].
  split.
  - apply Hiff.
    exists {| FFmpeg.kw_original_video_path :=
                "/tmp/nativity_final_job-0001_0/input_video.mp4";
              FFmpeg.kw_audio_segments :=
                [{| FFmpeg.d_file_path :=
                      Some "/tmp/nativity_final_job-0001_0/audio_segments/segment_0000.mp3";
                    FFmpeg.d_start_time := Seconds 3.2;
                    FFmpeg.d_end_time := Seconds 5 |};
                 {| FFmpeg.d_file_path :=
                      Some "/tmp/nativity_final_job-0001_0/audio_segments/segment_0001.mp3";
                    FFmpeg.d_start_time := Seconds 5;
                    FFmpeg.d_end_time := Seconds 9 |}];
              FFmpeg.kw_output_path :=
                "/tmp/nativity_final_job-0001_0/output_localized.mp4";
              FFmpeg.kw_optimize_for_mobile := true;
              FFmpeg.kw_tts_delay_seconds := 3.2 |},
           (Scenario.done "out.mp4" 20).
    split; [| split; reflexivity].
    apply list_elem_of_In. vm_compute. left. reflexivity.
  - destruct (Hfail
                {| FFmpeg.kw_input_path :=
                     "/tmp/nativity_final_job-0001_0/output_localized.mp4";
                   FFmpeg.kw_whatsapp_output_path :=
                     "/tmp/nativity_final_job-0001_0/output_whatsapp.mp4";
                   FFmpeg.kw_target_size_mb := 14.5 |}
                (FFmpeg.failed "encoder error")) as (Hnc & Hp & Hdone).
    + apply list_elem_of_In. vm_compute. left. reflexivity.
    + reflexivity.
    + split; [exact Hnc | split; [exact Hp |]].
      apply (Hdone S3.SuccessReply).
      * apply list_elem_of_In. vm_compute. left. reflexivity.
      * reflexivity.
      * intros k e Hin. apply list_elem_of_In in Hin. vm_compute in Hin.
        repeat (destruct Hin as [Hin | Hin]; [discriminate Hin |]). exact Hin.
      * intros s e Hin. apply list_elem_of_In in Hin. vm_compute in Hin.
        repeat (destruct Hin as [Hin | Hin]; [discriminate Hin |]). exact Hin.
Defined.

(** ** The audio offset *)

(** The stitch call of the routes is rejected by the service of the
    repository, whatever its arguments. *)
Lemma stitch_call_raises (cd : FFmpeg.Codec) (c : FFmpeg.StitchCall) :
  FFmpeg.call_stitch_video (FFmpeg.ffmpeg_service cd) c =
  Raise (TypeError
    "stitch_video() got an unexpected keyword argument 'tts_delay_seconds'").
Proof. reflexivity. Qed.

(** The routes do pass the start of the first approved segment. *)
Lemma stitch_call_delay (env : Video.Env) (id file_key lang : string)
    (segs : list Segment) (user : option string) (w : Video.State)
    (j : LocalizationJob) c x :
  (c, x) ∈ Video.stitch_calls (Video.finalize_trace env id file_key lang segs user w j) ->
  FFmpeg.kw_tts_delay_seconds c = Video.tts_delay_of segs /\
  x = FFmpeg.call_stitch_video (Video.ffmpeg_service env) c.
Proof.
  pose proof (finalize_task_summary env id file_key lang segs user w j)
    as (_ & _ & _ & Hcalls & _).
  fold (Video.finalize_trace env id file_key lang segs user w j) in Hcalls.
  intros Hin. rewrite List.Forall_forall in Hcalls.
  apply list_elem_of_In in Hin. exact (Hcalls (c, x) Hin).
Qed.

(** With the service of the repository no Phase 2 run completes: each
    one ends [FAILED]. *)
Lemma phase2_always_fails (env : Video.Env) (cd : FFmpeg.Codec)
    (id file_key lang : string) (segs : list Segment) (user : option string)
    (w : Video.State) (j : LocalizationJob) :
  Video.ffmpeg_service env = FFmpeg.ffmpeg_service cd ->
  status (Video.finalize_job env id file_key lang segs user w j) = FAILED.
Proof.
  intros Hsvc.
  pose proof (finalize_task_summary env id file_key lang segs user w j)
    as (_ & _ & Hout & Hcalls & Hlast & _).
  fold (Video.finalize_trace env id file_key lang segs user w j) in *.
  fold (Video.finalize_job env id file_key lang segs user w j) in *.
  set (evs := Video.finalize_trace env id file_key lang segs user w j) in *.
  set (final := Video.finalize_job env id file_key lang segs user w j) in *.
  assert (Hns : Video.stitch_succeeded evs = false).
  { unfold Video.stitch_succeeded.
    destruct (existsb _ (Video.stitch_calls evs)) eqn:E; [| reflexivity].
    apply existsb_exists in E as ([c x] & Hin & Hf).
    rewrite List.Forall_forall in Hcalls.
    destruct (Hcalls (c, x) Hin) as [_ Hx]. cbn in Hx, Hf.
    rewrite Hsvc, stitch_call_raises in Hx. subst x. discriminate Hf. }
  unfold Video.outcome_ok in Hout. rewrite Hns in Hout.
  apply andb_prop in Hout as [Hst Hc].
  destruct (Video.completed evs) eqn:Ec; [discriminate Hc |].
  unfold Video.is_status in Hst.
  apply orb_prop in Hst as [Hst | Hst]; apply bool_decide_eq_true in Hst.
  - exfalso. unfold Video.completed in Ec.
    assert (Hin : In COMPLETE (Video.statuses evs)).
    { apply list_elem_of_In. apply last_Some_elem_of. rewrite Hlast, <- Hst.
      reflexivity. }
    assert (existsb (Video.is_status COMPLETE) (Video.statuses evs) = true).
    { apply existsb_exists. exists COMPLETE. split; [exact Hin |].
      unfold Video.is_status. apply bool_decide_eq_true. reflexivity. }
    congruence.
  - symmetry. exact Hst.
Qed.

(** C1.  The code at a run whose first approved segment starts at 3.2 s:
    the routes pass [tts_delay_seconds = 3.2] to [stitch_video], whose
    signature has no such parameter; the call raises [TypeError], the job
    ends [FAILED] at progress 55 and nothing is uploaded.  No dubbed track
    is produced, offset or not. *)
Theorem finalize_fails_at_stitching :
  let w' := (Video.phase2 Scenario.env_src Scenario.finalize_request
               (Some "user_1") Scenario.state0).2 in
  Video.tts_delay_of Scenario.approved = 3.2%Q /\
  (fun cr => (FFmpeg.kw_tts_delay_seconds cr.1, cr.2))
    <$> Video.stitch_calls (Video.log w')
  = [(3.2%Q,
      Raise (TypeError
        "stitch_video() got an unexpected keyword argument 'tts_delay_seconds'"))] /\
  (fun job => (status job, progress job, error job)) <$> Video.jobs w' !! "job-0001"
  = Some (FAILED, 55,
          Some "stitch_video() got an unexpected keyword argument 'tts_delay_seconds'") /\
  Video.uploads (Video.log w') = [].
Proof. vm_compute. repeat split; reflexivity. Qed.

(** The ffmpeg options [stitch_video] builds carry no offset either. *)
Example stitch_options_have_no_offset :
  (FFmpeg.output_options true).*1 =
  ["vcodec"; "acodec"; "audio_bitrate"; "shortest"; "preset"; "crf"; "vf";
   "movflags"].
Proof. reflexivity. Qed.

(** ** The compact variant with the stitcher of the repository *)

(** With the service of the repository no stitch call returns, so no
    Phase 2 run attempts the compact encode or uploads a compact file. *)
Lemma phase2_never_compact (env : Video.Env) (cd : FFmpeg.Codec)
    (id file_key lang : string) (segs : list Segment) (user : option string)
    (w : Video.State) (j : LocalizationJob) :
  Video.ffmpeg_service env = FFmpeg.ffmpeg_service cd ->
  let evs := Video.finalize_trace env id file_key lang segs user w j in
  (forall c x, (c, x) ∈ Video.stitch_calls evs ->
     x = Raise (TypeError
           "stitch_video() got an unexpected keyword argument 'tts_delay_seconds'")) /\
  Video.whatsapp_calls evs = [] /\
  (forall x, (Video.Compact, x) ∉ Video.uploads evs).
Proof.
  intros Hsvc. cbn zeta.
  pose proof (finalize_task_summary env id file_key lang segs user w j)
    as (_ & Hpol & _ & Hcalls & _).
  fold (Video.finalize_trace env id file_key lang segs user w j) in *.
  set (evs := Video.finalize_trace env id file_key lang segs user w j) in *.
  assert (Hraise : forall c x, (c, x) ∈ Video.stitch_calls evs ->
     x = Raise (TypeError
           "stitch_video() got an unexpected keyword argument 'tts_delay_seconds'")).
  { intros c x Hin. rewrite List.Forall_forall in Hcalls.
    apply list_elem_of_In in Hin. destruct (Hcalls (c, x) Hin) as [_ Hx].
    cbn in Hx. rewrite Hsvc, stitch_call_raises in Hx. exact Hx. }
  assert (Hover : Video.primary_over_15 evs = false).
  { unfold Video.primary_over_15.
    destruct (existsb _ (Video.stitch_calls evs)) eqn:E; [| reflexivity].
    apply existsb_exists in E as ([c x] & Hin & Hf).
    apply list_elem_of_In in Hin. rewrite (Hraise c x Hin) in Hf.
    discriminate Hf. }
  unfold Video.compact_policy_ok in Hpol.
  apply andb_prop in Hpol as [Hpol _].
  apply andb_prop in Hpol as [Hiff Hup].
  apply eqb_prop in Hiff. rewrite Hover in Hiff.
  assert (Hnone : Video.whatsapp_calls evs = []).
  { destruct (Video.whatsapp_calls evs) eqn:E; [reflexivity |].
    unfold Video.compact_attempted in Hiff. rewrite E in Hiff. discriminate Hiff. }
  split; [exact Hraise |]. split; [exact Hnone |].
  intros x Hx.
  assert (Hu : Video.uploaded Video.Compact evs = true)
    by (apply uploaded_iff; eauto).
  rewrite Hu in Hup. unfold Video.compact_succeeded in Hup.
  rewrite Hnone in Hup. discriminate Hup.
Qed.

(** C9.  The code at a Phase 2 run with the stitcher of the repository.
    On a codec whose merge yields a primary output of 20 MB and whose
    compact encode fails, [stitch_video] and [create_whatsapp_version],
    called as their signatures allow, return that success and that
    failure; but the run never gets there: the stitch call of the routes
    raises [TypeError], the compact encode is not attempted, nothing is
    uploaded and the job ends [FAILED].  So it is for every codec and
    every run: no stitch call returns, no compact encode is attempted, no
    compact file is uploaded and the job ends [FAILED]. *)
Theorem compact_variant_never_reached :
  let cd := Scenario.compact_failing_codec in
  let env := Scenario.env_with (FFmpeg.ffmpeg_service cd) in
  let dir := "/tmp/nativity_final_job-0001_0" in
  let evs := Video.finalize_trace env "job-0001" "uploads/talk.mp4" "hindi"
               Scenario.approved (Some "user_1") Scenario.state0 Scenario.job0 in
  let final := Video.finalize_job env "job-0001" "uploads/talk.mp4" "hindi"
               Scenario.approved (Some "user_1") Scenario.state0 Scenario.job0 in
  (let r := FFmpeg.stitch_video cd (dir ++ "/input_video.mp4")
              [{| FFmpeg.d_file_path :=
                    Some (dir ++ "/audio_segments/segment_0000.mp3");
                  FFmpeg.d_start_time := Seconds 3.2;
                  FFmpeg.d_end_time := Seconds 5 |};
               {| FFmpeg.d_file_path :=
                    Some (dir ++ "/audio_segments/segment_0001.mp3");
                  FFmpeg.d_start_time := Seconds 5;
                  FFmpeg.d_end_time := Seconds 9 |}]
              (dir ++ "/output_localized.mp4") true in
   FFmpeg.success r = true /\ (15 < FFmpeg.file_size_mb r)%Q) /\
  FFmpeg.create_whatsapp_version cd (dir ++ "/output_localized.mp4")
    (dir ++ "/output_whatsapp.mp4") 14.5
  = FFmpeg.failed "No space left on device" /\
  (Video.stitch_calls evs).*2 =
    [Raise (TypeError
       "stitch_video() got an unexpected keyword argument 'tts_delay_seconds'")] /\
  Video.whatsapp_calls evs = [] /\
  Video.uploads evs = [] /\
  (status final, error final) =
    (FAILED,
     Some "stitch_video() got an unexpected keyword argument 'tts_delay_seconds'") /\
  (forall (env : Video.Env) (cd : FFmpeg.Codec) (id file_key lang : string)
          (segs : list Segment) (user : option string) (w : Video.State)
          (j : LocalizationJob),
     Video.ffmpeg_service env = FFmpeg.ffmpeg_service cd ->
     let evs := Video.finalize_trace env id file_key lang segs user w j in
     (forall c x, (c, x) ∈ Video.stitch_calls evs -> exists e, x = Raise e) /\
     Video.whatsapp_calls evs = [] /\
     (forall x, (Video.Compact, x) ∉ Video.uploads evs) /\
     status (Video.finalize_job env id file_key lang segs user w j) = FAILED).
Proof.
  cbn zeta.
  split; [vm_compute; split; reflexivity |].
  split; [vm_compute; reflexivity |].
  split; [vm_compute; reflexivity |].
  split; [vm_compute; reflexivity |].
  split; [vm_compute; reflexivity |].
  split; [vm_compute; reflexivity |].
  intros env cd id file_key lang segs user w j Hsvc.
  destruct (phase2_never_compact env cd id file_key lang segs user w j Hsvc)
    as (Hraise & Hnone & Hnc).
  split; [intros c x Hin; rewrite (Hraise c x Hin); eauto |].
  split; [exact Hnone |]. split; [exact Hnc |].
  exact (phase2_always_fails env cd id file_key lang segs user w j Hsvc).
Qed.

(** ** The history record at completion *)

Lemma history_initially_without_video : Video.no_video_attr Scenario.history0.
Proof.
  apply (save_video_no_video_attr Scenario.good_conn). constructor.
Qed.

(** A Phase 2 run leaves the history table as it found it, if no item
    has a ["video"] attribute; [save_video] never writes one. *)
Lemma phase2_history_unchanged (env : Video.Env) (id file_key lang : string)
    (segs : list Segment) (user : option string) (w : Video.State) :
  Video.no_video_attr (Video.table w) ->
  Video.table (Video.process_finalize_dubbing env id file_key lang segs user w).2
  = Video.table w.
Proof.
  intros Hinv. unfold Video.process_finalize_dubbing.
  destruct (Video.jobs w !! id) as [j |]; [| reflexivity].
  pose proof (finalize_task_summary env id file_key lang segs user w j)
    as (_ & _ & _ & _ & _ & Hh).
  destruct (Video.finalize_task _ _ _ _ _ _ _) as [x r].
  cbn [snd Video.finish_run Video.table] in *. apply Hh. exact Hinv.
Qed.

(** C3.  The code at a Phase 2 run that reaches [COMPLETE] for caller
    [user_1] (with a stitcher that accepts the call): the history record
    of the job is the one Phase 1 wrote, with no output key, no subtitle
    key, no word count and no size, and still marked [needs_review].  The
    call [update_job_status] made at completion answers "Video not found"
    and writes nothing. *)
Theorem history_record_not_updated :
  let env := Scenario.env_with
               (Scenario.stub_service (Scenario.done "out.mp4" 12)
                                      (FFmpeg.failed "not used")) in
  let w' := (Video.phase2 env Scenario.finalize_request (Some "user_1")
               Scenario.state0).2 in
  (fun job => (status job, output_file job)) <$> Video.jobs w' !! "job-0001"
  = Some (COMPLETE, Some "outputs/job-0001/localized_hindi.mp4") /\
  Video.table w' = Scenario.history0 /\
  (fun r => (r !! "job_id", r !! "status", r !! "output_s3_key",
             r !! "subtitle_s3_key", r !! "words_localized", r !! "file_size_mb"))
    <$> DB.rows (Video.table w')
  = [(Some (DB.AStr "job-0001"), Some (DB.AStr "needs_review"),
      None, None, None, None)] /\
  DB.update_job_status Scenario.good_conn "user_1" "job-0001" "complete"
    (Some "https://bucket/outputs/job-0001/localized_hindi.mp4")
    (Some "outputs/job-0001/localized_hindi.mp4")
    (Some "subtitles/job-0001.vtt") Scenario.history0
  = (Ok (DB.ErrorReply "Video not found"), Scenario.history0) /\
  Video.words_localized Scenario.approved = 2.
Proof. vm_compute. repeat split; reflexivity. Qed.

(** * Further properties

    Properties of the code beyond the pipeline walkthrough: the services
    one by one, then the endpoints. *)

(** ** Strings *)

Lemma list_ascii_of_string_app (s t : string) :
  list_ascii_of_string (s ++ t) =
  (list_ascii_of_string s ++ list_ascii_of_string t)%list.
Proof.
  induction s as [| c s IH]; [reflexivity |].
  unfold String.append; fold String.append. cbn. rewrite IH. reflexivity.
Qed.

Lemma list_ascii_of_string_inj (s t : string) :
  list_ascii_of_string s = list_ascii_of_string t -> s = t.
Proof.
  intros H. rewrite <- (string_of_list_ascii_of_string s),
    <- (string_of_list_ascii_of_string t), H. reflexivity.
Qed.

Lemma string_app_inv_tail (s1 s2 t : string) : s1 ++ t = s2 ++ t -> s1 = s2.
Proof.
  intros H. apply list_ascii_of_string_inj.
  apply (f_equal list_ascii_of_string) in H.
  rewrite !list_ascii_of_string_app in H.
  exact (app_inv_tail _ _ _ H).
Qed.

Lemma string_app_inv_head (s t1 t2 : string) : s ++ t1 = s ++ t2 -> t1 = t2.
Proof.
  induction s as [| c s IH]; [trivial |].
  unfold String.append; fold String.append. intros H.
  injection H as H. exact (IH H).
Qed.

(** Reading a zero-padded numeral back gives the number padded. *)
Lemma uint_of_string_zeros (k : nat) (d : Decimal.uint) :
  option_map Nat.of_uint
    (NilEmpty.uint_of_string (zeros k ++ NilEmpty.string_of_uint d))
  = Some (Nat.of_uint d).
Proof.
  induction k as [| k IH].
  - cbn [zeros]. change ("" ++ ?s) with s. rewrite NilEmpty.usu. reflexivity.
  - cbn [zeros]. change (("0" ++ zeros k) ++ ?s) with (String "0" (zeros k ++ s)).
    cbn [NilEmpty.uint_of_string].
    destruct (NilEmpty.uint_of_string (zeros k ++ NilEmpty.string_of_uint d))
      as [u |]; [| discriminate IH].
    cbn in IH. injection IH as IH. cbn. rewrite <- IH. reflexivity.
Qed.

Lemma format_d_nat_inj (width : nat) (i j : nat) :
  format_d width (Z.of_nat i) = format_d width (Z.of_nat j) -> i = j.
Proof.
  unfold format_d.
  assert (Hi : (Z.of_nat i <? 0) = false) by (apply Z.ltb_ge; lia).
  assert (Hj : (Z.of_nat j <? 0) = false) by (apply Z.ltb_ge; lia).
  rewrite Hi, Hj, !Nat2Z.id. unfold zfill, str_of_nat. intros H.
  pose proof (uint_of_string_zeros
                (width - String.length (NilEmpty.string_of_uint (Nat.to_uint i)))
                (Nat.to_uint i)) as Ei.
  pose proof (uint_of_string_zeros
                (width - String.length (NilEmpty.string_of_uint (Nat.to_uint j)))
                (Nat.to_uint j)) as Ej.
  rewrite H, Ej in Ei. injection Ei as Ei.
  rewrite !DecimalNat.Unsigned.of_to in Ei. congruence.
Qed.

Lemma prefix_app (p s : string) : String.prefix p (p ++ s) = true.
Proof.
  induction p as [| c p IH]; [destruct s; reflexivity |].
  unfold String.append; fold String.append. cbn.
  destruct (ascii_dec c c); [exact IH | congruence].
Qed.

Lemma string_app_assoc (a b c : string) : (a ++ b) ++ c = a ++ (b ++ c).
Proof.
  induction a as [| x a IH]; [reflexivity |].
  unfold String.append; fold String.append. rewrite IH. reflexivity.
Qed.

Lemma string_app_nil_r (a : string) : a ++ "" = a.
Proof.
  induction a as [| x a IH]; [reflexivity |].
  unfold String.append; fold String.append. rewrite IH. reflexivity.
Qed.

Lemma string_of_list_ascii_snoc (l : list ascii) (c : ascii) (s : string) :
  string_of_list_ascii (l ++ [c]) ++ s = string_of_list_ascii l ++ String c s.
Proof.
  induction l as [| x l IH]; [reflexivity |].
  cbn [app string_of_list_ascii].
  unfold String.append; fold String.append. rewrite IH. reflexivity.
Qed.

(** ** The speech synthesis service *)

Lemma segment_file_path_inj (dir : string) (i j : nat) :
  TTS.segment_file_path dir i = TTS.segment_file_path dir j -> i = j.
Proof.
  unfold TTS.segment_file_path, path_join. intros H.
  do 3 apply string_app_inv_head in H.
  apply string_app_inv_tail in H.
  exact (format_d_nat_inj 4 i j H).
Qed.

Lemma audio_of_file_path (eng : TTS.Engine) (dir lang gender : string)
    (i : nat) (seg : TtsSegment) (a : TTS.AudioSegment) :
  TTS.audio_of eng dir lang gender i seg = Some a ->
  TTS.file_path a = TTS.segment_file_path dir i.
Proof.
  unfold TTS.audio_of.
  destruct (negb (truthy (TTS.segment_text seg))); [discriminate |].
  destruct (TTS.generate_audio_segment _ _ _ _ _); [| discriminate].
  intros H. injection H as <-. reflexivity.
Qed.

Lemma produced_paths (eng : TTS.Engine) (dir lang gender : string)
    (segs : list TtsSegment) : forall i p,
  In p (TTS.file_path <$>
        omap id (imap (fun j => TTS.audio_of eng dir lang gender (i + j)) segs)) ->
  exists k, (i <= k)%nat /\ p = TTS.segment_file_path dir k.
Proof.
  induction segs as [| seg segs IH]; intros i p Hin.
  - destruct Hin.
  - rewrite imap_cons in Hin. cbn [omap list_omap id] in Hin.
    assert (Hext : imap ((fun j => TTS.audio_of eng dir lang gender (i + j)) ∘ S) segs
                   = imap (fun j => TTS.audio_of eng dir lang gender (S i + j)) segs).
    { apply imap_ext. intros j x _. cbn. f_equal. lia. }
    rewrite Hext in Hin.
    destruct (TTS.audio_of eng dir lang gender (i + 0) seg) as [a |] eqn:Ea.
    + rewrite fmap_cons in Hin. destruct Hin as [Hp | Hin].
      * exists i. split; [lia |]. subst p.
        rewrite Nat.add_0_r in Ea. exact (audio_of_file_path _ _ _ _ _ _ _ Ea).
      * destruct (IH (S i) p Hin) as (k & Hk & Hp). exists k. split; [lia | exact Hp].
    + destruct (IH (S i) p Hin) as (k & Hk & Hp). exists k. split; [lia | exact Hp].
Qed.

Lemma produced_paths_NoDup (eng : TTS.Engine) (dir lang gender : string)
    (segs : list TtsSegment) : forall i,
  List.NoDup (TTS.file_path <$>
         omap id (imap (fun j => TTS.audio_of eng dir lang gender (i + j)) segs)).
Proof.
  induction segs as [| seg segs IH]; intros i.
  - constructor.
  - rewrite imap_cons. cbn [omap list_omap id].
    assert (Hext : imap ((fun j => TTS.audio_of eng dir lang gender (i + j)) ∘ S) segs
                   = imap (fun j => TTS.audio_of eng dir lang gender (S i + j)) segs).
    { apply imap_ext. intros j x _. cbn. f_equal. lia. }
    rewrite Hext.
    destruct (TTS.audio_of eng dir lang gender (i + 0) seg) as [a |] eqn:Ea;
      [| apply IH].
    rewrite fmap_cons. constructor; [| apply IH].
    intros Hin. apply produced_paths in Hin as (k & Hk & Hp).
    rewrite Nat.add_0_r in Ea.
    rewrite (audio_of_file_path _ _ _ _ _ _ _ Ea) in Hp.
    apply segment_file_path_inj in Hp. lia.
Qed.

(** X1.  The audio segments that [generate_segments_from_analysis] returns
    have pairwise distinct files: each file sits in the output directory
    under the name [segment_NNNN.mp3] of the index of its segment, so no
    synthesis overwrites the file of another, however long the list. *)
Theorem audio_files_distinct (eng : TTS.Engine) (dir lang gender : string)
    (segs : list TtsSegment) :
  exists produced,
    TTS.generate_segments_from_analysis eng dir segs lang gender = Ok produced /\
    List.NoDup (TTS.file_path <$> produced) /\
    (forall a, In a produced ->
       exists i seg, segs !! i = Some seg /\
                     TTS.file_path a = TTS.segment_file_path dir i /\
                     TTS.text a = TTS.segment_text seg).
Proof.
  eexists. split; [| split].
  - unfold TTS.generate_segments_from_analysis. rewrite segments_loop_spec.
    reflexivity.
  - cbn [app]. apply (produced_paths_NoDup eng dir lang gender segs 0).
  - cbn [app]. intros a Ha.
    apply list_elem_of_In in Ha. apply list_elem_of_omap in Ha as (o & Ho & Hid).
    cbn in Hid. subst o.
    apply elem_of_lookup_imap in Ho as (i & seg & Ha & Hseg).
    exists i, seg. cbn in Ha. split; [exact Hseg |]. symmetry in Ha. split.
    + exact (audio_of_file_path _ _ _ _ _ _ _ Ha).
    + unfold TTS.audio_of in Ha.
      destruct (negb (truthy (TTS.segment_text seg))); [discriminate |].
      destruct (TTS.generate_audio_segment _ _ _ _ _); [| discriminate].
      injection Ha as <-. reflexivity.
Qed.

Lemma get_voice_returns (language gender : string) :
  exists voice, TTS.get_voice language gender = Ok voice.
Proof.
  destruct VOICE_MAP_hindi as [hindi Hh].
  assert (Hsel : exists k, TTS.VOICE_MAP !! k =
                           Some (get TTS.VOICE_MAP (lower language) hindi)).
  { unfold get. destruct (TTS.VOICE_MAP !! lower language) as [lv |] eqn:E.
    - exists (lower language). exact E.
    - exists "hindi". exact Hh. }
  destruct Hsel as (k & Hk).
  destruct (VOICE_MAP_pairs _ _ Hk) as [(m & f & Hm & Hf) _].
  unfold TTS.get_voice, subscript. rewrite Hh. cbn. rewrite Hf. cbn. eauto.
Qed.

(** X2.  [generate_audio_segment] has exactly three outcomes, and neither
    the language nor the gender decides between them: it fails with the
    message of the exception when creating the directory raises, it fails
    with the message of the engine when the synthesis raises, and otherwise
    it succeeds, with the voice [get_voice] selects and the length of the
    text.  An unknown language or gender never makes it fail. *)
Theorem generate_audio_segment_outcomes (eng : TTS.Engine)
    (text language file_path gender : string) :
  exists voice, TTS.get_voice language gender = Ok voice /\
    match TTS.makedirs eng file_path with
    | Raise e =>
        TTS.generate_audio_segment eng text language file_path gender =
          TTS.Failure (str_of_exn e) file_path
    | Ok _ =>
        match TTS.communicate_save eng text voice file_path with
        | Raise e =>
            TTS.generate_audio_segment eng text language file_path gender =
              TTS.Failure (str_of_exn e) file_path
        | Ok _ =>
            TTS.generate_audio_segment eng text language file_path gender =
              TTS.Success file_path voice language
                (TTS.get_audio_duration eng file_path) (String.length text)
        end
    end.
Proof.
  destruct (get_voice_returns language gender) as [voice Hv].
  exists voice. split; [exact Hv |].
  unfold TTS.generate_audio_segment. rewrite Hv. cbn.
  destruct (TTS.makedirs eng file_path) as [[] | e]; cbn; [| reflexivity].
  destruct (TTS.communicate_save eng text voice file_path) as [[] | e]; reflexivity.
Qed.

(** ** The stitcher and the compact encoder *)

Lemma audio_files_of_paths (segs : list FFmpeg.AudioDict) :
  omap (fun seg => match FFmpeg.d_file_path seg with
                   | Some f => if truthy f then Some f else None
                   | None => None
                   end) segs
  = omap (fun p : option string =>
            match p with
            | Some f => if truthy f then Some f else None
            | None => None
            end) (FFmpeg.d_file_path <$> segs).
Proof.
  induction segs as [| seg segs IH]; [reflexivity |].
  cbn. rewrite IH. reflexivity.
Qed.

(** X3.  [stitch_video] never reads the times of the audio segments it is
    given: two calls whose segments name the same files, in the same
    order, give the same result, whatever the start and end times say.
    The audio it lays under the video is the plain concatenation of the
    files. *)
Theorem stitch_video_ignores_times (cd : FFmpeg.Codec) (original_video_path : string)
    (segs1 segs2 : list FFmpeg.AudioDict) (output_path : string)
    (optimize_for_mobile : bool) :
  FFmpeg.d_file_path <$> segs1 = FFmpeg.d_file_path <$> segs2 ->
  FFmpeg.stitch_video cd original_video_path segs1 output_path optimize_for_mobile
  = FFmpeg.stitch_video cd original_video_path segs2 output_path optimize_for_mobile.
Proof.
  intros H. unfold FFmpeg.stitch_video.
  rewrite (audio_files_of_paths segs1), (audio_files_of_paths segs2), H.
  reflexivity.
Qed.

Lemma stitch_video_ignores_times_witness :
  FFmpeg.stitch_video Scenario.good_codec "in.mp4"
    [{| FFmpeg.d_file_path := Some "a.mp3"; FFmpeg.d_start_time := Seconds 0;
        FFmpeg.d_end_time := Seconds 2 |}] "out.mp4" true
  = FFmpeg.stitch_video Scenario.good_codec "in.mp4"
      [{| FFmpeg.d_file_path := Some "a.mp3"; FFmpeg.d_start_time := Seconds 30;
          FFmpeg.d_end_time := Clock "00:32" |}] "out.mp4" true.
Proof. apply stitch_video_ignores_times. reflexivity. Defined.

(** X4.  [stitch_video] reports success only after the whole chain went
    through: FFmpeg is installed, at least one segment names a file, the
    temporary directory was made and the merge command ran on the original
    video and the combined audio inside it; the result then carries the
    requested output path and no error. *)
Theorem stitch_video_success (cd : FFmpeg.Codec) (original_video_path : string)
    (audio_segments : list FFmpeg.AudioDict) (output_path : string)
    (optimize_for_mobile : bool) :
  let r := FFmpeg.stitch_video cd original_video_path audio_segments output_path
             optimize_for_mobile in
  FFmpeg.success r = true ->
  FFmpeg.ffmpeg_available cd = true /\
  (exists seg f, In seg audio_segments /\ FFmpeg.d_file_path seg = Some f /\
                 truthy f = true) /\
  (exists temp_dir,
     FFmpeg.mkdtemp cd "nativity_stitch_" = Ok temp_dir /\
     FFmpeg.run cd
       {| FFmpeg.inputs := [original_video_path;
                            path_join temp_dir "combined_audio.mp3"];
          FFmpeg.output := output_path;
          FFmpeg.options := FFmpeg.output_options optimize_for_mobile |} = Ok ()) /\
  FFmpeg.output_path r = Some output_path /\
  FFmpeg.error r = None.
Proof.
  cbn zeta. unfold FFmpeg.stitch_video.
  destruct (FFmpeg.ffmpeg_available cd); cbn [negb]; [| discriminate].
  destruct (FFmpeg.mkdtemp cd "nativity_stitch_") as [temp_dir | e]; cbn;
    [| destruct e; discriminate].
  destruct (FFmpeg.get_video_info cd original_video_path); cbn; [discriminate |].
  destruct (omap _ audio_segments) as [| f files] eqn:Efiles; cbn;
    [discriminate |].
  destruct (FFmpeg.success (FFmpeg.concatenate_audio_segments cd (f :: files) _));
    cbn; [| discriminate].
  destruct (FFmpeg.run cd _) as [[] | e] eqn:Erun; cbn; [| destruct e; discriminate].
  destruct (FFmpeg.rmtree cd temp_dir) as [[] | e]; cbn; [| destruct e; discriminate].
  intros _. split; [reflexivity |]. split; [| split; [| split; reflexivity]].
  - assert (Hin : f ∈ omap (fun seg => match FFmpeg.d_file_path seg with
                                       | Some f => if truthy f then Some f else None
                                       | None => None
                                       end) audio_segments)
      by (rewrite Efiles; left).
    apply list_elem_of_omap in Hin as (seg & Hseg & Hf).
    exists seg, f. split; [apply list_elem_of_In; exact Hseg |].
    destruct (FFmpeg.d_file_path seg) as [g |]; [| discriminate].
    destruct (truthy g) eqn:Eg; [| discriminate].
    injection Hf as ->. split; [reflexivity | exact Eg].
  - exists temp_dir. split; [reflexivity | exact Erun].
Qed.

Lemma stitch_video_success_witness :
  FFmpeg.ffmpeg_available Scenario.good_codec = true /\
  FFmpeg.output_path
    (FFmpeg.stitch_video Scenario.good_codec "in.mp4"
       [{| FFmpeg.d_file_path := Some "a.mp3"; FFmpeg.d_start_time := Seconds 0;
           FFmpeg.d_end_time := Seconds 2 |}] "out.mp4" true) = Some "out.mp4".
Proof.
  destruct (stitch_video_success Scenario.good_codec "in.mp4"
              [{| FFmpeg.d_file_path := Some "a.mp3";
                  FFmpeg.d_start_time := Seconds 0;
                  FFmpeg.d_end_time := Seconds 2 |}] "out.mp4" true)
    as (Ha & _ & _ & Ho & _).
  - vm_compute. reflexivity.
  - split; [exact Ha | exact Ho].
Defined.

(** X5.  A video whose probed duration is zero does not make
    [create_whatsapp_version] raise: the division by the duration raises
    inside the [try], and the method returns a failure result whose error
    is the message of that exception, without running FFmpeg. *)
Theorem whatsapp_zero_duration (cd : FFmpeg.Codec) (input_path output_path : string)
    (target_size_mb duration size_mb : Q) :
  FFmpeg.ffmpeg_available cd = true ->
  FFmpeg.probe cd input_path = Ok (duration, size_mb) ->
  (duration == 0)%Q ->
  FFmpeg.create_whatsapp_version cd input_path output_path target_size_mb
  = FFmpeg.failed "float division by zero".
Proof.
  intros Ha Hp Hd. unfold FFmpeg.create_whatsapp_version, FFmpeg.get_video_info.
  rewrite Ha, Hp. cbn [negb FFmpeg.info_get_duration].
  unfold FFmpeg.target_bitrate.
  apply Qeq_bool_iff in Hd. rewrite Hd. reflexivity.
Qed.

Lemma whatsapp_zero_duration_witness :
  FFmpeg.create_whatsapp_version
    {| FFmpeg.ffmpeg_available := true;
       FFmpeg.probe := fun _ => Ok (0%Q, 20%Q);
       FFmpeg.mkdtemp := fun prefix => Ok prefix;
       FFmpeg.run_concat := fun _ _ => Ok 1%Q;
       FFmpeg.run := fun _ => Ok ();
       FFmpeg.rmtree := fun _ => Ok () |}
    "out.mp4" "whatsapp.mp4" 14.5%Q
  = FFmpeg.failed "float division by zero".
Proof.
  apply (whatsapp_zero_duration _ _ _ _ 0%Q 20%Q); reflexivity.
Defined.

(** ** The retry budget of the AI calls *)

Lemma calls_made_cons_called (a : nat) (evs : list Gemini.Event) :
  Gemini.calls_made (Gemini.Called a :: evs) = S (Gemini.calls_made evs).
Proof. reflexivity. Qed.

Lemma retry_loop_budget (generate_content : nat -> result Gemini.Response) :
  forall n a, (a + n = Gemini.MAX_RETRIES)%nat -> (1 <= n)%nat ->
  let evs := (Gemini.retry_loop generate_content (seq a n)).2 in
  (1 <= Gemini.calls_made evs <= n)%nat /\
  Gemini.polls_made evs = 0%nat /\
  Gemini.time_slept evs =
    5 * (2 ^ Z.of_nat (a + Gemini.calls_made evs - 1) - 2 ^ Z.of_nat a).
Proof.
  induction n as [| n IH]; intros a Ha Hn; [lia |].
  cbn [seq Gemini.retry_loop].
  assert (Hone : forall x : Gemini.LoopExit,
            let evs := (x, [Gemini.Called a]).2 in
            (1 <= Gemini.calls_made evs <= S n)%nat /\
            Gemini.polls_made evs = 0%nat /\
            Gemini.time_slept evs =
              5 * (2 ^ Z.of_nat (a + Gemini.calls_made evs - 1) - 2 ^ Z.of_nat a)).
  { intros x. cbn. split; [lia |]. split; [reflexivity |].
    replace (a + 1 - 1)%nat with a by lia. lia. }
  destruct (generate_content a) as [response | e]; [apply Hone |].
  destruct (Gemini.is_transient e); [| apply Hone].
  destruct (a <? Gemini.MAX_RETRIES - 1)%nat eqn:Elt; [| apply Hone].
  apply Nat.ltb_lt in Elt.
  specialize (IH (S a) ltac:(lia) ltac:(unfold Gemini.MAX_RETRIES in *; lia)).
  destruct (Gemini.retry_loop generate_content (seq (S a) n)) as [x evs].
  cbn [snd] in *. destruct IH as (Hc & Hp & Hs).
  rewrite calls_made_cons_called.
  change (Gemini.calls_made (Gemini.Slept ?d :: evs)) with (Gemini.calls_made evs).
  change (Gemini.polls_made (Gemini.Called a :: Gemini.Slept ?d :: evs))
    with (Gemini.polls_made evs).
  change (Gemini.time_slept (Gemini.Called a :: Gemini.Slept ?d :: evs))
    with (d + Gemini.time_slept evs).
  split; [lia |]. split; [exact Hp |].
  rewrite Hs. unfold Gemini.INITIAL_RETRY_DELAY_SECONDS.
  replace (a + S (Gemini.calls_made evs) - 1)%nat
    with (S a + Gemini.calls_made evs - 1)%nat by lia.
  rewrite (Nat2Z.inj_succ a), Z.pow_succ_r by lia. lia.
Qed.

Lemma generate_with_retry_budget (generate_content : nat -> result Gemini.Response) :
  let evs := (Gemini.generate_with_retry generate_content).2 in
  (1 <= Gemini.calls_made evs <= 10)%nat /\
  Gemini.polls_made evs = 0%nat /\
  Gemini.time_slept evs = 5 * (2 ^ Z.of_nat (Gemini.calls_made evs - 1) - 1) /\
  Gemini.time_slept evs <= 2555.
Proof.
  cbn zeta. unfold Gemini.generate_with_retry.
  destruct (retry_loop_budget generate_content Gemini.MAX_RETRIES 0
              ltac:(reflexivity) ltac:(unfold Gemini.MAX_RETRIES; lia))
    as (Hc & Hp & Hs).
  cbn zeta in Hc, Hp, Hs.
  set (evs := (Gemini.retry_loop generate_content (seq 0 Gemini.MAX_RETRIES)).2) in *.
  unfold Gemini.MAX_RETRIES in Hc.
  split; [exact Hc |]. split; [exact Hp |].
  rewrite Nat.add_0_l in Hs. change (2 ^ Z.of_nat 0) with 1 in Hs.
  split; [exact Hs |]. rewrite Hs.
  assert (Hpow : 2 ^ Z.of_nat (Gemini.calls_made evs - 1) <= 2 ^ 9)
    by (apply Z.pow_le_mono_r; lia).
  change (2 ^ 9) with 512 in Hpow. lia.
Qed.

Lemma calls_made_app (evs1 evs2 : list Gemini.Event) :
  Gemini.calls_made (evs1 ++ evs2) =
  (Gemini.calls_made evs1 + Gemini.calls_made evs2)%nat.
Proof.
  unfold Gemini.calls_made. rewrite List.filter_app, length_app. reflexivity.
Qed.

Lemma polls_made_app (evs1 evs2 : list Gemini.Event) :
  Gemini.polls_made (evs1 ++ evs2) =
  (Gemini.polls_made evs1 + Gemini.polls_made evs2)%nat.
Proof.
  unfold Gemini.polls_made. rewrite List.filter_app, length_app. reflexivity.
Qed.

Lemma time_slept_app (evs1 evs2 : list Gemini.Event) :
  Gemini.time_slept (evs1 ++ evs2) =
  Gemini.time_slept evs1 + Gemini.time_slept evs2.
Proof.
  unfold Gemini.time_slept. induction evs1 as [| ev evs1 IH]; [reflexivity |].
  destruct ev; cbn in *; lia.
Qed.

(** With the upload leaving ["PROCESSING"] at poll [n] (or that poll
    raising), the wait returns on any fuel above [n]. *)
Lemma wait_for_processing_returns (cl : Gemini.Client) : forall n fuel polls state,
  (forall i, (i < n)%nat -> Gemini.files_get cl (polls + i) = Ok "PROCESSING") ->
  Gemini.files_get cl (polls + n) <> Ok "PROCESSING" ->
  (n < fuel)%nat ->
  exists x evs, Gemini.wait_for_processing cl fuel polls state = Some (x, evs) /\
                (Gemini.polls_made evs <= S n)%nat.
Proof.
  induction n as [| n IH]; intros fuel polls state Hproc Hend Hfuel;
    (destruct fuel as [| fuel]; [lia |]);
    cbn [Gemini.wait_for_processing];
    (destruct (String.eqb state "PROCESSING");
      [| exists (Ok state), []; split; [reflexivity | cbn; lia]]).
  - rewrite Nat.add_0_r in Hend.
    destruct (Gemini.files_get cl polls) as [state' | e] eqn:Eg.
    + assert (Hne : String.eqb state' "PROCESSING" = false).
      { apply String.eqb_neq. intros ->. apply Hend. reflexivity. }
      destruct fuel as [| fuel]; cbn [Gemini.wait_for_processing]; rewrite Hne;
        eexists _, _; (split; [reflexivity | cbn; lia]).
    + eexists _, _. split; [reflexivity | cbn; lia].
  - pose proof (Hproc 0%nat ltac:(lia)) as H0. rewrite Nat.add_0_r in H0.
    rewrite H0.
    destruct (IH fuel (S polls) "PROCESSING") as (x & evs & Hw & Hp).
    + intros i Hi. replace (S polls + i)%nat with (polls + S i)%nat by lia.
      apply Hproc. lia.
    + replace (S polls + n)%nat with (polls + S n)%nat by lia. exact Hend.
    + lia.
    + rewrite Hw. exists x, (Gemini.Slept 2 :: Gemini.Polled polls :: evs).
      split; [reflexivity |].
      change (Gemini.polls_made (Gemini.Slept 2 :: Gemini.Polled polls :: evs))
        with (S (Gemini.polls_made evs)). lia.
Qed.

(** X6.  The retry loop has a fixed budget, whatever the model answers:
    it calls the model at least once and at most [MAX_RETRIES] = 10 times,
    and after [k] calls it has slept exactly [5 * (2 ^ (k - 1) - 1)]
    seconds, hence never more than 2555 seconds.  [quick_translate] and
    [generate_metadata] stay within these bounds.  [analyze_video] also
    sleeps 2 seconds before every poll of the upload, and the number of
    polls has no bound of its own: when it returns it has called the
    model at most 10 times and slept 2 seconds per poll plus at most 2555
    seconds; and it does return once the upload leaves ["PROCESSING"],
    after at most one poll more than the polls that answered
    ["PROCESSING"]. *)
Theorem retry_budget (cl : Gemini.Client) (video_path : string) :
  let within evs :=
    (Gemini.calls_made evs <= 10)%nat /\ Gemini.time_slept evs <= 2555 in
  (let evs := (Gemini.generate_with_retry (Gemini.generate_content cl)).2 in
   (1 <= Gemini.calls_made evs <= 10)%nat /\
   Gemini.time_slept evs = 5 * (2 ^ Z.of_nat (Gemini.calls_made evs - 1) - 1) /\
   Gemini.time_slept evs <= 2555) /\
  within (Gemini.quick_translate cl).2 /\
  within (Gemini.generate_metadata cl).2 /\
  (forall fuel r evs,
     Gemini.analyze_video cl fuel video_path = Some (r, evs) ->
     (Gemini.calls_made evs <= 10)%nat /\
     (Gemini.polls_made evs <= fuel)%nat /\
     2 * Z.of_nat (Gemini.polls_made evs) <= Gemini.time_slept evs
       <= 2 * Z.of_nat (Gemini.polls_made evs) + 2555) /\
  (forall n fuel,
     (forall i, (i < n)%nat -> Gemini.files_get cl i = Ok "PROCESSING") ->
     Gemini.files_get cl n <> Ok "PROCESSING" ->
     (n < fuel)%nat ->
     exists r evs, Gemini.analyze_video cl fuel video_path = Some (r, evs) /\
                   (Gemini.polls_made evs <= S n)%nat).
Proof.
  cbn zeta.
  destruct (generate_with_retry_budget (Gemini.generate_content cl))
    as (Hc & Hp & Hs & Hb).
  cbn zeta in Hc, Hp, Hs, Hb.
  split; [repeat split; first [exact Hs | lia] |].
  assert (Hq : forall assigns parse_error,
      (Gemini.calls_made
         (if negb (Gemini.configured cl)
          then (Ok (Gemini.ErrorReply "Gemini API not configured"), [])
          else let '(x, evs) :=
                 Gemini.generate_with_retry (Gemini.generate_content cl) in
               (Gemini.after_loop cl parse_error assigns x, evs)).2 <= 10)%nat /\
      Gemini.time_slept
         (if negb (Gemini.configured cl)
          then (Ok (Gemini.ErrorReply "Gemini API not configured"), [])
          else let '(x, evs) :=
                 Gemini.generate_with_retry (Gemini.generate_content cl) in
               (Gemini.after_loop cl parse_error assigns x, evs)).2 <= 2555).
  { intros assigns parse_error.
    destruct (negb (Gemini.configured cl)); [cbn; lia |].
    destruct (Gemini.generate_with_retry (Gemini.generate_content cl)) as [x evs'].
    cbn [snd] in *. lia. }
  split; [exact (Hq false "Parse error") |].
  split; [exact (Hq true "Parse error") |].
  split.
  - intros fuel r evs. unfold Gemini.analyze_video.
    destruct (negb (Gemini.configured cl)).
    { intros H. injection H as <- <-. cbn. lia. }
    destruct (Gemini.files_upload cl video_path) as [state | e].
    2: { intros H. injection H as <- <-. cbn. lia. }
    destruct (Gemini.wait_for_processing cl fuel 0 state) as [[x evs0] |] eqn:Ew;
      [| discriminate].
    destruct (wait_for_processing_budget cl _ _ _ _ _ Ew) as (Hc0 & Hp0 & Hs0).
    assert (Hup : forall evs1,
              let all := (Gemini.Uploaded :: evs0 ++ evs1)%list in
              Gemini.calls_made all = Gemini.calls_made evs1 /\
              Gemini.polls_made all =
                (Gemini.polls_made evs0 + Gemini.polls_made evs1)%nat /\
              Gemini.time_slept all =
                2 * Z.of_nat (Gemini.polls_made evs0) + Gemini.time_slept evs1).
    { intros evs1. cbn zeta.
      change (Gemini.calls_made (Gemini.Uploaded :: ?l)) with (Gemini.calls_made l).
      change (Gemini.polls_made (Gemini.Uploaded :: ?l)) with (Gemini.polls_made l).
      change (Gemini.time_slept (Gemini.Uploaded :: ?l)) with (Gemini.time_slept l).
      rewrite calls_made_app, polls_made_app, time_slept_app, Hc0, Hs0.
      repeat split; lia. }
    destruct x as [state' | e].
    2: { intros H. injection H as <- <-.
         destruct (Hup []) as (H1 & H2 & H3). cbn zeta in H1, H2, H3.
         rewrite app_nil_r in H1, H2, H3. rewrite H1, H2, H3. cbn. lia. }
    destruct (String.eqb state' "FAILED").
    { intros H. injection H as <- <-.
      destruct (Hup []) as (H1 & H2 & H3). cbn zeta in H1, H2, H3.
      rewrite app_nil_r in H1, H2, H3. rewrite H1, H2, H3. cbn. lia. }
    destruct (Gemini.generate_with_retry (Gemini.generate_content cl))
      as [x evs1].
    cbn [snd] in *. intros H. injection H as <- <-.
    destruct (Hup evs1) as (H1 & H2 & H3). cbn zeta in H1, H2, H3.
    rewrite H1, H2, H3, Hp. lia.
  - intros n fuel Hproc Hend Hfuel. unfold Gemini.analyze_video.
    destruct (negb (Gemini.configured cl));
      [eexists _, _; split; [reflexivity | cbn; lia] |].
    destruct (Gemini.files_upload cl video_path) as [state | e];
      [| eexists _, _; split; [reflexivity | cbn; lia]].
    destruct (wait_for_processing_returns cl n fuel 0 state Hproc Hend Hfuel)
      as (x & evs0 & Hw & Hp0).
    rewrite Hw.
    assert (Hnil : Gemini.polls_made (Gemini.Uploaded :: evs0) =
                   Gemini.polls_made evs0) by reflexivity.
    destruct x as [state' | e];
      [| eexists _, _; split; [reflexivity | rewrite Hnil; exact Hp0]].
    destruct (String.eqb state' "FAILED");
      [eexists _, _; split; [reflexivity | rewrite Hnil; exact Hp0] |].
    destruct (Gemini.generate_with_retry (Gemini.generate_content cl))
      as [x evs1].
    cbn [snd] in *. eexists _, _. split; [reflexivity |].
    change (Gemini.polls_made (Gemini.Uploaded :: ?l)) with (Gemini.polls_made l).
    rewrite polls_made_app, Hp. lia.
Qed.

(** ** The draft for review *)

Lemma draft_loop_spec (segs : list (gmap string Gemini.json)) : forall i acc,
  Gemini.draft_loop i segs acc =
  (acc ++ Gemini.draft_loop i segs [])%list.
Proof.
  induction segs as [| seg segs IH]; intros i acc.
  - cbn. rewrite app_nil_r. reflexivity.
  - cbn [Gemini.draft_loop]. rewrite IH. rewrite (IH (S i) ([] ++ _)%list).
    rewrite <- app_assoc. reflexivity.
Qed.

Lemma draft_loop_lookup (segs : list (gmap string Gemini.json)) : forall i j seg,
  segs !! j = Some seg ->
  exists ds, Gemini.draft_loop i segs [] !! j = Some ds /\
    Gemini.ds_index ds = (i + j)%nat /\
    Gemini.ds_is_approved ds = false /\
    Gemini.ds_translated_text ds =
      get seg "translated_text" (get seg "translation" (Gemini.JStr "")) /\
    Gemini.ds_start ds = get seg "start_time" (get seg "start" (Gemini.JNum 0)).
Proof.
  induction segs as [| seg0 segs IH]; intros i j seg Hj; [discriminate |].
  cbn [Gemini.draft_loop]. rewrite draft_loop_spec.
  destruct j as [| j].
  - injection Hj as ->. eexists. split; [reflexivity |].
    cbn. rewrite Nat.add_0_r. auto.
  - cbn in Hj. destruct (IH (S i) j seg Hj) as (ds & Hds & Hi & Hrest).
    exists ds. split; [exact Hds |]. split; [lia | exact Hrest].
Qed.

Lemma draft_loop_length (segs : list (gmap string Gemini.json)) : forall i,
  List.length (Gemini.draft_loop i segs []) = List.length segs.
Proof.
  induction segs as [| seg segs IH]; intros i; [reflexivity |].
  cbn [Gemini.draft_loop]. rewrite draft_loop_spec, length_app, IH. reflexivity.
Qed.

(** X7.  The draft [generate_translation_draft] builds for review keeps
    every segment of the analysis, in order: it has as many segments, the
    one at position [i] carries index [i], the translation and the start of
    segment [i] of the analysis (read under its first or its second key
    name), and is not approved; the draft is ready for review exactly when
    it has a segment.  An error dict of the analysis is handed on as it
    is. *)
Theorem draft_keeps_segments (analysis : Gemini.AnalysisReply)
    (target_language : string) :
  match analysis with
  | Gemini.AnalysisError error =>
      Gemini.generate_translation_draft analysis target_language =
        Gemini.DraftError error
  | Gemini.AnalysisResult a =>
      exists d,
        Gemini.generate_translation_draft analysis target_language =
          Gemini.DraftResult d /\
        let segments := default [] (Gemini.ad_segments a) in
        List.length (Gemini.dd_segments d) = List.length segments /\
        Gemini.dd_total_segments d = List.length segments /\
        (Gemini.dd_ready_for_review d = false <-> segments = []) /\
        (forall i seg, segments !! i = Some seg ->
           exists ds, Gemini.dd_segments d !! i = Some ds /\
             Gemini.ds_index ds = i /\
             Gemini.ds_is_approved ds = false /\
             Gemini.ds_translated_text ds =
               get seg "translated_text" (get seg "translation" (Gemini.JStr "")) /\
             Gemini.ds_start ds =
               get seg "start_time" (get seg "start" (Gemini.JNum 0)))
  end.
Proof.
  destruct analysis as [error | a]; [reflexivity |].
  eexists. split; [reflexivity |]. cbn.
  rewrite draft_loop_length.
  split; [reflexivity |]. split; [reflexivity |]. split.
  - destruct (default [] (Gemini.ad_segments a)); cbn; split;
      (reflexivity || discriminate).
  - intros i seg Hi. exact (draft_loop_lookup _ 0 i seg Hi).
Qed.

(** ** How [analyze_video] ends *)

Lemma retry_loop_raised (generate_content : nat -> result Gemini.Response) (e : exn) :
  forall attempts,
  (Gemini.retry_loop generate_content attempts).1 = Gemini.Raised e ->
  exists k, In k attempts /\ generate_content k = Raise e /\
            Gemini.is_transient e = false.
Proof.
  induction attempts as [| a rest IH]; [discriminate |].
  cbn [Gemini.retry_loop].
  destruct (generate_content a) as [response | e'] eqn:Ea; [discriminate |].
  destruct (Gemini.is_transient e') eqn:Et.
  - destruct (a <? Gemini.MAX_RETRIES - 1)%nat; [| discriminate].
    destruct (Gemini.retry_loop generate_content rest) as [x evs].
    cbn [fst] in *. intros H. destruct (IH H) as (k & Hk & Hg & Hn).
    exists k. split; [right; exact Hk | auto].
  - cbn. intros H. injection H as <-. exists a. split; [left; reflexivity | auto].
Qed.

Lemma retry_loop_broke (generate_content : nat -> result Gemini.Response)
    (response : Gemini.Response) :
  forall attempts,
  (Gemini.retry_loop generate_content attempts).1 = Gemini.Broke response ->
  exists k, In k attempts /\ generate_content k = Ok response.
Proof.
  induction attempts as [| a rest IH]; [discriminate |].
  cbn [Gemini.retry_loop].
  destruct (generate_content a) as [r | e'] eqn:Ea.
  - cbn. intros H. injection H as <-. exists a. split; [left; reflexivity | exact Ea].
  - destruct (Gemini.is_transient e'); [| discriminate].
    destruct (a <? Gemini.MAX_RETRIES - 1)%nat; [| discriminate].
    destruct (Gemini.retry_loop generate_content rest) as [x evs].
    cbn [fst] in *. intros H. destruct (IH H) as (k & Hk & Hg).
    exists k. split; [right; exact Hk | exact Hg].
Qed.

(** What [parse_response] does with a response, when the method assigns
    keys to the parsed value. *)
Lemma parse_response_assigning (cl : Gemini.Client) (parse_error : string)
    (response : Gemini.Response) :
  match Gemini.parse_response cl parse_error true response with
  | Raise e =>
      match Gemini.text response with
      | None =>
          e = TypeError
                "the JSON object must be str, bytes or bytearray, not NoneType"
      | Some t =>
          (Gemini.json_loads cl t = Raise e /\
           forall msg, e <> JSONDecodeError msg) \/
          (exists v, Gemini.json_loads cl t = Ok v /\ v <> Gemini.LoadedDict /\
                     Gemini.setitem v = Raise e)
      end
  | Ok (Gemini.ErrorReply error) =>
      error = parse_error /\
      exists t msg, Gemini.text response = Some t /\
                    Gemini.json_loads cl t = Raise (JSONDecodeError msg)
  | Ok (Gemini.ResultReply payload) =>
      Gemini.text response = Some payload /\
      Gemini.json_loads cl payload = Ok Gemini.LoadedDict
  end.
Proof.
  unfold Gemini.parse_response, Gemini.loads.
  destruct (Gemini.text response) as [t |]; [| reflexivity].
  destruct (Gemini.json_loads cl t) as [v | e] eqn:El.
  - destruct v as [| | type_name]; cbn.
    + split; [reflexivity | exact El].
    + right. exists Gemini.LoadedList.
      split; [reflexivity | split; [discriminate | reflexivity]].
    + right. exists (Gemini.LoadedOther type_name).
      split; [reflexivity | split; [discriminate | reflexivity]].
  - destruct e; try (left; split; [reflexivity | discriminate]).
    split; [reflexivity |]. eauto.
Qed.

(** X8.  [analyze_video] raises only in these cases: a call of the
    model, at an attempt below 10, raised an error that is not transient,
    and that error comes out; or the model answered and the answer has no
    text, or [json.loads] raised something other than [JSONDecodeError],
    or the text is JSON but not an object, so that the assignment of
    ["source_language"] to the parsed value raises [TypeError].  When it
    returns a parsed result, the text was a response of the model that
    [json.loads] turned into a dict.  A missing configuration, a failed
    upload, a video the service could not process, an exhausted quota and
    an answer that is not JSON are returned as error dicts. *)
Theorem analyze_video_outcomes (cl : Gemini.Client) (fuel : nat)
    (video_path : string) :
  match Gemini.analyze_video cl fuel video_path with
  | None => True
  | Some (Raise e, _) =>
      (exists attempt, (attempt < Gemini.MAX_RETRIES)%nat /\
         Gemini.generate_content cl attempt = Raise e /\
         Gemini.is_transient e = false) \/
      (exists attempt response,
         (attempt < Gemini.MAX_RETRIES)%nat /\
         Gemini.generate_content cl attempt = Ok response /\
         match Gemini.text response with
         | None =>
             e = TypeError
                   "the JSON object must be str, bytes or bytearray, not NoneType"
         | Some t =>
             (Gemini.json_loads cl t = Raise e /\
              forall msg, e <> JSONDecodeError msg) \/
             (exists v, Gemini.json_loads cl t = Ok v /\
                        v <> Gemini.LoadedDict /\ Gemini.setitem v = Raise e)
         end)
  | Some (Ok (Gemini.ErrorReply _), _) => True
  | Some (Ok (Gemini.ResultReply payload), _) =>
      Gemini.json_loads cl payload = Ok Gemini.LoadedDict /\
      exists attempt, (attempt < Gemini.MAX_RETRIES)%nat /\
        Gemini.generate_content cl attempt = Ok {| Gemini.text := Some payload |}
  end.
Proof.
  unfold Gemini.analyze_video.
  destruct (negb (Gemini.configured cl)); [exact I |].
  destruct (Gemini.files_upload cl video_path) as [state | e]; [| exact I].
  destruct (Gemini.wait_for_processing cl fuel 0 state) as [[[state' | e] evs0] |];
    [| exact I | exact I].
  destruct (String.eqb state' "FAILED"); [exact I |].
  destruct (Gemini.generate_with_retry (Gemini.generate_content cl))
    as [x evs] eqn:El.
  unfold Gemini.generate_with_retry in El.
  destruct x as [response | err | e |]; cbn [Gemini.after_loop].
  - destruct (retry_loop_broke (Gemini.generate_content cl) response
                (seq 0 Gemini.MAX_RETRIES)) as (k & Hk & Hg);
      [rewrite El; reflexivity |].
    apply in_seq in Hk.
    pose proof (parse_response_assigning cl "Failed to parse Gemini response"
                  response) as Hp.
    destruct (Gemini.parse_response cl "Failed to parse Gemini response" true
                response) as [[error | payload] | e].
    + exact I.
    + destruct Hp as [Ht Hl]. split; [exact Hl |].
      exists k. split; [lia |]. rewrite Hg. f_equal.
      destruct response as [t]. cbn in Ht. rewrite Ht. reflexivity.
    + right. exists k, response. split; [lia |]. split; [exact Hg | exact Hp].
  - exact I.
  - destruct (retry_loop_raised (Gemini.generate_content cl) e
                (seq 0 Gemini.MAX_RETRIES)) as (k & Hk & Hg & Hn);
      [rewrite El; reflexivity |].
    apply in_seq in Hk. left. exists k. split; [lia | auto].
  - exact I.
Qed.

(** An answer that is a JSON array makes [analyze_video] raise
    [TypeError], while [quick_translate] returns it. *)
Example analyze_video_array_answer :
  let cl := Scenario.client_with (Ok "ACTIVE") (fun _ => Ok "ACTIVE")
              (fun _ => Ok (Scenario.answer "[]")) in
  Gemini.analyze_video cl 1 "talk.mp4" =
    Some (Raise (TypeError "list indices must be integers or slices, not str"),
          [Gemini.Uploaded; Gemini.Called 0]) /\
  Gemini.quick_translate cl = (Ok (Gemini.ResultReply "[]"), [Gemini.Called 0]) /\
  (Gemini.generate_metadata cl).1 =
    Raise (TypeError "list indices must be integers or slices, not str").
Proof. vm_compute. repeat split; reflexivity. Qed.

(** ** The storage service *)

Lemma catch_client_error_raises (body : result S3.Reply) (e : exn) :
  S3.catch_client_error body = Raise e ->
  body = Raise e /\ forall msg, e <> ClientError msg.
Proof.
  destruct body as [r | [] ]; cbn; intros H; try discriminate H;
    injection H as <-; (split; [reflexivity | discriminate]).
Qed.

(** X9.  The S3 service reports, it does not raise, what the S3 client
    raises: [download_file], [upload_file] and
    [generate_presigned_download_url] never let a [ClientError] escape, and
    without configuration they answer "S3 not configured" without touching
    the client.  What can escape [download_file] is another kind of
    exception, such as the [OSError] of creating the local directory. *)
Theorem s3_client_errors_are_returned (b : S3.Bucket) (s3_key local_path : string) :
  (forall msg,
     S3.download_file b s3_key local_path <> Raise (ClientError msg) /\
     S3.upload_file b local_path s3_key <> Raise (ClientError msg) /\
     S3.generate_presigned_download_url b s3_key <> Raise (ClientError msg)) /\
  (S3.is_configured b = false ->
   S3.download_file b s3_key local_path = Ok (S3.ErrorReply "S3 not configured") /\
   S3.upload_file b local_path s3_key = Ok (S3.ErrorReply "S3 not configured") /\
   S3.generate_presigned_download_url b s3_key
     = Ok (S3.ErrorReply "S3 not configured")) /\
  (forall e, S3.is_configured b = true -> S3.makedirs b local_path = Raise e ->
     (forall msg, e <> ClientError msg) ->
     S3.download_file b s3_key local_path = Raise e).
Proof.
  split; [| split].
  - intros msg.
    unfold S3.download_file, S3.upload_file, S3.generate_presigned_download_url.
    destruct (negb (S3.is_configured b)); [repeat split; discriminate |].
    repeat split; intros H; apply catch_client_error_raises in H as [_ H];
      exact (H msg eq_refl).
  - intros Hc.
    unfold S3.download_file, S3.upload_file, S3.generate_presigned_download_url.
    rewrite Hc. repeat split; reflexivity.
  - intros e Hc Hm Hne. unfold S3.download_file. rewrite Hc, Hm. cbn.
    destruct e; try reflexivity. exfalso. exact (Hne _ eq_refl).
Qed.

Lemma contains_cons (pat : string) (c : ascii) (s : string) :
  contains pat (String c s) = false ->
  String.prefix pat (String c s) = false /\ contains pat s = false.
Proof.
  cbn [contains]. intros H. apply orb_false_iff in H. exact H.
Qed.

Lemma contains_app_r (pat a b : string) :
  contains pat b = true -> contains pat (a ++ b) = true.
Proof.
  intros H. induction a as [| x a IH]; [exact H |].
  unfold String.append; fold String.append. cbn [contains].
  rewrite IH. apply orb_true_r.
Qed.

(** Without an occurrence of the separator there is one piece. *)
Lemma split_on_aux_none (sep : string) (s : string) : forall cur,
  contains sep s = false ->
  split_on_aux sep s 0 cur = [string_of_list_ascii (rev cur) ++ s].
Proof.
  induction s as [| c s IH]; intros cur H.
  - cbn. rewrite string_app_nil_r. reflexivity.
  - apply contains_cons in H as [Hp Hc].
    cbn [split_on_aux]. rewrite Hp, (IH (c :: cur) Hc).
    cbn [rev]. rewrite string_of_list_ascii_snoc. reflexivity.
Qed.

(** The first piece of a split at ["?"]. *)
Lemma split_on_question_head (key query : string) : forall cur,
  contains "?" key = false ->
  head (split_on_aux "?" (key ++ "?" ++ query) 0 cur)
  = Some (string_of_list_ascii (rev cur) ++ key).
Proof.
  induction key as [| c key IH]; intros cur H.
  - change ("" ++ "?" ++ query) with (String "?" query). cbn [split_on_aux].
    assert (Hp : String.prefix "?" (String "?" query) = true)
      by exact (prefix_app "?" query).
    rewrite Hp. cbn [head].
    rewrite string_app_nil_r. reflexivity.
  - apply contains_cons in H as [Hp Hc].
    change (String c key ++ "?" ++ query) with (String c (key ++ "?" ++ query)).
    cbn [split_on_aux].
    assert (Hp' : String.prefix "?" (String c (key ++ "?" ++ query)) = false).
    { cbn [String.prefix] in Hp |- *. destruct (ascii_dec "?" c); [| reflexivity].
      destruct key; cbn [String.prefix] in Hp; discriminate Hp. }
    rewrite Hp', (IH (c :: cur) Hc).
    cbn [rev]. rewrite string_of_list_ascii_snoc. reflexivity.
Qed.

Lemma last_cons_Some {A} (x y : A) (l : list A) :
  last l = Some y -> last (x :: l) = Some y.
Proof. destruct l; [discriminate | trivial]. Qed.

Ltac split_prefix H :=
  lazy beta iota delta [String.append String.prefix] in H;
  repeat match type of H with
         | (if ascii_dec ?a ?b then _ else _) = true =>
             let e := fresh "e" in
             destruct (ascii_dec a b) as [e | e];
             [first [discriminate e | subst] | discriminate H]
         end.

(** The last piece of a split at [".com/"]: what follows the last
    occurrence. *)
Lemma split_on_com_last (rest : string) (n : nat) : forall pre cur,
  (String.length pre <= n)%nat ->
  contains ".com/" rest = false ->
  last (split_on_aux ".com/" (pre ++ ".com/" ++ rest) 0 cur) = Some rest.
Proof.
  induction n as [n IH] using lt_wf_ind. intros pre cur Hlen Hrest.
  destruct pre as [| c pre].
  - change ("" ++ ".com/" ++ rest) with (String "." ("com/" ++ rest)).
    cbn [split_on_aux].
    assert (Hp : String.prefix ".com/" (String "." ("com/" ++ rest)) = true)
      by exact (prefix_app ".com/" rest).
    rewrite Hp.
    change (split_on_aux ".com/" ("com/" ++ rest) (String.length ".com/" - 1) [])
      with (split_on_aux ".com/" rest 0 []).
    rewrite (split_on_aux_none _ _ _ Hrest). reflexivity.
  - change (String c pre ++ ".com/" ++ rest)
      with (String c (pre ++ ".com/" ++ rest)).
    cbn [split_on_aux].
    destruct (String.prefix ".com/" (String c (pre ++ ".com/" ++ rest))) eqn:Ep.
    + apply last_cons_Some.
      destruct pre as [| c1 [| c2 [| c3 [| c4 pre]]]];
        try (exfalso; split_prefix Ep; fail).
      change (split_on_aux ".com/"
                (String c1 (String c2 (String c3 (String c4 pre))) ++ ".com/" ++ rest)
                (String.length ".com/" - 1) [])
        with (split_on_aux ".com/" (pre ++ ".com/" ++ rest) 0 []).
      apply (IH (String.length pre)); [cbn in Hlen; lia | lia | exact Hrest].
    + apply (IH (String.length pre)); [cbn in Hlen; lia | lia | exact Hrest].
Qed.

Lemma bare_key_of_url (pre key query : string) :
  contains "?" key = false ->
  contains ".com/" (key ++ "?" ++ query) = false ->
  S3.bare_key (pre ++ "amazonaws.com/" ++ key ++ "?" ++ query) = key.
Proof.
  intros Hq Hcom. unfold S3.bare_key.
  rewrite contains_app_r by reflexivity.
  change (pre ++ "amazonaws.com/" ++ key ++ "?" ++ query)
    with (pre ++ "amazonaws" ++ ".com/" ++ key ++ "?" ++ query).
  rewrite <- (string_app_assoc pre "amazonaws").
  unfold split_on.
  rewrite (split_on_com_last _ _ _ [] (Nat.le_refl _) Hcom).
  cbn [from_option id].
  rewrite (split_on_question_head key query [] Hq). reflexivity.
Qed.

(** X10.  A full S3 URL stored by mistake is treated like the bare key it
    holds: [create_presigned_url] cuts [<anything>amazonaws.com/<key>?<query>]
    down to [<key>] and answers exactly as it does for [<key>] itself,
    provided the key has no ["?"], key and query have no [".com/"], and
    the key is not itself such a URL. *)
Theorem presigned_url_of_stored_url (w : S3.Web) (pre key query : string) :
  truthy key = true ->
  contains "amazonaws.com" key = false ->
  contains "?" key = false ->
  contains ".com/" (key ++ "?" ++ query) = false ->
  S3.bare_key (pre ++ "amazonaws.com/" ++ key ++ "?" ++ query) = key /\
  S3.create_presigned_url w (pre ++ "amazonaws.com/" ++ key ++ "?" ++ query)
  = S3.create_presigned_url w key.
Proof.
  intros Ht Ha Hq Hcom.
  pose proof (bare_key_of_url pre key query Hq Hcom) as Hbare.
  split; [exact Hbare |].
  unfold S3.create_presigned_url. rewrite Hbare, Ht.
  assert (Hu : truthy (pre ++ "amazonaws.com/" ++ key ++ "?" ++ query) = true)
    by (destruct pre; reflexivity).
  rewrite Hu. unfold S3.bare_key at 1. rewrite Ha. reflexivity.
Qed.

Lemma presigned_url_of_stored_url_witness :
  S3.bare_key
    ("https://bucket.s3.eu-north-1." ++ "amazonaws.com/"
     ++ "outputs/job-0001/localized_hindi.mp4" ++ "?" ++ "X-Amz-Expires=3600")
  = "outputs/job-0001/localized_hindi.mp4".
Proof.
  apply (presigned_url_of_stored_url
           {| S3.bucket := Scenario.good_bucket; S3.CLOUDFRONT_DOMAIN := None;
              S3.netloc := fun _ => "" |}); reflexivity.
Defined.

(** ** The history table: save, look up, delete *)

(** The filter of the query [get_video_by_job_id] runs. *)
Lemma get_video_by_job_id_Some (cn : DB.Conn) (t : DB.Table)
    (user_id job_id : string) (video : gmap string DB.attr) :
  DB.get_video_by_job_id cn t user_id job_id = Some video ->
  In video (DB.rows t) /\
  DB.attr_is_str (video !! "PK") ("USER#" ++ user_id) = true /\
  DB.attr_begins_with (video !! "SK") "VIDEO#" = true /\
  DB.attr_is_str (video !! "job_id") job_id = true.
Proof.
  unfold DB.get_video_by_job_id.
  destruct (negb (DB.is_configured cn)); [discriminate |].
  destruct (DB.query_error cn); [discriminate |].
  intros H. apply head_Some in H as [l' Hl].
  assert (Hin : In video (List.filter
            (fun r => DB.attr_is_str (r !! "PK") ("USER#" ++ user_id)
                      && DB.attr_begins_with (r !! "SK") "VIDEO#"
                      && DB.attr_is_str (r !! "job_id") job_id) (DB.rows t)))
    by (rewrite Hl; left; reflexivity).
  apply filter_In in Hin as [Hin Hq].
  apply andb_true_iff in Hq as [Hq Hj]. apply andb_true_iff in Hq as [Hp Hs].
  auto.
Qed.

Lemma get_video_by_job_id_None (cn : DB.Conn) (t : DB.Table)
    (user_id job_id : string) :
  DB.is_configured cn = true -> DB.query_error cn = None ->
  DB.get_video_by_job_id cn t user_id job_id = None ->
  List.filter
    (fun r => DB.attr_is_str (r !! "PK") ("USER#" ++ user_id)
              && DB.attr_begins_with (r !! "SK") "VIDEO#"
              && DB.attr_is_str (r !! "job_id") job_id) (DB.rows t) = [].
Proof.
  unfold DB.get_video_by_job_id. intros -> ->. cbn [negb].
  destruct (List.filter _ (DB.rows t)); [reflexivity | discriminate].
Qed.

Lemma attr_is_str_eq (a : option DB.attr) (s : string) :
  DB.attr_is_str a s = true -> a = Some (DB.AStr s).
Proof.
  destruct a as [[t | | | |] |]; try discriminate.
  cbn. intros H. apply String.eqb_eq in H. subst. reflexivity.
Qed.

Lemma List_filter_sublist {A} (f : A -> bool) (l : list A) :
  sublist (List.filter f l) l.
Proof.
  induction l as [| x l IH]; [constructor |].
  cbn. destruct (f x); [apply sublist_skip | apply sublist_cons]; exact IH.
Qed.

Lemma set_attrs_app (l1 l2 : list (string * DB.attr)) (it : gmap string DB.attr) :
  DB.set_attrs (l1 ++ l2) it = DB.set_attrs l2 (DB.set_attrs l1 it).
Proof. unfold DB.set_attrs. apply foldl_app. Qed.

(** The item [save_video] writes, read at one of its required keys. *)
Lemma save_video_item (cn : DB.Conn)
    (user_id job_id target_language input_file status : string)
    (o : DB.SaveOptions) (t : DB.Table) :
  DB.is_configured cn = true -> DB.write_error cn = None ->
  exists item,
    DB.save_video cn user_id job_id target_language input_file status o t =
      (DB.SuccessReply,
       DB.put_item ("USER#" ++ user_id) ("VIDEO#" ++ DB.now cn) item t) /\
    item !! "PK" = Some (DB.AStr ("USER#" ++ user_id)) /\
    item !! "SK" = Some (DB.AStr ("VIDEO#" ++ DB.now cn)) /\
    item !! "job_id" = Some (DB.AStr job_id) /\
    item !! "target_language" = Some (DB.AStr target_language) /\
    item !! "input_file" = Some (DB.AStr input_file) /\
    item !! "status" = Some (DB.AStr status).
Proof.
  intros Hc Hw. unfold DB.save_video. rewrite Hc, Hw. cbn [negb].
  eexists. split; [reflexivity |].
  assert (Hopt : forall k,
    "output_url" <> k -> "output_s3_key" <> k -> "subtitle_s3_key" <> k ->
    "words_localized" <> k -> "whatsapp_url" <> k -> "file_size_mb" <> k ->
    "cultural_report" <> k -> "segments_count" <> k -> "draft_segments" <> k ->
    Forall (fun kv : string * DB.attr => kv.1 <> k)
      (DB.opt_str "output_url" (DB.so_output_url o)
       ++ DB.opt_str "output_s3_key" (DB.so_output_s3_key o)
       ++ DB.opt_str "subtitle_s3_key" (DB.so_subtitle_s3_key o)
       ++ match DB.so_words_localized o with
          | Some n => [("words_localized", DB.ANum n)] | None => [] end
       ++ DB.opt_str "whatsapp_url" (DB.so_whatsapp_url o)
       ++ match DB.so_file_size_mb o with
          | Some q => [("file_size_mb", DB.AFloatStr q)] | None => [] end
       ++ DB.opt_str "cultural_report" (DB.so_cultural_report o)
       ++ match DB.so_segments_count o with
          | Some n => [("segments_count", DB.ANum n)] | None => [] end
       ++ match DB.so_draft_segments o with
          | Some (s :: l) => [("draft_segments", DB.ASegments (s :: l))]
          | _ => [] end)%list).
  { intros k H1 H2 H3 H4 H5 H6 H7 H8 H9.
    repeat (apply List.Forall_app; split);
      try (apply opt_str_keys; assumption);
      try (destruct (DB.so_words_localized o));
      try (destruct (DB.so_file_size_mb o));
      try (destruct (DB.so_segments_count o));
      try (destruct (DB.so_draft_segments o) as [[| ? ?] |]);
      repeat constructor; assumption. }
  repeat split;
    (rewrite (set_attrs_app
                [("PK", DB.AStr ("USER#" ++ user_id));
                 ("SK", DB.AStr ("VIDEO#" ++ DB.now cn));
                 ("job_id", DB.AStr job_id); ("user_id", DB.AStr user_id);
                 ("target_language", DB.AStr target_language);
                 ("input_file", DB.AStr input_file); ("status", DB.AStr status);
                 ("created_at", DB.AStr (DB.now cn))]);
     rewrite set_attrs_other by (apply Hopt; discriminate);
     unfold DB.set_attrs; cbn [foldl fst snd];
     rewrite ?lookup_insert_ne by discriminate;
     apply lookup_insert_eq).
Qed.

(** X11.  Saving and looking up agree: when the connection works and the
    user has no record of the job yet, [save_video] reports success and
    [get_video_by_job_id] then finds the record it wrote, with the status,
    the input file and the target language that were saved. *)
Theorem saved_video_is_found (cn : DB.Conn)
    (user_id job_id target_language input_file status : string)
    (o : DB.SaveOptions) (t : DB.Table) :
  DB.is_configured cn = true -> DB.write_error cn = None ->
  DB.query_error cn = None ->
  DB.get_video_by_job_id cn t user_id job_id = None ->
  (DB.save_video cn user_id job_id target_language input_file status o t).1
    = DB.SuccessReply /\
  exists item,
    DB.get_video_by_job_id cn
      (DB.save_video cn user_id job_id target_language input_file status o t).2
      user_id job_id = Some item /\
    item !! "status" = Some (DB.AStr status) /\
    item !! "input_file" = Some (DB.AStr input_file) /\
    item !! "target_language" = Some (DB.AStr target_language).
Proof.
  intros Hc Hw Hq Hnone.
  destruct (save_video_item cn user_id job_id target_language input_file status
              o t Hc Hw) as (item & Hsave & Hpk & Hsk & Hjob & Hlang & Hfile & Hst).
  rewrite Hsave. cbn [fst snd]. split; [reflexivity |].
  exists item. split; [| auto].
  pose proof (get_video_by_job_id_None cn t user_id job_id Hc Hq Hnone) as Hold.
  unfold DB.get_video_by_job_id. rewrite Hc, Hq. cbn [negb].
  unfold DB.put_item. cbn [DB.rows].
  rewrite List.filter_app.
  set (q := fun r : gmap string DB.attr =>
              DB.attr_is_str (r !! "PK") ("USER#" ++ user_id)
              && DB.attr_begins_with (r !! "SK") "VIDEO#"
              && DB.attr_is_str (r !! "job_id") job_id) in *.
  assert (Hnil : List.filter q
            (List.filter (fun r => negb (DB.same_key ("USER#" ++ user_id)
                                           ("VIDEO#" ++ DB.now cn) r))
               (DB.rows t)) = []).
  { destruct (List.filter q (List.filter _ (DB.rows t))) as [| x l] eqn:E;
      [reflexivity |].
    assert (Hx : In x (List.filter q (DB.rows t))).
    { assert (Hx : In x (x :: l)) by (left; reflexivity).
      rewrite <- E in Hx. apply filter_In in Hx as [Hx Hqx].
      apply filter_In in Hx as [Hx _]. apply filter_In. split; assumption. }
    rewrite Hold in Hx. destruct Hx. }
  rewrite Hnil. cbn [app List.filter].
  assert (Hitem : q item = true).
  { unfold q. rewrite Hpk, Hsk, Hjob. cbn [DB.attr_is_str DB.attr_begins_with].
    rewrite !String.eqb_refl, prefix_app. reflexivity. }
  rewrite Hitem. reflexivity.
Qed.

Lemma saved_video_is_found_witness :
  exists item,
    DB.get_video_by_job_id Scenario.good_conn Scenario.history0 "user_1" "job-0001"
      = Some item /\
    item !! "status" = Some (DB.AStr "needs_review").
Proof.
  destruct (saved_video_is_found Scenario.good_conn "user_1" "job-0001" "hindi"
              "uploads/talk.mp4" "needs_review"
              {| DB.so_output_url := None; DB.so_whatsapp_url := None;
                 DB.so_file_size_mb := None; DB.so_cultural_report := None;
                 DB.so_segments_count := Some 2;
                 DB.so_draft_segments := Some Scenario.approved;
                 DB.so_output_s3_key := None; DB.so_subtitle_s3_key := None;
                 DB.so_words_localized := None |}
              {| DB.rows := [] |})
    as (_ & item & Hget & Hst & _); try reflexivity.
  exists item. split; [exact Hget | exact Hst].
Defined.

(** X12.  [delete_video] touches only the caller's partition: whatever
    the outcome, the table that is left is the old one with rows removed,
    every row whose [PK] is not [USER#<user_id>] is still there, and a
    success means that the user had a record of that job, which is gone
    afterwards. *)
Theorem delete_video_isolation (cn : DB.Conn) (user_id job_id : string)
    (t : DB.Table) :
  let reply := (DB.delete_video cn user_id job_id t).1 in
  let t' := (DB.delete_video cn user_id job_id t).2 in
  sublist (DB.rows t') (DB.rows t) /\
  (forall row, In row (DB.rows t) ->
     DB.attr_is_str (row !! "PK") ("USER#" ++ user_id) = false ->
     In row (DB.rows t')) /\
  (reply = DB.SuccessReply ->
   exists video,
     DB.get_video_by_job_id cn t user_id job_id = Some video /\
     DB.attr_is_str (video !! "job_id") job_id = true /\
     DB.attr_is_str (video !! "PK") ("USER#" ++ user_id) = true /\
     ~ In video (DB.rows t')).
Proof.
  cbn zeta. unfold DB.delete_video.
  destruct (negb (DB.is_configured cn));
    [cbn; split; [reflexivity | split; [auto | discriminate]] |].
  destruct (DB.get_video_by_job_id cn t user_id job_id) as [video |] eqn:Eget;
    [| cbn; split; [reflexivity | split; [auto | discriminate]]].
  destruct (DB.write_error cn);
    [cbn; split; [reflexivity | split; [auto | discriminate]] |].
  destruct (get_video_by_job_id_Some _ _ _ _ _ Eget) as (Hin & Hpk & Hsk & Hjob).
  pose proof (attr_is_str_eq _ _ Hpk) as Epk. rewrite Epk.
  change (truthy ("USER#" ++ user_id)) with true. cbn iota.
  destruct (video !! "SK") as [[sk | | | |] |] eqn:Esk; try discriminate Hsk.
  cbn [fst snd DB.rows]. split; [| split].
  - apply List_filter_sublist.
  - intros row Hrow Hother. apply filter_In. split; [exact Hrow |].
    unfold DB.same_key. rewrite Hother. reflexivity.
  - intros _. exists video. split; [reflexivity |]. split; [exact Hjob |].
    split; [exact Hpk |]. intros Hv. apply filter_In in Hv as [_ Hv].
    unfold DB.same_key in Hv. rewrite Epk, Esk in Hv.
    cbn [DB.attr_is_str] in Hv. rewrite !String.eqb_refl in Hv. discriminate.
Qed.

(** ** The history table under the endpoints *)

Lemma finalize_dubbing_table (env : Video.Env) (request : Video.FinalizeRequest)
    (user_sub : option string) (w : Video.State) :
  Video.no_video_attr (Video.table w) ->
  Video.table (Video.finalize_dubbing env request user_sub w).2 = Video.table w.
Proof.
  intros Hinv. unfold Video.finalize_dubbing.
  destruct (Video.req_job_id request) as [job_id |]; [| reflexivity].
  destruct (negb (truthy job_id)); [reflexivity |].
  destruct (default [] (Video.req_approved_segments request)) as [| seg segs];
    [reflexivity |].
  destruct (Video.jobs w !! job_id) as [j0 |]; [| reflexivity].
  destruct (negb (FFmpeg.is_available (Video.ffmpeg_service env)));
    [reflexivity |].
  cbn [Video.jobs Video.job_results Video.table Video.tasks Video.log].
  destruct (truthy_opt user_sub).
  - pose proof (update_job_segments_table (Video.db_service env)
                  (default "" user_sub) job_id (seg :: segs) (Some "processing")
                  (Video.table w) Hinv) as Hseg.
    destruct (DB.update_job_segments _ _ _ _ _ _) as [[reply | e] t'];
      cbn [snd] in Hseg; subst t'; reflexivity.
  - reflexivity.
Qed.

(** X13.  Phase 2 never writes to the history table.  If no stored record
    carries a ["video"] attribute, as is the case of every record
    [save_video] writes, then the table is the same after the [/finalize]
    endpoint, and the same again after the task it queued has run: neither
    the approved segments nor the final status reach it, whatever the
    request and whatever the external calls do. *)
Theorem phase2_never_writes_history (env : Video.Env)
    (request : Video.FinalizeRequest) (user_sub : option string)
    (w : Video.State) :
  Video.no_video_attr (Video.table w) ->
  Video.table (Video.finalize_dubbing env request user_sub w).2 = Video.table w /\
  Video.table (Video.phase2 env request user_sub w).2 = Video.table w.
Proof.
  intros Hinv.
  pose proof (finalize_dubbing_table env request user_sub w Hinv) as Hend.
  split; [exact Hend |].
  unfold Video.phase2.
  destruct (Video.finalize_dubbing env request user_sub w) as [[ack | e] w'];
    cbn [snd] in *; [| exact Hend].
  destruct (last (Video.tasks w')) as [t |]; [| exact Hend].
  rewrite phase2_history_unchanged by (rewrite Hend; exact Hinv).
  exact Hend.
Qed.

Lemma phase2_never_writes_history_witness :
  Video.table (Video.phase2 Scenario.env_src Scenario.finalize_request
                 (Some "user_1") Scenario.state0).2 = Scenario.history0.
Proof.
  apply (phase2_never_writes_history Scenario.env_src Scenario.finalize_request
           (Some "user_1") Scenario.state0).
  exact (save_video_no_video_attr Scenario.good_conn "user_1" "job-0001" "hindi"
           "uploads/talk.mp4" "needs_review" _ {| DB.rows := [] |}
           (List.Forall_nil _)).
Defined.

(** X14.  Deleting a job the caller has no record of answers 404 and
    deletes nothing: the lookup is confined to the caller's partition, so a
    job id that exists only under another user is "not found" as well. *)
Theorem delete_unknown_video (env : Video.Env) (job_id user_id : string)
    (user : gmap string string) (w : Video.State) :
  user !! "sub" = Some user_id -> truthy user_id = true ->
  DB.is_configured (Video.db_service env) = true ->
  DB.get_video_by_job_id (Video.db_service env) (Video.table w) user_id job_id
    = None ->
  Video.delete_video env job_id user w =
    (Raise (HTTPException 404 "Video not found or not owned by user"), w).
Proof.
  intros Hsub Ht Hc Hnone. unfold Video.delete_video, DB.delete_video.
  rewrite Hsub. cbn [truthy_opt from_option id]. rewrite Ht, Hc. cbn [negb].
  rewrite Hnone. destruct w. reflexivity.
Qed.

Lemma delete_unknown_video_witness :
  Video.delete_video Scenario.env_src "job-0001" {["sub" := "user_2"]}
    Scenario.state0 =
  (Raise (HTTPException 404 "Video not found or not owned by user"),
   Scenario.state0).
Proof.
  apply (delete_unknown_video Scenario.env_src "job-0001" "user_2");
    vm_compute; reflexivity.
Defined.

(** ** How the background tasks end *)

Ltac draft_leaf :=
  split; [reflexivity |];
  first
    [ left; split; [reflexivity |]; split; [reflexivity |];
      eexists _, _; split; [eassumption |]; apply lookup_insert_eq
    | right; split; [reflexivity |]; eexists; split; reflexivity ].

(** Every run of the Phase 1 task returns, and it ends in one of two
    ways. *)
Lemma draft_task_outcome (env : Video.Env)
    (job_id file_key target_language : string) (user_id : option string)
    (w : Video.State) (j : LocalizationJob) :
  let xr := Video.draft_task env job_id file_key target_language user_id
              (Video.start_run w j) in
  xr.1 = Ok () /\
  ((status (Video.job xr.2) = COMPLETE /\ progress (Video.job xr.2) = 100 /\
    exists path d,
      Video.generate_translation_draft env path target_language = Ok (inr d) /\
      Video.results xr.2 !! job_id =
        Some {| Video.jr_segments := Video.draft_segments d;
                Video.jr_output_url := None; Video.jr_whatsapp_url := None;
                Video.jr_file_size_mb := None |}) \/
   (status (Video.job xr.2) = FAILED /\
    exists msg, error (Video.job xr.2) = Some msg /\
                message (Video.job xr.2) = "Analysis failed: " ++ msg)).
Proof. cbn zeta. run_task; draft_leaf. Qed.

(** X15.  [process_draft_creation] never raises, and it always settles
    the job: for a job that is registered it ends either [COMPLETE] with
    progress 100, and a poll of [/job/{job_id}] then shows the segments of
    the draft under ["results"], or [FAILED] with the error recorded and a
    message that quotes it, and a poll shows no results.  For a job id
    that is not registered it does nothing. *)
Theorem draft_creation_outcome (env : Video.Env)
    (job_id file_key target_language : string) (user_id : option string)
    (w : Video.State) :
  let xw := Video.process_draft_creation env job_id file_key target_language
              user_id w in
  xw.1 = Ok () /\
  match Video.jobs w !! job_id with
  | None => xw.2 = w
  | Some _ =>
      exists j',
        Video.jobs xw.2 !! job_id = Some j' /\
        ((status j' = COMPLETE /\ progress j' = 100 /\
          exists path d,
            Video.generate_translation_draft env path target_language
              = Ok (inr d) /\
            Video.get_job_status job_id xw.2 =
              Ok {| Video.resp_job := j';
                    Video.resp_results :=
                      Some {| Video.jr_segments := Video.draft_segments d;
                              Video.jr_output_url := None;
                              Video.jr_whatsapp_url := None;
                              Video.jr_file_size_mb := None |} |}) \/
         (status j' = FAILED /\
          (exists msg, error j' = Some msg /\
                       message j' = "Analysis failed: " ++ msg) /\
          Video.get_job_status job_id xw.2 =
            Ok {| Video.resp_job := j'; Video.resp_results := None |}))
  end.
Proof.
  cbn zeta. unfold Video.process_draft_creation.
  destruct (Video.jobs w !! job_id) as [j |]; [| split; reflexivity].
  pose proof (draft_task_outcome env job_id file_key target_language user_id w j)
    as [Hx Hr].
  destruct (Video.draft_task _ _ _ _ _ _) as [x r]. cbn [fst snd] in *.
  split; [exact Hx |].
  exists (Video.job r).
  assert (Hjob : Video.jobs (Video.finish_run w job_id r) !! job_id
                 = Some (Video.job r)) by apply lookup_insert_eq.
  split; [exact Hjob |].
  unfold Video.get_job_status. rewrite Hjob.
  destruct Hr as [(Hs & Hp & path & d & Hd & Hres) | (Hs & Hmsg)]; [left | right].
  - split; [exact Hs |]. split; [exact Hp |]. exists path, d.
    split; [exact Hd |]. rewrite Hs. cbn [Video.is_status].
    cbn [Video.finish_run Video.job_results]. rewrite Hres. reflexivity.
  - split; [exact Hs |]. split; [exact Hmsg |]. rewrite Hs. reflexivity.
Qed.

Lemma last_existsb {A} (f : A -> bool) (l : list A) (x : A) :
  last l = Some x -> f x = true -> existsb f l = true.
Proof.
  intros Hl Hf. apply existsb_exists. exists x. split; [| exact Hf].
  apply list_elem_of_In. apply last_Some in Hl as [l' ->].
  apply elem_of_app. right. left.
Qed.

(** X16.  The Phase 2 task always settles the job: whatever the external
    calls do, the job it leaves is [COMPLETE] or [FAILED], never an
    intermediate status, and that status is the last one it assigned.  It
    is [COMPLETE] only if a call of the stitcher returned a success. *)
Theorem finalize_task_settles (env : Video.Env)
    (job_id file_key target_language : string)
    (approved_segments : list Segment) (user_id : option string)
    (w : Video.State) (j : LocalizationJob) :
  let j' := Video.finalize_job env job_id file_key target_language
              approved_segments user_id w j in
  let evs := Video.finalize_trace env job_id file_key target_language
               approved_segments user_id w j in
  (status j' = COMPLETE \/ status j' = FAILED) /\
  last (Video.statuses evs) = Some (status j') /\
  (status j' = COMPLETE -> Video.stitch_succeeded evs = true).
Proof.
  cbn zeta. unfold Video.finalize_job, Video.finalize_trace.
  pose proof (finalize_task_summary env job_id file_key target_language
                approved_segments user_id w j) as (_ & _ & Hout & _ & Hlast & _).
  destruct (Video.finalize_task _ _ _ _ _ _ _) as [x r]. cbn [snd] in *.
  unfold Video.outcome_ok in Hout.
  apply andb_true_iff in Hout as [Hterm Himp].
  split; [| split; [exact Hlast |]].
  - apply orb_true_iff in Hterm as [H | H];
      apply bool_decide_eq_true in H; auto.
  - intros Hc.
    assert (Hcomp : Video.completed (Video.trace r) = true).
    { unfold Video.completed. apply (last_existsb _ _ _ Hlast).
      rewrite Hc. reflexivity. }
    rewrite Hcomp in Himp. exact Himp.
Qed.

(** ** Cue times *)

Lemma Qfloor_unique (x : Q) (k : Z) :
  (inject_Z k <= x)%Q -> (x < inject_Z (k + 1))%Q -> Qfloor x = k.
Proof.
  intros Hlo Hhi.
  pose proof (Qfloor_le x) as Hf. pose proof (Qlt_floor x) as Hc.
  assert (H1 : (inject_Z (Qfloor x) < inject_Z (k + 1))%Q) by lra.
  assert (H2 : (inject_Z k < inject_Z (Qfloor x + 1))%Q) by lra.
  rewrite <- Zlt_Qlt in H1, H2. lia.
Qed.

(** [x // d] for a positive integer [d]: the multiple of [d] below [x]. *)
Lemma floordiv_bounds (x : Q) (d : positive) :
  let k := Qfloor (x / inject_Z (Zpos d)) in
  floordiv x (inject_Z (Zpos d)) = inject_Z k /\
  (inject_Z k * inject_Z (Zpos d) <= x)%Q /\
  (x < (inject_Z k + 1) * inject_Z (Zpos d))%Q.
Proof.
  cbn zeta. split; [reflexivity |].
  assert (Hd : (0 < inject_Z (Zpos d))%Q) by (rewrite <- (Zlt_Qlt 0); lia).
  pose proof (Qfloor_le (x / inject_Z (Zpos d))) as Hf.
  pose proof (Qlt_floor (x / inject_Z (Zpos d))) as Hc.
  rewrite inject_Z_plus in Hc.
  assert (Hx : (x / inject_Z (Zpos d) * inject_Z (Zpos d) == x)%Q)
    by (rewrite Qmult_comm; apply Qmult_div_r, Qnot_eq_sym, Qlt_not_eq; exact Hd).
  split.
  - rewrite <- Hx at 2. apply Qmult_le_compat_r; lra.
  - rewrite <- Hx at 1. apply Qmult_lt_compat_r; [lra | exact Hc].
Qed.

Lemma floordiv_unique (x : Q) (d : positive) (k : Z) :
  (inject_Z k * inject_Z (Zpos d) <= x)%Q ->
  (x < (inject_Z k + 1) * inject_Z (Zpos d))%Q ->
  Qfloor (x / inject_Z (Zpos d)) = k.
Proof.
  intros Hlo Hhi.
  assert (Hd : (0 < inject_Z (Zpos d))%Q) by (rewrite <- (Zlt_Qlt 0); lia).
  apply Qfloor_unique.
  - apply Qle_shift_div_l; assumption.
  - rewrite inject_Z_plus. apply Qlt_shift_div_r; assumption.
Qed.

Lemma int_of_float_inject_Z (z : Z) : int_of_float (inject_Z z) = z.
Proof. unfold int_of_float. cbn. apply Z.quot_1_r. Qed.

(** The three fields of a cue time. *)
Lemma vtt_time_split (seconds : Q) :
  (0 <= seconds)%Q ->
  exists h m : Z,
    floordiv seconds 3600 = inject_Z h /\
    floordiv (fmod seconds 3600) 60 = inject_Z m /\
    (fmod seconds 60 == seconds - inject_Z (h * 3600 + m * 60))%Q /\
    0 <= h /\ 0 <= m < 60 /\
    (0 <= fmod seconds 60)%Q /\ (fmod seconds 60 < 60)%Q.
Proof.
  intros Hpos.
  destruct (floordiv_bounds seconds 3600) as (EA & HA1 & HA2).
  destruct (floordiv_bounds (fmod seconds 3600) 60) as (EB & HB1 & HB2).
  destruct (floordiv_bounds seconds 60) as (EC & HC1 & HC2).
  cbn zeta in *.
  change (inject_Z 3600) with 3600%Q in *. change (inject_Z 60) with 60%Q in *.
  set (A := Qfloor (seconds / 3600)) in *.
  set (B := Qfloor (fmod seconds 3600 / 60)) in *.
  set (C := Qfloor (seconds / 60)) in *.
  assert (Hr : (fmod seconds 3600 == seconds - 3600 * inject_Z A)%Q).
  { unfold fmod. rewrite EA. reflexivity. }
  rewrite Hr in HB1, HB2.
  assert (HC : C = 60 * A + B).
  { unfold C. apply (floordiv_unique seconds 60).
    - rewrite inject_Z_plus, inject_Z_mult.
      change (inject_Z 60) with 60%Q. lra.
    - rewrite inject_Z_plus, inject_Z_mult.
      change (inject_Z 60) with 60%Q. lra. }
  assert (Hs : (fmod seconds 60 == seconds - 60 * inject_Z C)%Q).
  { unfold fmod. rewrite EC. reflexivity. }
  exists A, B. split; [exact EA |]. split; [exact EB |].
  assert (HA0 : (inject_Z 0 < inject_Z (A + 1))%Q)
    by (rewrite inject_Z_plus; change (inject_Z 0) with 0%Q;
        change (inject_Z 1) with 1%Q; lra).
  assert (HB0 : (inject_Z 0 < inject_Z (B + 1))%Q)
    by (rewrite inject_Z_plus; change (inject_Z 0) with 0%Q;
        change (inject_Z 1) with 1%Q; lra).
  assert (HB60 : (inject_Z B < inject_Z 60)%Q)
    by (change (inject_Z 60) with 60%Q; lra).
  rewrite <- Zlt_Qlt in HA0, HB0, HB60.
  split; [| split; [lia | split; [lia |]]].
  - rewrite Hs, HC, !inject_Z_plus, !inject_Z_mult.
    change (inject_Z 60) with 60%Q. change (inject_Z 3600) with 3600%Q. lra.
  - rewrite Hs. split; lra.
Qed.

(** X17.  [format_vtt_time] splits a time exactly: for a non-negative
    number of seconds the hour and minute fields it prints are integers
    [h >= 0] and [0 <= m < 60], the seconds field is printed from a value
    [0 <= s < 60], and [h * 3600 + m * 60 + s] is the time that was
    given. *)
Theorem vtt_time_fields (seconds : Q) :
  (0 <= seconds)%Q ->
  exists (h m : Z) (s : Q),
    Video.format_vtt_time seconds =
      format_d 2 h ++ ":" ++ format_d 2 m ++ ":" ++ format_f 6 3 s /\
    0 <= h /\ 0 <= m < 60 /\ (0 <= s)%Q /\ (s < 60)%Q /\
    (seconds == inject_Z (h * 3600 + m * 60) + s)%Q.
Proof.
  intros Hpos.
  destruct (vtt_time_split seconds Hpos)
    as (h & m & Eh & Em & Es & Hh & Hm & Hs0 & Hs60).
  exists h, m, (fmod seconds 60). split.
  - unfold Video.format_vtt_time. rewrite Eh, Em, !int_of_float_inject_Z.
    reflexivity.
  - split; [exact Hh |]. split; [exact Hm |]. split; [exact Hs0 |].
    split; [exact Hs60 |]. rewrite Es. lra.
Qed.

Lemma vtt_time_fields_witness :
  exists (h m : Z) (s : Q),
    Video.format_vtt_time 3723.5 =
      format_d 2 h ++ ":" ++ format_d 2 m ++ ":" ++ format_f 6 3 s /\
    0 <= h /\ 0 <= m < 60 /\ (0 <= s)%Q /\ (s < 60)%Q /\
    (3723.5 == inject_Z (h * 3600 + m * 60) + s)%Q.
Proof. apply vtt_time_fields. vm_compute. discriminate. Defined.

Lemma round_half_even_above (x : Q) (k : Z) :
  (inject_Z k + (1 # 2) < x)%Q -> (x < inject_Z k + 1)%Q ->
  round_half_even x = k + 1.
Proof.
  intros Hlo Hhi. unfold round_half_even.
  assert (Hf : Qfloor x = k).
  { apply Qfloor_unique; [lra | rewrite inject_Z_plus; exact Hhi]. }
  rewrite Hf.
  assert (Hgt : ((x - inject_Z k ?= 1 # 2) = Gt)%Q) by (apply Qgt_alt; lra).
  rewrite Hgt. reflexivity.
Qed.

(** X18.  The seconds field of a cue time is rounded to milliseconds but
    never carried: a time whose seconds part lies above 59.9995 is printed
    with the seconds field [60.000], under the minute it belongs to. *)
Theorem vtt_time_seconds_60 (seconds : Q) :
  (0 <= seconds)%Q -> (59.9995 < fmod seconds 60)%Q ->
  exists h m : Z,
    0 <= h /\ 0 <= m < 60 /\
    (inject_Z (h * 3600 + m * 60) <= seconds)%Q /\
    (seconds < inject_Z (h * 3600 + m * 60) + 60)%Q /\
    Video.format_vtt_time seconds =
      format_d 2 h ++ ":" ++ format_d 2 m ++ ":" ++ "60.000".
Proof.
  intros Hpos Hhi.
  destruct (vtt_time_split seconds Hpos)
    as (h & m & Eh & Em & Es & Hh & Hm & Hs0 & Hs60).
  exists h, m. split; [exact Hh |]. split; [exact Hm |].
  split; [lra |]. split; [lra |].
  unfold Video.format_vtt_time. rewrite Eh, Em, !int_of_float_inject_Z.
  do 4 f_equal. unfold format_f.
  change (inject_Z (10 ^ Z.of_nat 3)) with 1000%Q.
  rewrite (round_half_even_above (fmod seconds 60 * 1000) 59999).
  - vm_compute. reflexivity.
  - change (inject_Z 59999) with 59999%Q. lra.
  - change (inject_Z 59999) with 59999%Q. lra.
Qed.

Lemma vtt_time_seconds_60_witness :
  exists h m : Z,
    0 <= h /\ 0 <= m < 60 /\
    (inject_Z (h * 3600 + m * 60) <= 119.9996)%Q /\
    (119.9996 < inject_Z (h * 3600 + m * 60) + 60)%Q /\
    Video.format_vtt_time 119.9996 =
      format_d 2 h ++ ":" ++ format_d 2 m ++ ":" ++ "60.000".
Proof.
  apply vtt_time_seconds_60.
  - vm_compute. discriminate.
  - vm_compute. reflexivity.
Defined.

Example vtt_time_just_below_two_minutes :
  Video.format_vtt_time 119.9996 = "00:01:60.000".
Proof. vm_compute. reflexivity. Qed.

(** ** Words and subtitles *)

Lemma lstrip_nil (l : list ascii) :
  lstrip l = [] -> forallb isspace l = true.
Proof.
  induction l as [| c l IH]; [reflexivity |].
  cbn. destruct (isspace c); [exact IH | discriminate].
Qed.

Lemma lstrip_all_space (l : list ascii) :
  forallb isspace l = true -> lstrip l = [].
Proof.
  induction l as [| c l IH]; [reflexivity |].
  cbn. destruct (isspace c); [exact IH | discriminate].
Qed.

Lemma lstrip_forallb (l : list ascii) :
  forallb isspace (lstrip l) = true -> forallb isspace l = true.
Proof.
  induction l as [| c l IH]; [reflexivity |].
  cbn. destruct (isspace c) eqn:E; [exact IH |].
  cbn. rewrite E. discriminate.
Qed.

Lemma forallb_rev_true {A} (f : A -> bool) (l : list A) :
  forallb f (rev l) = true -> forallb f l = true.
Proof.
  rewrite !forallb_forall. intros H x Hx. apply H. apply in_rev in Hx. exact Hx.
Qed.

Lemma truthy_string_of_list_ascii (l : list ascii) :
  truthy (string_of_list_ascii l) = false -> l = [].
Proof. destruct l; [reflexivity | discriminate]. Qed.

Lemma split_aux_all_space (l : list ascii) :
  forallb isspace l = true -> split_aux l [] = [].
Proof.
  induction l as [| c l IH]; [reflexivity |].
  cbn. destruct (isspace c); [exact IH | discriminate].
Qed.

(** A text that strips to nothing has no words. *)
Lemma strip_empty_split (s : string) :
  truthy (strip s) = false -> split s = [].
Proof.
  unfold strip, split. intros H.
  apply truthy_string_of_list_ascii in H.
  apply (f_equal (@rev ascii)) in H. rewrite rev_involutive in H. cbn in H.
  apply lstrip_nil in H. apply forallb_rev_true in H.
  apply lstrip_forallb in H. apply split_aux_all_space. exact H.
Qed.

(** X19.  The word count of the one-pass pipeline and its subtitle file
    agree on what is empty: a segment the subtitle loop skips, because its
    translated text strips to nothing, adds no word, so the count is the
    count over the segments that get a caption; and it is never
    negative. *)
Theorem words_of_captioned_segments (segments : list TtsSegment) :
  Video.analysis_words_localized segments =
    Video.analysis_words_localized
      (List.filter (fun seg => truthy (strip (default "" (tts_translated_text seg))))
         segments) /\
  0 <= Video.analysis_words_localized segments.
Proof.
  unfold Video.analysis_words_localized.
  induction segments as [| seg segs [IH1 IH2]]; [split; [reflexivity | cbn; lia] |].
  cbn [List.map foldr List.filter].
  destruct (truthy (strip (default "" (tts_translated_text seg)))) eqn:E.
  - cbn [List.map foldr]. split; [rewrite IH1; reflexivity | lia].
  - rewrite (strip_empty_split _ E). cbn [List.length]. split; [exact IH1 | lia].
Qed.

(** ** Starting a job and polling it *)

(** X20.  A job started by [/localize] can be polled at once: the answer
    of [/job/{job_id}] for the id that was handed out is the new job,
    [PENDING] at progress 0, for the requested file and language and
    without results; the polls of all other ids answer as before; exactly
    one background task is queued, for that id; and once the task has
    run the poll still finds the job. *)
Theorem started_job_is_polled (env : Video.Env) (uuid4 : string)
    (request : LocalizationRequest) (user : gmap string string)
    (w : Video.State) :
  let '(ack, queued, w') := Video.start_localization uuid4 request user w in
  Video.ack_job_id ack = uuid4 /\
  Video.get_job_status uuid4 w' =
    Ok {| Video.resp_job :=
            {| job_id := uuid4; status := PENDING; progress := 0;
               message := "Job created, starting full localization...";
               input_file := lr_file_key request;
               target_language := value (lr_target_language request);
               output_file := None; error := None |};
          Video.resp_results := None |} /\
  (forall other, other <> uuid4 ->
     Video.get_job_status other w' = Video.get_job_status other w) /\
  queued = [{| Video.lt_job_id := uuid4;
               Video.lt_file_key := lr_file_key request;
               Video.lt_target_language := value (lr_target_language request);
               Video.lt_user_id := user !! "sub" |}] /\
  forall t, In t queued ->
    exists resp,
      Video.get_job_status uuid4 (Video.run_localization_task env t w').2
        = Ok resp.
Proof.
  unfold Video.start_localization.
  split; [reflexivity |]. split; [| split; [| split; [reflexivity |]]].
  - unfold Video.get_job_status. cbn [Video.jobs].
    rewrite lookup_insert_eq. reflexivity.
  - intros other Hne. unfold Video.get_job_status.
    cbn [Video.jobs Video.job_results].
    rewrite lookup_insert_ne by congruence. reflexivity.
  - intros t [<- | []].
    unfold Video.run_localization_task, Video.process_localization_job.
    cbn [Video.lt_job_id Video.lt_file_key Video.lt_target_language
         Video.lt_user_id Video.jobs].
    rewrite lookup_insert_eq.
    destruct (Video.localization_task _ _ _ _ _ _) as [x r].
    cbn [snd]. unfold Video.get_job_status, Video.finish_run. cbn [Video.jobs].
    rewrite lookup_insert_eq. eauto.
Qed.

(** ** The languages on offer *)

(** X21.  The languages agree across the modules: the values of
    [TargetLanguage], the codes [/languages] lists and
    [SUPPORTED_LANGUAGES] are the same five, in the same order; each of
    them has an entry of its own in [VOICE_MAP], so that no supported
    language is spoken with the Hindi fallback voice, and two different
    languages never share a voice. *)
Theorem supported_languages_have_voices :
  let languages := [HINDI; TAMIL; BENGALI; TELUGU; MARATHI] in
  value <$> languages = Config.SUPPORTED_LANGUAGES /\
  value <$> languages = fst <$> Video.get_supported_languages /\
  forall l gender,
    gender = "male" \/ gender = "female" ->
    In l languages /\
    exists lang_voices voice,
      TTS.VOICE_MAP !! value l = Some lang_voices /\
      lang_voices !! gender = Some voice /\
      TTS.get_voice (value l) gender = Ok voice /\
      forall l' gender',
        gender' = "male" \/ gender' = "female" ->
        TTS.get_voice (value l') gender' = Ok voice ->
        l' = l /\ gender' = gender.
Proof.
  cbn zeta. split; [reflexivity |]. split; [reflexivity |].
  intros l gender Hg. split; [destruct l; cbn; tauto |].
  destruct l, Hg as [-> | ->];
    (eexists _, _; split; [reflexivity |]; split; [reflexivity |];
     split; [reflexivity |];
     intros l' gender' [-> | ->] Hv; destruct l';
     first [split; reflexivity | vm_compute in Hv; discriminate Hv]).
Qed.

(** ** Health and configuration *)

(** X22.  When [/api/health] answers ["ok"], the configuration it reports
    is valid and has no issue: the three services being ready implies the
    three settings [validate] looks at.  The converse does not hold, for
    [validate] does not look at the secret key nor at FFmpeg. *)
Theorem health_ok_is_valid (st : Config.Settings) (ffmpeg_available : bool) :
  let h := Main.health_check st ffmpeg_available in
  (Main.h_status h = "ok" ->
   Config.valid (Main.h_configuration h) = true /\
   Config.issues (Main.h_configuration h) = [] /\
   Main.h_gemini h = "ready" /\ Main.h_aws_s3 h = "ready" /\
   Main.h_ffmpeg h = "ready") /\
  (Main.h_status h = "ok" \/ Main.h_status h = "degraded") /\
  (Config.AWS_SECRET_ACCESS_KEY st = "" ->
   Main.h_status h = "degraded" /\ Main.h_aws_s3 h = "not configured").
Proof.
  cbn zeta. unfold Main.health_check, Config.validate, Config.s3_is_configured,
    Config.gemini_is_configured.
  cbn [Main.h_status Main.h_configuration Main.h_gemini Main.h_aws_s3
       Main.h_ffmpeg Config.valid Config.issues].
  split; [| split].
  - destruct (truthy (Config.GOOGLE_API_KEY st)),
      (truthy (Config.AWS_ACCESS_KEY_ID st)),
      (truthy (Config.AWS_SECRET_ACCESS_KEY st)),
      (truthy (Config.S3_BUCKET_NAME st)), ffmpeg_available; cbn;
      intros H; try discriminate H; auto.
  - destruct (_ && _ && _); auto.
  - intros ->. cbn [truthy]. rewrite !andb_false_r, andb_false_l.
    split; reflexivity.
Qed.

Lemma health_ok_is_valid_witness :
  Config.valid
    (Main.h_configuration
       (Main.health_check
          {| Config.GOOGLE_API_KEY := "g"; Config.AWS_ACCESS_KEY_ID := "a";
             Config.AWS_SECRET_ACCESS_KEY := "s"; Config.S3_BUCKET_NAME := "b";
             Config.CLERK_ISSUER_URL := "" |} true)) = true.
Proof.
  apply (proj1 (health_ok_is_valid
                  {| Config.GOOGLE_API_KEY := "g"; Config.AWS_ACCESS_KEY_ID := "a";
                     Config.AWS_SECRET_ACCESS_KEY := "s";
                     Config.S3_BUCKET_NAME := "b";
                     Config.CLERK_ISSUER_URL := "" |} true)).
  reflexivity.
Defined.

(** ** Authentication *)

Lemma verify_token_raises (ck : Auth.Clerk) (token : string) (e : exn) :
  Auth.verify_token ck token = Raise e ->
  (exists detail, e = HTTPException 401 detail /\
                  truthy (Config.CLERK_ISSUER_URL (Auth.settings ck)) = true) \/
  (e = HTTPException 503 "Authentication not configured. Set CLERK_ISSUER_URL." /\
   truthy (Config.CLERK_ISSUER_URL (Auth.settings ck)) = false).
Proof.
  unfold Auth.verify_token.
  destruct (truthy (Config.CLERK_ISSUER_URL (Auth.settings ck))); cbn [negb].
  - destruct (Auth.decode ck token); intros H; try discriminate H;
      injection H as <-; left; eauto.
  - intros H. injection H as <-. right. auto.
Qed.

(** X23.  [get_current_user] lets a request through only with a verified
    token that names a user: the payload it returns is the decoded token
    and has a non-empty ["sub"].  Every other request is answered 401,
    except that a request with a token is answered 503 when no issuer is
    configured; it never raises anything but these. *)
Theorem get_current_user_cases (ck : Auth.Clerk) (credentials : option string) :
  match Auth.get_current_user ck credentials with
  | Ok payload =>
      exists token user_id,
        credentials = Some token /\
        Auth.decode ck token = Auth.Decoded payload /\
        payload !! "sub" = Some user_id /\ user_id <> ""
  | Raise e =>
      (exists detail, e = HTTPException 401 detail) \/
      (e = HTTPException 503 "Authentication not configured. Set CLERK_ISSUER_URL." /\
       credentials <> None /\
       Config.CLERK_ISSUER_URL (Auth.settings ck) = "")
  end.
Proof.
  unfold Auth.get_current_user.
  destruct credentials as [token |]; [| left; eauto].
  destruct (Auth.verify_token ck token) as [payload | e] eqn:Ev; cbn.
  - destruct (payload !! "sub") as [user_id |] eqn:Es; cbn [truthy_opt];
      [| left; eauto].
    destruct (truthy user_id) eqn:Et; cbn [negb]; [| left; eauto].
    exists token, user_id. split; [reflexivity |].
    split; [| split; [exact Es | intros ->; discriminate Et]].
    unfold Auth.verify_token in Ev.
    destruct (negb _); [discriminate Ev |].
    destruct (Auth.decode ck token); try discriminate Ev.
    injection Ev as ->. reflexivity.
  - apply verify_token_raises in Ev as [(detail & -> & _) | [-> Hi]].
    + left. eauto.
    + right. split; [reflexivity |]. split; [discriminate |].
      destruct (Config.CLERK_ISSUER_URL (Auth.settings ck));
        [reflexivity | discriminate Hi].
Qed.

(** X24.  [get_optional_user] never raises: without a token, with a
    token that does not verify and with no issuer configured it answers
    [None].  Whenever [get_current_user] accepts a request,
    [get_optional_user] returns the same payload; but it also returns the
    payload of a verified token that names no user, which
    [get_current_user] rejects. *)
Theorem get_optional_user_cases (ck : Auth.Clerk) (credentials : option string) :
  (exists user, Auth.get_optional_user ck credentials = Ok user) /\
  (forall payload,
     Auth.get_current_user ck credentials = Ok payload ->
     Auth.get_optional_user ck credentials = Ok (Some payload)) /\
  (forall token payload,
     credentials = Some token ->
     Auth.verify_token ck token = Ok payload ->
     Auth.get_optional_user ck credentials = Ok (Some payload)).
Proof.
  unfold Auth.get_optional_user, Auth.get_current_user.
  destruct credentials as [token |]; [| split; [eauto | split; discriminate]].
  destruct (Auth.verify_token ck token) as [payload | e] eqn:Ev.
  - split; [eauto |]. split.
    + cbn. intros p. destruct (negb _); [discriminate |].
      intros H. injection H as <-. reflexivity.
    + intros t p Ht Hp. injection Ht as <-.
      rewrite Ev in Hp. injection Hp as <-. reflexivity.
  - pose proof (verify_token_raises _ _ _ Ev) as [(detail & -> & _) | [-> _]];
      (split; [eauto |]; split;
       [cbn; discriminate
       | intros t p Ht Hp; injection Ht as <-; rewrite Ev in Hp;
         discriminate Hp]).
Qed.

Lemma get_optional_user_cases_witness :
  let ck := {| Auth.settings :=
                 {| Config.GOOGLE_API_KEY := ""; Config.AWS_ACCESS_KEY_ID := "";
                    Config.AWS_SECRET_ACCESS_KEY := ""; Config.S3_BUCKET_NAME := "";
                    Config.CLERK_ISSUER_URL := "https://clerk.example" |};
               Auth.decode := fun _ => Auth.Decoded {["email" := "a@b.c"]} |} in
  Auth.get_optional_user ck (Some "token") = Ok (Some {["email" := "a@b.c"]}) /\
  Auth.get_current_user ck (Some "token") =
    Raise (HTTPException 401 "Invalid token: missing user ID").
Proof.
  cbn zeta. split.
  - apply (proj2 (proj2 (get_optional_user_cases _ (Some "token"))) "token");
      reflexivity.
  - reflexivity.
Defined.

(** ** The history endpoint *)

Lemma size_list_to_set_le (l : list string) :
  (size (list_to_set l : gset string) <= List.length l)%nat.
Proof.
  induction l as [| x l IH]; [rewrite list_to_set_nil, size_empty; cbn; lia |].
  rewrite list_to_set_cons, size_union_alt, size_singleton.
  assert (Hsz : (size (list_to_set l ∖ {[x]} : gset string)
                 <= size (list_to_set l : gset string))%nat).
  { apply subseteq_size. apply subseteq_difference_l. reflexivity. }
  cbn [List.length]. lia.
Qed.

Lemma history_stats_refresh (wb : S3.Web) (videos : list Video.HistoryVideo) :
  Video.history_stats (List.map (Video.refresh_urls wb) videos)
  = Video.history_stats videos.
Proof.
  unfold Video.history_stats, Video.unique_languages.
  rewrite length_map. f_equal.
  - f_equal. f_equal.
    induction videos as [| v l IH]; [reflexivity |].
    cbn [List.map omap list_omap Video.refresh_urls Video.hv_target_language].
    rewrite IH. reflexivity.
  - f_equal.
    induction videos as [| v l IH]; [reflexivity |].
    cbn [List.map List.filter Video.refresh_urls Video.hv_status].
    destruct (match Video.hv_status v with
              | Some s => (s =? "complete")%string
              | None => false
              end);
      cbn [List.map Video.hv_words_localized]; rewrite IH; reflexivity.
Qed.

(** X25.  The statistics of [/history] describe the stored records and
    nothing else: regenerating the download URLs changes neither the
    number of records nor any statistic; [total_projects] is the number of
    records returned; [languages_used] never exceeds it; and
    [words_localized] adds up the word counts of the records whose status
    is ["complete"] only, a missing count being 0. *)
Theorem history_stats_of_records (henv : Video.HistoryEnv)
    (user : gmap string string) (limit : Z)
    (videos : list Video.HistoryVideo) (stats : Video.Stats) :
  Video.get_user_history henv user limit = Ok (videos, stats) ->
  exists user_id stored,
    user !! "sub" = Some user_id /\
    Video.db_get_user_history henv user_id limit = Video.HistoryVideos stored /\
    videos = List.map (Video.refresh_urls (Video.web henv)) stored /\
    stats = Video.history_stats stored /\
    Video.total_projects stats = List.length videos /\
    (Video.languages_used stats <= Video.total_projects stats)%nat /\
    Video.stats_words_localized stats =
      foldr Z.add 0
        (List.map (fun video => default 0 (Video.hv_words_localized video))
           (List.filter (fun video => bool_decide
                                        (Video.hv_status video = Some "complete"))
              stored)).
Proof.
  unfold Video.get_user_history.
  destruct (user !! "sub") as [user_id |]; cbn [truthy_opt from_option id negb];
    [| discriminate].
  destruct (truthy user_id); cbn [negb]; [| discriminate].
  destruct (Video.db_get_user_history henv user_id limit) as [error | stored]
    eqn:Edb; [discriminate |].
  intros H. injection H as <- <-.
  exists user_id, stored. split; [reflexivity |]. split; [exact Edb |].
  split; [reflexivity |]. rewrite history_stats_refresh.
  split; [reflexivity |]. split; [| split].
  - cbn. rewrite length_map. reflexivity.
  - cbn [Video.history_stats Video.languages_used Video.total_projects].
    unfold Video.unique_languages.
    etransitivity; [apply size_list_to_set_le |].
    clear. induction stored as [| v l IH]; [cbn; lia |].
    cbn [omap list_omap List.length].
    destruct (match Video.hv_target_language v with
              | Some lang => if truthy lang then Some lang else None
              | None => None
              end); cbn [List.length]; lia.
  - cbn [Video.history_stats Video.stats_words_localized]. f_equal. f_equal.
    clear. induction stored as [| v l IH]; [reflexivity |].
    cbn [List.filter]. rewrite IH.
    destruct (Video.hv_status v) as [s |]; [| reflexivity].
    destruct (String.eqb_spec s "complete") as [-> | Hne]; [reflexivity |].
    rewrite bool_decide_eq_false_2 by congruence. reflexivity.
Qed.

Lemma history_stats_of_records_witness :
  exists user_id stored,
    ({["sub" := "user_1"]} : gmap string string) !! "sub" = Some user_id /\
    Video.db_get_user_history Scenario.history_env user_id 20
      = Video.HistoryVideos stored /\
    List.map (Video.refresh_urls Scenario.web) Scenario.stored_videos
      = List.map (Video.refresh_urls (Video.web Scenario.history_env)) stored /\
    {| Video.total_projects := 2; Video.languages_used := 1;
       Video.stats_words_localized := 120 |} = Video.history_stats stored /\
    Video.total_projects
      {| Video.total_projects := 2; Video.languages_used := 1;
         Video.stats_words_localized := 120 |}
      = List.length (List.map (Video.refresh_urls Scenario.web)
                       Scenario.stored_videos) /\
    (Video.languages_used
       {| Video.total_projects := 2; Video.languages_used := 1;
          Video.stats_words_localized := 120 |}
     <= Video.total_projects
          {| Video.total_projects := 2; Video.languages_used := 1;
             Video.stats_words_localized := 120 |})%nat /\
    Video.stats_words_localized
      {| Video.total_projects := 2; Video.languages_used := 1;
         Video.stats_words_localized := 120 |} =
      foldr Z.add 0
        (List.map (fun video => default 0 (Video.hv_words_localized video))
           (List.filter (fun video => bool_decide
                                        (Video.hv_status video = Some "complete"))
              stored)).
Proof.
  apply (history_stats_of_records Scenario.history_env {["sub" := "user_1"]} 20).
  vm_compute. reflexivity.
Defined.

Lemma get_current_user_sub (ck : Auth.Clerk) (credentials : option string)
    (payload : gmap string string) :
  Auth.get_current_user ck credentials = Ok payload ->
  truthy_opt (payload !! "sub") = true.
Proof.
  unfold Auth.get_current_user.
  destruct credentials as [token |]; [| discriminate].
  destruct (Auth.verify_token ck token) as [p | e]; [| discriminate]. cbn.
  destruct (truthy_opt (p !! "sub")) eqn:E; cbn [negb]; [| discriminate].
  intros H. injection H as <-. exact E.
Qed.

Lemma get_current_user_detail (ck : Auth.Clerk) (credentials : option string)
    (detail : string) :
  Auth.get_current_user ck credentials = Raise (HTTPException 401 detail) ->
  detail <> "Invalid user token".
Proof.
  unfold Auth.get_current_user, Auth.verify_token.
  destruct credentials as [token |]; [| intros H; injection H as <-; discriminate].
  destruct (negb _); [discriminate |].
  destruct (Auth.decode ck token) as [p | | msg | e]; cbn.
  - destruct (negb _); [| discriminate].
    intros H. injection H as <-. discriminate.
  - intros H. injection H as <-. discriminate.
  - intros H. injection H as <-. discriminate.
  - intros H. injection H as <-. discriminate.
Qed.

(** X26.  Behind [get_current_user] the endpoints never answer with their
    own 401 "Invalid user token": the dependency has already rejected
    every request whose token names no user, so for [/history] and for
    [DELETE /{job_id}] that check never fires. *)
Theorem invalid_user_token_never_answered (ck : Auth.Clerk)
    (credentials : option string) (henv : Video.HistoryEnv) (limit : Z)
    (env : Video.Env) (job_id : string) (w : Video.State) :
  Video.authenticated ck credentials
    (fun user => Video.get_user_history henv user limit)
    <> Raise (HTTPException 401 "Invalid user token") /\
  Video.authenticated ck credentials
    (fun user => (Video.delete_video env job_id user w).1)
    <> Raise (HTTPException 401 "Invalid user token").
Proof.
  unfold Video.authenticated.
  destruct (Auth.get_current_user ck credentials) as [user | e] eqn:Eu; cbn.
  - apply get_current_user_sub in Eu. split.
    + unfold Video.get_user_history. rewrite Eu. cbn [negb].
      destruct (Video.db_get_user_history _ _ _); discriminate.
    + unfold Video.delete_video. rewrite Eu. cbn [negb].
      destruct (DB.delete_video _ _ _ _) as [[error | | it] t']; cbn [fst];
        [destruct (contains "not found" (lower error)) | |]; discriminate.
  - assert (He : e <> HTTPException 401 "Invalid user token").
    { intros ->. exact (get_current_user_detail _ _ _ Eu eq_refl). }
    split; congruence.
Qed.
